(** * The in-page autofill pipeline of the job-application extension

    A shallow embedding of the parts of the extension that detect the
    applicant-tracking platform of a page ([ATSDetector]), read the years of
    experience out of a posting ([JobExtractor]), reorder a stored resume
    ([ResumeTailor]) and fill the application form ([FormFiller]), together
    with the properties the specification states about them.

    Conventions of the embedding.
    - A JavaScript string is a [string]: a sequence of code units below 256.
      Case mapping and the character classes of regular expressions are the
      ones the language defines on that range.
    - A JavaScript number is a [number]: an integer, an infinity or [NaN].
      Sums and differences are exact, as they are in the language on the
      counts, scores and years the code computes with; [parseInt], where a
      text decides the size of a number, rounds to the nearest double.
    - A call that can raise returns a [completion].
    - The host page is not part of the repository: the form filler is
      written over an interface [Dom] of the operations it calls. *)

From Stdlib Require Import String Ascii List ZArith Lia Bool Arith PeanoNat.
From Stdlib Require Import Permutation Sorted DecimalString.
Import ListNotations.

Set Implicit Arguments.
Unset Strict Implicit.

(** ** The fragment of the language the sources use *)

Module JS.

Definition code (c : ascii) : nat := nat_of_ascii c.

Definition between (lo hi n : nat) : bool := (lo <=? n) && (n <=? hi).

Definition is_digit (c : ascii) : bool := between 48 57 (code c).

(** [\w]: ASCII letters, digits and the underscore. *)
Definition is_word (c : ascii) : bool :=
  between 65 90 (code c) || between 97 122 (code c)
  || between 48 57 (code c) || (code c =? 95).

(** [\s] on code units below 256: TAB, LF, VT, FF, CR, space, NBSP. *)
Definition is_space (c : ascii) : bool :=
  between 9 13 (code c) || (code c =? 32) || (code c =? 160).

Definition is_line_terminator (c : ascii) : bool :=
  (code c =? 10) || (code c =? 13).

(** One code unit of [String.prototype.toLowerCase]. *)
Definition lower_char (c : ascii) : ascii :=
  let n := code c in
  if between 65 90 n || between 192 214 n || between 216 222 n
  then ascii_of_nat (n + 32) else c.

(** One code unit of [String.prototype.toUpperCase], as the regular
    expression engine uses it to compare under the [i] flag (a code unit
    whose upper case is not a single code unit below 256 stays). *)
Definition canonicalize (c : ascii) : ascii :=
  let n := code c in
  if between 97 122 n || between 224 246 n || between 248 254 n
  then ascii_of_nat (n - 32) else c.

Fixpoint toLowerCase (s : string) : string :=
  match s with
  | EmptyString => EmptyString
  | String c s' => String (lower_char c) (toLowerCase s')
  end.

(** [hay.startsWith(needle)] *)
Fixpoint startsWith (hay needle : string) : bool :=
  match needle, hay with
  | EmptyString, _ => true
  | String a n', String b h' => Ascii.eqb a b && startsWith h' n'
  | String _ _, EmptyString => false
  end.

(** [hay.includes(needle)] *)
Fixpoint includes (hay needle : string) : bool :=
  startsWith hay needle
  || match hay with
     | EmptyString => false
     | String _ h' => includes h' needle
     end.

(** [s.replace(/c/g, by)] for a single literal character [c] and a
    replacement [by] that holds no [$]. *)
Fixpoint replace_char (c : ascii) (by_ : string) (s : string) : string :=
  match s with
  | EmptyString => EmptyString
  | String a s' =>
      if Ascii.eqb a c then by_ ++ replace_char c by_ s'
      else String a (replace_char c by_ s')
  end.

(** The names every object inherits from [Object.prototype], and the text
    the inherited value converts to. *)
Definition prototype_names : list string :=
  [ "constructor"; "__proto__"; "hasOwnProperty"; "isPrototypeOf";
    "propertyIsEnumerable"; "toLocaleString"; "toString"; "valueOf";
    "__defineGetter__"; "__defineSetter__"; "__lookupGetter__";
    "__lookupSetter__" ]%string.

Definition inherited (key : string) : bool :=
  existsb (String.eqb key) prototype_names.

Definition inherited_text (key : string) : string :=
  (if String.eqb key "__proto__" then "[object Object]"
   else if String.eqb key "constructor"
        then "function Object() { [native code] }"
        else "function " ++ key ++ "() { [native code] }")%string.

(** Numbers: the integers, the two infinities and [NaN]; the two zeros
    of the language are not told apart. *)
Inductive number : Type :=
| Num (z : Z)
| NaN
| Infinity (negative : bool).

(** [a - b] *)
Definition sub (a b : number) : number :=
  match a, b with
  | Num x, Num y => Num (x - y)
  | NaN, _ | _, NaN => NaN
  | Infinity n, Num _ => Infinity n
  | Num _, Infinity n => Infinity (negb n)
  | Infinity n, Infinity m => if Bool.eqb n m then NaN else Infinity n
  end.

(** The doubles hold 53 binary digits, and their size stays below
    [2^1024]. *)
Definition precision : Z := 53.

Definition overflow : Z := Z.shiftl 1 1024.

(** The number an integer stands for: the double nearest to it, the one
    with an even last digit when two are as near, and an infinity when
    that is [2^1024] or beyond. *)
Definition nearest (v : Z) : number :=
  let m := Z.abs v in
  let dropped := (Z.log2 m + 1 - precision)%Z in
  let rounded :=
    if (dropped <=? 0)%Z then m
    else
      let kept := Z.shiftr m dropped in
      let rest := Z.land m (Z.ones dropped) in
      let half := Z.shiftl 1 (dropped - 1) in
      let up := (half <? rest)%Z || ((rest =? half)%Z && Z.odd kept) in
      Z.shiftl (if up then kept + 1 else kept)%Z dropped in
  if (overflow <=? rounded)%Z then Infinity (v <? 0)%Z
  else Num (if (v <? 0)%Z then (- rounded)%Z else rounded).

(** What a call can do: return a value or raise. *)
Inductive jserror : Type :=
| SyntaxError
| TypeError.

Inductive completion (A : Type) : Type :=
| Normal (a : A)
| Throw (e : jserror).

Arguments Normal {A} a.
Arguments Throw {A} e.

(** How [sort] reads what a comparator returns: by its sign, [NaN]
    counting as zero. *)
Definition sign_of (n : number) : Z :=
  match n with
  | Num z => z
  | NaN => 0%Z
  | Infinity negative => if negative then (-1)%Z else 1%Z
  end.

(** [Array.prototype.sort(cmp)].  The standard asks for a stable sort and
    fixes the result whenever the comparator is a consistent ordering; this
    is the stable insertion sort, which every conforming engine agrees with
    on such comparators (for a comparator that is not, the order is the
    engine's choice). *)
Section Sort.
Variable A : Type.
Variable cmp : A -> A -> number.

(** [a] may stay in front of [b]. *)
Definition before (a b : A) : bool := (sign_of (cmp a b) <=? 0)%Z.

Fixpoint insert (x : A) (l : list A) : list A :=
  match l with
  | [] => [x]
  | y :: l' => if before x y then x :: y :: l' else y :: insert x l'
  end.

Fixpoint sort (l : list A) : list A :=
  match l with
  | [] => []
  | x :: l' => insert x (sort l')
  end.
End Sort.

(** The comparator [(a, b) => key(b) - key(a)]: largest key first. *)
Definition descending (A : Type) (key : A -> Z) (a b : A) : number :=
  Num (key b - key a).

End JS.

(** ** Regular expressions

    The engine's backtracking matcher on the constructs the sources use, with
    the priorities of the language: a greedy quantifier tries the longest
    repetition first, an alternative its left branch first, and the search
    returns the leftmost match. *)

Module RegExp.
Import JS.

Inductive charset : Type :=
| Digit   (* \d *)
| Word    (* \w *)
| Space.  (* \s *)

Inductive regex : Type :=
| Eps
| Lit (c : ascii)
| Dot
| Cls (negated : bool) (k : charset)
| Cat (r1 r2 : regex)
| Alt (r1 r2 : regex)
| Rep (min : nat) (max : option nat) (greedy : bool) (r : regex)
| Grp (n : nat) (r : regex)
| Bol
| Eol.

Definition in_charset (k : charset) (c : ascii) : bool :=
  match k with
  | Digit => is_digit c
  | Word => is_word c
  | Space => is_space c
  end.

(** Captures: the text of each group that took part, latest first. *)
Definition captures : Type := list (nat * string).

Fixpoint capture (n : nat) (c : captures) : option string :=
  match c with
  | [] => None
  | (k, s) :: c' => if k =? n then Some s else capture n c'
  end.

Fixpoint groups (r : regex) : list nat :=
  match r with
  | Cat r1 r2 | Alt r1 r2 => groups r1 ++ groups r2
  | Rep _ _ _ r1 => groups r1
  | Grp n r1 => n :: groups r1
  | _ => []
  end.

Definition reset (gs : list nat) (c : captures) : captures :=
  filter (fun e => negb (existsb (Nat.eqb (fst e)) gs)) c.

(** The text between two positions of the input, both given by what is
    left to read. *)
Definition taken (from to : string) : string :=
  substring 0 (String.length from - String.length to) from.

Definition same_char (icase : bool) (a b : ascii) : bool :=
  if icase then Ascii.eqb (canonicalize a) (canonicalize b)
  else Ascii.eqb a b.

Definition result : Type := (string * captures)%type.
Definition cont : Type := string -> captures -> option result.

Definition pred_max (mx : option nat) : option nat :=
  match mx with
  | Some n => Some (Nat.pred n)
  | None => None
  end.

Section Matcher.
Variable icase : bool.
(** Length of the whole input: a position is the start of the input when
    this much is left to read. *)
Variable total : nat.

Fixpoint matcher (r : regex) (k : cont) (s : string) (c : captures)
  {struct r} : option result :=
  match r with
  | Eps => k s c
  | Lit a =>
      match s with
      | String b s' => if same_char icase a b then k s' c else None
      | EmptyString => None
      end
  | Dot =>
      match s with
      | String b s' => if is_line_terminator b then None else k s' c
      | EmptyString => None
      end
  | Cls neg cs =>
      match s with
      | String b s' => if xorb neg (in_charset cs b) then k s' c else None
      | EmptyString => None
      end
  | Cat r1 r2 => matcher r1 (fun s' c' => matcher r2 k s' c') s c
  | Alt r1 r2 =>
      match matcher r1 k s c with
      | Some x => Some x
      | None => matcher r2 k s c
      end
  | Grp n r1 => matcher r1 (fun s' c' => k s' ((n, taken s s') :: c')) s c
  | Bol => if String.length s =? total then k s c else None
  | Eol =>
      match s with
      | EmptyString => k s c
      | String _ _ => None
      end
  | Rep mn0 mx0 greedy r1 =>
      (* A repetition either lowers the number still asked for or
         consumes input (an empty repetition is refused once none is asked
         for), so the fuel outlasts the repetitions. *)
      (fix rep (fuel mn : nat) (mx : option nat) (s : string)
           (c : captures) {struct fuel} : option result :=
         match fuel with
         | O => None
         | S fuel' =>
             match mx with
             | Some O => k s c
             | _ =>
                 let d : cont := fun s' c' =>
                   if (mn =? 0) && (String.length s' =? String.length s) then None
                   else rep fuel' (Nat.pred mn) (pred_max mx) s' c' in
                 let c0 := reset (groups r1) c in
                 if mn =? 0 then
                   if greedy then
                     match matcher r1 d s c0 with
                     | Some x => Some x
                     | None => k s c
                     end
                   else
                     match k s c with
                     | Some x => Some x
                     | None => matcher r1 d s c0
                     end
                 else matcher r1 d s c0
             end
         end) (mn0 + String.length s + 1) mn0 mx0 s c
  end.

(** The match that starts at the position where [s] is left. *)
Definition match_here (r : regex) (s : string) : option result :=
  matcher r (fun s' c' => Some (s', c')) s [].

(** The leftmost match at or after that position: what precedes it,
    the matched text and the captures. *)
Fixpoint search (r : regex) (skipped : nat) (s : string)
  : option (nat * string * captures) :=
  match match_here r s with
  | Some (rest, c) => Some (skipped, taken s rest, c)
  | None =>
      match s with
      | EmptyString => None
      | String _ s' => search r (S skipped) s'
      end
  end.
End Matcher.

(** [regex.exec(str)] and [str.match(regex)] without the [g] flag. *)
Definition exec (icase : bool) (r : regex) (str : string)
  : option (nat * string * captures) :=
  search icase (String.length str) r 0 str.

(** [regex.test(str)] *)
Definition test (icase : bool) (r : regex) (str : string) : bool :=
  match exec icase r str with
  | Some _ => true
  | None => false
  end.

(** *** Reading a pattern: [new RegExp(source)]

    The pattern grammar on the constructs above.  A source is read into an
    expression, or refused: as [Malformed] when the constructor raises a
    [SyntaxError] on it, as [Beyond] when it uses a construct left out here
    (classes in brackets, braces, look-around, back references, word
    boundaries and the other escapes made of a letter or a digit). *)

Inductive refusal : Type :=
| Malformed
| Beyond.

Definition is_alnum (c : ascii) : bool :=
  between 65 90 (code c) || between 97 122 (code c) || between 48 57 (code c).

Definition escape (c : ascii) : regex + refusal :=
  match c with
  | "d"%char => inl (Cls false Digit)
  | "D"%char => inl (Cls true Digit)
  | "w"%char => inl (Cls false Word)
  | "W"%char => inl (Cls true Word)
  | "s"%char => inl (Cls false Space)
  | "S"%char => inl (Cls true Space)
  | "t"%char => inl (Lit (ascii_of_nat 9))
  | "n"%char => inl (Lit (ascii_of_nat 10))
  | "v"%char => inl (Lit (ascii_of_nat 11))
  | "f"%char => inl (Lit (ascii_of_nat 12))
  | "r"%char => inl (Lit (ascii_of_nat 13))
  | _ => if is_alnum c then inr Beyond else inl (Lit c)
  end.

(** A quantifier after an atom, with its lazy mark. *)
Definition quantifier (atom : regex) (s : string) : regex * string :=
  let lazy (mn : nat) (mx : option nat) (s' : string) :=
    match s' with
    | String "?"%char s'' => (Rep mn mx false atom, s'')
    | _ => (Rep mn mx true atom, s')
    end in
  match s with
  | String "*"%char s' => lazy 0 None s'
  | String "+"%char s' => lazy 1 None s'
  | String "?"%char s' => lazy 0 (Some 1) s'
  | _ => (atom, s)
  end.

(** What was read, what is left of the source, and the number of the last
    capturing group opened. *)
Definition parsed : Type := (regex * string * nat + refusal)%type.

(** [fuel] bounds the depth of the descent; the source is [Beyond] the
    model should it run out. *)
Fixpoint disjunction (fuel : nat) (s : string) (gi : nat) : parsed :=
  match fuel with
  | O => inr Beyond
  | S f =>
      match alternative f s gi with
      | inl (r1, String "|"%char rest, gi1) =>
          match disjunction f rest gi1 with
          | inl (r2, rest2, gi2) => inl (Alt r1 r2, rest2, gi2)
          | inr e => inr e
          end
      | other => other
      end
  end
with alternative (fuel : nat) (s : string) (gi : nat) : parsed :=
  match fuel with
  | O => inr Beyond
  | S f =>
      match s with
      | EmptyString => inl (Eps, s, gi)
      | String "|"%char _ => inl (Eps, s, gi)
      | String ")"%char _ => inl (Eps, s, gi)
      | _ =>
          match term f s gi with
          | inl (r1, rest, gi1) =>
              match alternative f rest gi1 with
              | inl (r2, rest2, gi2) => inl (Cat r1 r2, rest2, gi2)
              | inr e => inr e
              end
          | inr e => inr e
          end
      end
  end
with term (fuel : nat) (s : string) (gi : nat) : parsed :=
  match fuel with
  | O => inr Beyond
  | S f =>
      let quantified (atom : regex) (rest : string) (gi' : nat) : parsed :=
        let (r, rest') := quantifier atom rest in inl (r, rest', gi') in
      match s with
      | EmptyString => inr Malformed
      | String "^"%char rest => inl (Bol, rest, gi)
      | String "$"%char rest => inl (Eol, rest, gi)
      | String "."%char rest => quantified Dot rest gi
      | String "\"%char (String c rest) =>
          match escape c with
          | inl atom => quantified atom rest gi
          | inr e => inr e
          end
      | String "\"%char EmptyString => inr Malformed
      | String "("%char (String "?"%char (String ":"%char rest)) =>
          match disjunction f rest gi with
          | inl (r, String ")"%char rest', gi') => quantified r rest' gi'
          | inl _ => inr Malformed
          | inr e => inr e
          end
      | String "("%char (String "?"%char _) => inr Beyond
      | String "("%char rest =>
          match disjunction f rest (S gi) with
          | inl (r, String ")"%char rest', gi') =>
              quantified (Grp (S gi) r) rest' gi'
          | inl _ => inr Malformed
          | inr e => inr e
          end
      | String "*"%char _ | String "+"%char _ | String "?"%char _ =>
          inr Malformed
      | String "["%char _ | String "{"%char _ => inr Beyond
      | String c rest => quantified (Lit c) rest gi
      end
  end.

Definition compile (source : string) : regex + refusal :=
  match disjunction (4 * String.length source + 8) source 0 with
  | inl (r, EmptyString, _) => inl r
  | inl (_, String _ _, _) => inr Malformed
  | inr e => inr e
  end.

(** *** Replacing every match: [str.replace(regex, by)] with the [g] flag

    The text left after [n] characters. *)
Fixpoint skip (n : nat) (s : string) : string :=
  match n, s with
  | S n', String _ s' => skip n' s'
  | _, _ => s
  end.

(** The loop of the replacement on what is left of the input, for a
    replacement text [by_] that holds no [$]: the text before the leftmost
    match is kept, the match is replaced and the search goes on behind it;
    behind an empty match it goes on one character further, and that
    character is kept.  Every round reads at least one character, so [fuel]
    above the length of the input is never what ends the loop. *)
Fixpoint replace_from (fuel : nat) (icase : bool) (total : nat) (r : regex)
    (by_ : string) (s : string) : string :=
  match fuel with
  | O => s
  | S fuel' =>
      match search icase total r 0 s with
      | None => s
      | Some (skipped, matched, _) =>
          (substring 0 skipped s ++ by_ ++
           match matched, skip skipped s with
           | EmptyString, EmptyString => EmptyString
           | EmptyString, String c rest =>
               String c (replace_from fuel' icase total r by_ rest)
           | String _ _, _ =>
               replace_from fuel' icase total r by_
                 (skip (skipped + String.length matched) s)
           end)%string
      end
  end.

Definition replace (icase : bool) (r : regex) (by_ : string) (str : string)
  : string :=
  replace_from (S (String.length str)) icase (String.length str) r by_ str.

End RegExp.

(** ** The data model *)

Module Model.
Import JS.

(** A value of the language, as far as the form filler tells values
    apart.  [JObject] carries the text the object converts to. *)
Inductive JSValue : Type :=
| JUndefined
| JNull
| JBool (b : bool)
| JNumber (n : number)
| JString (s : string)
| JObject (repr : string).

(** One step of an action list of [ats-selectors.js]. *)
Record Action : Type := {
  a_method : option string;
  a_path : option string;
  a_delay : option Z;
  a_time : option Z;
  a_allowFailure : bool;
  a_event : option string;
  a_keyCode : option Z
}.

Inductive PathSpec : Type :=
| OnePath (p : string)
| ManyPaths (ps : list string).

Inductive ValuesSpec : Type :=
| NamedValues (table : string)
| ValueTable (entries : list (string * JSValue)).

Record ComplexSelector : Type := {
  c_path : option PathSpec;
  c_method : option string;
  c_values : option ValuesSpec;
  c_actions : option (list Action)
}.

(** An entry of a field's selector list: a bare locator, a record, [null]
    (an object for [typeof]) or a value that is neither string nor
    object. *)
Inductive SelectorConfig : Type :=
| Simple (selector : string)
| Complex (c : ComplexSelector)
| NullConfig
| OtherConfig.

Inductive SelectorConfigs : Type :=
| ConfigArray (l : list SelectorConfig)
| ConfigSingle (c : SelectorConfig).

(** A platform of the registry, with the properties the detector and the
    form filler read.  [inputSelectors] is a [Map]: its entries in
    insertion order. *)
Record ATSConfig : Type := {
  name : string;
  urls : option (list string);
  urlsExcluded : option (list string);
  defaultMethod : option string;
  inputSelectors : list (string * SelectorConfigs)
}.

(** [Object.entries(window.ATS_CONFIGS)] *)
Definition Registry : Type := list (string * ATSConfig).

End Model.

(** ** ATSDetector *)

Module ATSDetector.
Import JS Model.

(** The chain of [replace] calls of [matchPattern] and [isExcluded]. *)
Definition regexPattern (pattern : string) : string :=
  replace_char "."%char "\."
    (replace_char "/"%char "\/"
       (replace_char "?"%char "."
          (replace_char "*"%char ".*" pattern))).

(** What a call of the detector does: it returns or raises, and [None]
    when a pattern is beyond the expressions this model reads. *)
Definition answer (A : Type) : Type := option (completion A).

(** [new RegExp(regexPattern, 'i').test(url)] *)
Definition matchPattern (url hostname pattern : string) : answer bool :=
  match RegExp.compile (regexPattern pattern) with
  | inl regex => Some (Normal (RegExp.test true regex url))
  | inr RegExp.Malformed => Some (Throw SyntaxError)
  | inr RegExp.Beyond => None
  end.

Fixpoint matchesUrl_loop (url hostname : string) (patterns : list string)
  : answer bool :=
  match patterns with
  | [] => Some (Normal false)
  | pattern :: rest =>
      match matchPattern url hostname pattern with
      | Some (Normal false) => matchesUrl_loop url hostname rest
      | other => other
      end
  end.

Definition matchesUrl (url hostname : string) (config : ATSConfig)
  : answer bool :=
  match urls config with
  | None => Some (Normal false)
  | Some patterns => matchesUrl_loop url hostname patterns
  end.

Fixpoint isExcluded_loop (url : string) (patterns : list string)
  : answer bool :=
  match patterns with
  | [] => Some (Normal false)
  | pattern :: rest =>
      match RegExp.compile (regexPattern pattern) with
      | inl regex =>
          if RegExp.test true regex url then Some (Normal true)
          else isExcluded_loop url rest
      | inr RegExp.Malformed => Some (Throw SyntaxError)
      | inr RegExp.Beyond => None
      end
  end.

Definition isExcluded (url : string) (config : ATSConfig) : answer bool :=
  match urlsExcluded config with
  | None => Some (Normal false)
  | Some patterns => isExcluded_loop url patterns
  end.

(** [detect], on the entries of the registry still to visit; [url] and
    [hostname] are those of [window.location]. *)
Fixpoint detect_loop (url hostname : string) (entries : Registry)
  : answer (option (string * ATSConfig)) :=
  match entries with
  | [] => Some (Normal None)
  | (name, config) :: rest =>
      match matchesUrl url hostname config with
      | Some (Normal false) => detect_loop url hostname rest
      | Some (Normal true) =>
          match isExcluded url config with
          | Some (Normal true) => detect_loop url hostname rest
          | Some (Normal false) => Some (Normal (Some (name, config)))
          | Some (Throw e) => Some (Throw e)
          | None => None
          end
      | Some (Throw e) => Some (Throw e)
      | None => None
      end
  end.

Definition detect (configs : Registry) (url hostname : string)
  : answer (option (string * ATSConfig)) :=
  detect_loop url hostname configs.


(** [getConfig(name)]: [this.configs[name] || null].  The property is a
    platform's configuration, or what every object inherits under that
    name, or missing. *)
Inductive ConfigValue : Type :=
| Configured (config : ATSConfig)
| Inherited (name : string)
| NoConfig.

Fixpoint own_config (configs : Registry) (name : string) : option ATSConfig :=
  match configs with
  | [] => None
  | (key, config) :: rest =>
      if String.eqb key name then Some config else own_config rest name
  end.

Definition getConfig (configs : Registry) (name : string) : ConfigValue :=
  match own_config configs name with
  | Some config => Configured config
  | None => if inherited name then Inherited name else NoConfig
  end.

End ATSDetector.

(** ** JobExtractor *)

Module JobExtractor.
Import JS.

Definition digit_value (radix : Z) (c : ascii) : option Z :=
  let n := Z.of_nat (code c) in
  let v :=
    (if is_digit c then n - 48
     else if between 97 122 (code c) then n - 87
     else if between 65 90 (code c) then n - 55
     else 36)%Z in
  if (v <? radix)%Z then Some v else None.

(** The value of the longest run of digits at the start of [s]. *)
Fixpoint digits (radix : Z) (acc : option Z) (s : string) : option Z :=
  match s with
  | EmptyString => acc
  | String c s' =>
      match digit_value radix c with
      | Some v =>
          digits radix
            (Some (match acc with Some a => (a * radix + v)%Z | None => v end))
            s'
      | None => acc
      end
  end.

Fixpoint trimStart (s : string) : string :=
  match s with
  | String c s' => if is_space c then trimStart s' else s
  | EmptyString => s
  end.

(** [parseInt(s)] with no radix given: the number the digits stand for,
    which is their value rounded to the nearest double (the standard lets
    an engine read the decimal digits behind the 20th as zeros; the engines
    round the exact value). *)
Definition parseInt (s : string) : number :=
  let s1 := trimStart s in
  let (negative, s2) :=
    match s1 with
    | String "-"%char r => (true, r)
    | String "+"%char r => (false, r)
    | _ => (false, s1)
    end in
  let magnitude :=
    match s2 with
    | String "0"%char (String "x"%char r) => digits 16 None r
    | String "0"%char (String "X"%char r) => digits 16 None r
    | _ => digits 10 None s2
    end in
  match magnitude with
  | Some v => nearest (if negative then (- v)%Z else v)
  | None => NaN
  end.

(** The sources of the three regular expression literals, each with the
    [i] flag. *)
Definition patterns : list string :=
  [ "(\d+)\+?\s*(?:years?|yrs?)\s*(?:of)?\s*(?:experience|exp)";
    "(?:minimum|at least|min)\s*(\d+)\s*(?:years?|yrs?)";
    "(\d+)\s*-\s*(\d+)\s*(?:years?|yrs?)" ]%string.

Fixpoint extractYears_loop (text : string) (ps : list string)
  : option (completion (option number)) :=
  match ps with
  | [] => Some (Normal None)
  | pattern :: rest =>
      match RegExp.compile pattern with
      | inr RegExp.Malformed => Some (Throw SyntaxError)
      | inr RegExp.Beyond => None
      | inl regex =>
          match RegExp.exec true regex text with
          | Some (_, _, caps) =>
              Some (Normal (Some (match RegExp.capture 1 caps with
                                  | Some digits => parseInt digits
                                  | None => NaN
                                  end)))
          | None => extractYears_loop text rest
          end
      end
  end.

(** [description] is [this.extractedData?.description]; the result
    [Normal None] is [null].  The three expressions are within what the
    model reads, so the outer [option] is always [Some] (lemma
    [patterns_read]). *)
Definition extractYearsOfExperience (description : option string)
  : option (completion (option number)) :=
  match description with
  | None => Some (Normal None)
  | Some EmptyString => Some (Normal None)
  | Some text => extractYears_loop text patterns
  end.

(** *** extractKeywords *)

Definition techKeywords : list string :=
  [ "javascript"; "typescript"; "python"; "java"; "c++"; "c#"; "go"; "rust";
    "react"; "angular"; "vue"; "node"; "express"; "django"; "flask"; "spring";
    "aws"; "azure"; "gcp"; "docker"; "kubernetes"; "terraform";
    "sql"; "postgresql"; "mysql"; "mongodb"; "redis"; "elasticsearch";
    "git"; "ci/cd"; "agile"; "scrum"; "jira";
    "rest"; "api"; "graphql"; "microservices";
    "machine learning"; "ai"; "data science"; "analytics" ]%string.

(** [description] is [this.extractedData?.description]. *)
Definition extractKeywords (description : option string) : list string :=
  match description with
  | None | Some EmptyString => []
  | Some text =>
      filter (fun keyword => includes (toLowerCase text) keyword) techKeywords
  end.

(** *** cleanDescription *)

Fixpoint trimEnd (s : string) : string :=
  match s with
  | EmptyString => EmptyString
  | String c s' =>
      match trimEnd s' with
      | EmptyString => if is_space c then EmptyString else String c EmptyString
      | t => String c t
      end
  end.

(** [s.trim()] *)
Definition trim (s : string) : string := trimEnd (trimStart s).

(** [s.split(sep)] for a separator of one character; [cur] is the part
    read so far. *)
Fixpoint split_on (sep : ascii) (cur : string) (s : string) : list string :=
  match s with
  | EmptyString => [cur]
  | String c s' =>
      if Ascii.eqb c sep then cur :: split_on sep EmptyString s'
      else split_on sep (cur ++ String c EmptyString) s'
  end.

Definition split (sep : ascii) (s : string) : list string :=
  split_on sep EmptyString s.

(** The expressions [/\s+/] and [/\n\s*\n/], as [RegExp.compile] reads
    their sources (lemma [literals_read]). *)
Definition whitespaceRun : RegExp.regex :=
  RegExp.Cat (RegExp.Rep 1 None true (RegExp.Cls false RegExp.Space))
    RegExp.Eps.

Definition lineFeed : ascii := ascii_of_nat 10.

Definition blankLines : RegExp.regex :=
  RegExp.Cat (RegExp.Lit lineFeed)
    (RegExp.Cat (RegExp.Rep 0 None true (RegExp.Cls false RegExp.Space))
       (RegExp.Cat (RegExp.Lit lineFeed) RegExp.Eps)).

(** [text] is [element.innerText || element.textContent]. *)
Definition cleanDescription (text : option string) : string :=
  match text with
  | None | Some EmptyString => EmptyString
  | Some t =>
      substring 0 10000
        (trim
           (RegExp.replace false blankLines
              (String lineFeed (String lineFeed EmptyString))
              (RegExp.replace false whitespaceRun " " t)))
  end.

End JobExtractor.

(** ** ResumeTailor *)

Module ResumeTailor.
Import JS.

(** The posting handed to the tailor; [description] may be absent. *)
Record JobPosting : Type := {
  title : string;
  company : string;
  description : option string
}.

(** [jobDescription?.description] *)
Definition description_of (jobDescription : option JobPosting)
  : option string :=
  match jobDescription with
  | Some job => description job
  | None => None
  end.

(** Truth value of an optional string: absent and empty are falsy. *)
Definition truthy (s : option string) : bool :=
  match s with
  | Some (String _ _) => true
  | _ => false
  end.

(** An entry of [resume.experience].  [exp_startYear] is
    [startDate?.year]; [exp_score] is the [score] property, absent until
    the tailor adds it. *)
Record Experience : Type := {
  exp_title : option string;
  exp_description : option string;
  exp_startYear : option Z;
  exp_score : option Z
}.

(** *** extractKeywords *)

(** [text.split(/\W+/)]: the runs of word characters, with an empty string
    in front when the text starts with a separator and one at the end when
    it ends with one.  [in_sep] holds while a separator is being read and
    [cur] is the word read so far. *)
Fixpoint split_nonword (in_sep : bool) (cur : string) (s : string)
  : list string :=
  match s with
  | EmptyString => [cur]
  | String c s' =>
      if is_word c then split_nonword false (cur ++ String c EmptyString) s'
      else if in_sep then split_nonword true cur s'
      else cur :: split_nonword true EmptyString s'
  end.

Definition split_W (text : string) : list string :=
  split_nonword false EmptyString text.

(** A property of the [frequency] object: a count, or the text that
    [+ 1] makes of a value inherited from [Object.prototype]. *)
Inductive tally : Type :=
| Count (n : Z)
| Text (s : string).

Definition to_number (t : tally) : number :=
  match t with
  | Count n => Num n
  | Text _ => NaN
  end.

(** The own properties of an object, in the order they were created. *)
Definition object : Type := list (string * tally).

Fixpoint own (o : object) (key : string) : option tally :=
  match o with
  | [] => None
  | (k, v) :: o' => if String.eqb k key then Some v else own o' key
  end.

Fixpoint set_own (o : object) (key : string) (v : tally) : object :=
  match o with
  | [] => [(key, v)]
  | (k, w) :: o' =>
      if String.eqb k key then (k, v) :: o' else (k, w) :: set_own o' key v
  end.

(** [frequency[word] = (frequency[word] || 0) + 1] *)
Definition bump (frequency : object) (word : string) : object :=
  match own frequency word with
  | Some (Count n) =>
      set_own frequency word (if (n =? 0)%Z then Count 1 else Count (n + 1))
  | Some (Text s) =>
      set_own frequency word
        (match s with
         | EmptyString => Count 1
         | _ => Text (s ++ "1")
         end)
  | None =>
      if String.eqb word "__proto__" then frequency
      else if inherited word
           then set_own frequency word (Text (inherited_text word ++ "1"))
      else set_own frequency word (Count 1)
  end.

Fixpoint count_words (frequency : object) (words : list string) : object :=
  match words with
  | [] => frequency
  | word :: rest =>
      count_words
        (if 3 <? String.length word then bump frequency word else frequency)
        rest
  end.

(** A key that is an array index: a canonical decimal numeral below
    [2^32 - 1]. *)
Fixpoint all_digits (s : string) : bool :=
  match s with
  | EmptyString => true
  | String c s' => is_digit c && all_digits s'
  end.

Fixpoint decimal (acc : Z) (s : string) : Z :=
  match s with
  | EmptyString => acc
  | String c s' => decimal (acc * 10 + (Z.of_nat (code c) - 48)) s'
  end.

Definition is_index (key : string) : bool :=
  match key with
  | EmptyString => false
  | String "0"%char EmptyString => true
  | String "0"%char _ => false
  | _ => all_digits key && (decimal 0 key <? 4294967295)%Z
  end.

(** [Object.entries(o)]: index keys in ascending order, then the other
    keys in creation order. *)
Definition entries (o : object) : list (string * tally) :=
  sort (fun a b => Num (decimal 0 (fst a) - decimal 0 (fst b)))
       (filter (fun e => is_index (fst e)) o)
  ++ filter (fun e => negb (is_index (fst e))) o.

Definition stopWords : list string :=
  [ "the"; "and"; "for"; "with"; "you"; "your"; "will"; "have"; "are";
    "our"; "this"; "that"; "from"; "they"; "been"; "more"; "when";
    "what"; "about"; "which"; "their"; "work"; "team"; "also" ]%string.

Definition has (set : list string) (word : string) : bool :=
  existsb (String.eqb word) set.

Definition extractKeywords (description : string) : list string :=
  match description with
  | EmptyString => []
  | _ =>
      let text := toLowerCase description in
      let words := split_W text in
      let frequency := count_words [] words in
      map fst
        (firstn 50
           (sort (fun a b => sub (to_number (snd b)) (to_number (snd a)))
              (filter (fun e => negb (has stopWords (fst e)))
                 (entries frequency))))
  end.

(** *** Scoring and ordering *)

Fixpoint scoreRelevance (text : string) (keywords : list string) : Z :=
  match keywords with
  | [] => 0
  | keyword :: rest =>
      ((if includes text keyword then 1 else 0) + scoreRelevance text rest)%Z
  end.

(** A value inside a template literal. *)
Definition interpolate (s : option string) : string :=
  match s with
  | Some t => t
  | None => "undefined"%string
  end.

Definition score_number (e : Experience) : number :=
  match exp_score e with
  | Some s => Num s
  | None => NaN
  end.

(** [a.startDate?.year || 0] *)
Definition start_year (e : Experience) : Z :=
  match exp_startYear e with
  | Some y => y
  | None => 0%Z
  end.

(** The comparator of [prioritizeExperience]. *)
Definition compareExperience (a b : Experience) : number :=
  let scoreDiff := sub (score_number b) (score_number a) in
  match scoreDiff with
  | Num d =>
      if (5 <? Z.abs d)%Z then scoreDiff
      else Num (start_year b - start_year a)
  | NaN => Num (start_year b - start_year a)
  | Infinity _ => scoreDiff
  end.

Definition with_score (jobKeywords : list string) (exp : Experience)
  : Experience :=
  {| exp_title := exp_title exp;
     exp_description := exp_description exp;
     exp_startYear := exp_startYear exp;
     exp_score :=
       Some (scoreRelevance
               (toLowerCase (interpolate (exp_title exp) ++ " "
                             ++ interpolate (exp_description exp)))
               jobKeywords) |}.

(** [jobKeywords] is the field [this.jobKeywords]; an absent [experience]
    is [None]. *)
Definition prioritizeExperience (jobKeywords : list string)
    (experience : option (list Experience))
    (jobDescription : option JobPosting) : list Experience :=
  match experience with
  | None | Some [] => []
  | Some exps =>
      if negb (truthy (description_of jobDescription)) then exps
      else sort compareExperience (map (with_score jobKeywords) exps)
  end.

(** The field [this.jobKeywords] as [tailor] sets it before it calls
    [prioritizeExperience]:
    [this.extractKeywords(jobDescription?.description || '')]. *)
Definition jobKeywords_of (jobDescription : option JobPosting) : list string :=
  extractKeywords
    (match description_of jobDescription with
     | Some d => d
     | None => EmptyString
     end).

Definition skillScore (jobText skill : string) : Z :=
  if includes jobText (toLowerCase skill) then 10%Z else 0%Z.

Definition prioritizeSkills (skills : option (list string))
    (jobDescription : option JobPosting) : list string :=
  match skills with
  | None | Some [] => []
  | Some l =>
      match description_of jobDescription with
      | Some (String c d) =>
          let jobText := toLowerCase (String c d) in
          let scored := map (fun skill => (skill, skillScore jobText skill)) l in
          map fst (sort (descending snd) scored)
      | _ => l
      end
  end.

End ResumeTailor.

(** ** FormFiller *)

Module FormFiller.
Import JS Model.

(** *** The host page *)

Inductive DomEvent : Type :=
| Ev (type : string)            (* new Event(type, { bubbles: true }) *)
| SimulatedInput                (* the input event tagged [simulated] *)
| KeyDown (keyCode : option Z)  (* new KeyboardEvent('keydown', options) *)
| MouseOver.                    (* new MouseEvent('mouseover', ...) *)

(** What the filler does to an element. *)
Inductive DomOp : Type :=
| Focus
| Click
| Assign (v : JSValue)                     (* element.value = v *)
| NativeSet (textarea : bool) (v : JSValue) (* setter.call(element, v) *)
| Dispatch (e : DomEvent).

(** The operations of the page the filler calls.  An operation on an
    element runs the page's own listeners and may raise; the page also
    changes on its own while the script sleeps. *)
Class Dom : Type := {
  Page : Type;
  Elem : Type;
  (** [document.evaluate(xpath, ...).singleNodeValue] *)
  evaluate : Page -> string -> completion (option Elem);
  (** [document.querySelector(selector)] *)
  querySelector : Page -> string -> completion (option Elem);
  perform : DomOp -> Elem -> Page -> completion unit * Page;
  (** the page after the script slept for that many milliseconds *)
  elapse : Z -> Page -> Page;
  (** [element.checked] *)
  checked : Page -> Elem -> option bool;
  (** [element.tagName === 'TEXTAREA'] *)
  isTextArea : Page -> Elem -> bool;
  (** whether the prototype of textareas ([true]) or inputs ([false])
      has a setter for [value] *)
  hasValueSetter : bool -> bool;
  (** [window.VALUE_TRANSFORMS] *)
  valueTransforms : list (string * list (string * JSValue))
}.

(** *** Values *)

(** [!!v] *)
Definition truthy (v : JSValue) : bool :=
  match v with
  | JUndefined | JNull => false
  | JBool b => b
  | JNumber (Num z) => negb (z =? 0)%Z
  | JNumber NaN => false
  | JNumber (Infinity _) => true
  | JString EmptyString => false
  | JString _ => true
  | JObject _ => true
  end.

Definition decimal_of (z : Z) : string :=
  DecimalString.NilZero.string_of_int (Z.to_int z).

(** [String(v)], as a property key. *)
Definition toString (v : JSValue) : string :=
  match v with
  | JUndefined => "undefined"
  | JNull => "null"
  | JBool true => "true"
  | JBool false => "false"
  | JNumber (Num z) => decimal_of z
  | JNumber NaN => "NaN"
  | JNumber (Infinity false) => "Infinity"
  | JNumber (Infinity true) => "-Infinity"
  | JString s => s
  | JObject repr => repr
  end%string.

Fixpoint lookup (A : Type) (l : list (string * A)) (key : string) : option A :=
  match l with
  | [] => None
  | (k, v) :: l' => if String.eqb k key then Some v else lookup l' key
  end.

(** [o[key]] on an object literal with the own properties [o]: an own
    property, else what [Object.prototype] has under that name. *)
Definition get (o : list (string * JSValue)) (key : string) : JSValue :=
  match lookup o key with
  | Some v => v
  | None =>
      if inherited key then JObject (inherited_text key) else JUndefined
  end.

(** The tailored profile: the properties of the object [data]. *)
Definition TailoredData : Type := list (string * JSValue).

Definition getValueForField (fieldName : string) (data : TailoredData)
  : JSValue :=
  let fieldMap :=
    [ ("first_name", get data "firstName");
      ("last_name", get data "lastName");
      ("full_name", get data "fullName");
      ("email", get data "email");
      ("phone", get data "phone");
      ("phone_stripped", get data "phoneStripped");
      ("location", get data "location");
      ("linkedin", get data "linkedin");
      ("github", get data "github");
      ("portfolio", get data "portfolio");
      ("summary", get data "summary");
      ("city", get data "city");
      ("state", get data "state");
      ("country", get data "country");
      ("postal_code", get data "postalCode");
      ("address", get data "address");
      ("authorized_to_work", get data "authorizedToWork");
      ("requires_sponsorship", get data "requiresSponsorship");
      ("gender", get data "gender");
      ("ethnicity", get data "ethnicity");
      ("veteran", get data "veteran");
      ("disability", get data "disability") ]%string in
  get fieldMap fieldName.

(** [actionPath.replace(/%INPUTPATH%/g, inputPath)]: every occurrence of
    the placeholder, with the [$] patterns of a replacement text. *)
Fixpoint substitution (template matched preceding following : string)
  : string :=
  match template with
  | EmptyString => EmptyString
  | String "$"%char (String "$"%char t) =>
      String "$"%char (substitution t matched preceding following)
  | String "$"%char (String "&"%char t) =>
      matched ++ substitution t matched preceding following
  | String "$"%char (String "`"%char t) =>
      preceding ++ substitution t matched preceding following
  | String "$"%char (String "'"%char t) =>
      following ++ substitution t matched preceding following
  | String c t => String c (substitution t matched preceding following)
  end.

Fixpoint drop (n : nat) (s : string) : string :=
  match n, s with
  | S n', String _ s' => drop n' s'
  | _, _ => s
  end.

(** [skip] counts the characters of a replaced occurrence still to pass;
    [preceding] is the part of the text already read. *)
Fixpoint replace_all (needle template : string) (skip : nat)
    (preceding s : string) : string :=
  match s with
  | EmptyString => EmptyString
  | String c s' =>
      let preceding' := (preceding ++ String c EmptyString)%string in
      match skip with
      | S k => replace_all needle template k preceding' s'
      | O =>
          if startsWith s needle then
            (substitution template needle preceding
               (drop (String.length needle) s)
             ++ replace_all needle template (String.length needle - 1)
                  preceding' s')%string
          else String c (replace_all needle template 0 preceding' s')
      end
  end.

(** [String(config.path)] *)
Definition path_text (p : PathSpec) : string :=
  match p with
  | OnePath s => s
  | ManyPaths ps => String.concat "," ps
  end.

Definition path_truthy (p : option PathSpec) : bool :=
  match p with
  | Some (OnePath EmptyString) | None => false
  | Some _ => true
  end.

Definition replacePlaceholder (actionPath : string) (inputPath : PathSpec)
  : string :=
  replace_all "%INPUTPATH%" (path_text inputPath) 0 EmptyString actionPath.

Definition nonzero (n : option Z) : bool :=
  match n with
  | Some z => negb (z =? 0)%Z
  | None => false
  end.

Definition nonempty (s : option string) : bool :=
  match s with
  | Some (String _ _) => true
  | _ => false
  end.

Definition method_is (m : option string) (name : string) : bool :=
  match m with
  | Some s => String.eqb s name
  | None => false
  end.

Section Engine.
Context {D : Dom}.

(** *** The state the filler runs in *)

Inductive Event : Type :=
| Lookup (selector : string)
| Did (op : DomOp) (e : Elem)
| Slept (ms : Z).

(** The page, the clock of [Date.now()] in milliseconds, and what the
    filler did so far, latest first. *)
Record World : Type := {
  page : Page;
  clock : Z;
  trace : list Event
}.

Definition M (A : Type) : Type := World -> completion A * World.

Definition ret (A : Type) (a : A) : M A := fun w => (Normal a, w).

Definition bind (A B : Type) (x : M A) (f : A -> M B) : M B :=
  fun w =>
    match x w with
    | (Normal a, w') => f a w'
    | (Throw e, w') => (Throw e, w')
    end.

(** [try { x } catch (error) { handler }] *)
Definition try_catch (A : Type) (x : M A) (handler : jserror -> M A) : M A :=
  fun w =>
    match x w with
    | (Normal a, w') => (Normal a, w')
    | (Throw e, w') => handler e w'
    end.

Notation "x <- c ;; k" := (bind c (fun x => k))
  (at level 61, c at next level, right associativity).
Notation "c ;;; k" := (bind c (fun _ => k))
  (at level 61, right associativity).

(** [await this.delay(ms)]: a sleep takes the time asked for and code
    between two sleeps takes none. *)
Definition delay (ms : Z) : M unit := fun w =>
  let d := Z.max 0 ms in
  (Normal tt,
   {| page := elapse d (page w);
      clock := clock w + d;
      trace := Slept ms :: trace w |}).

Definition do_op (op : DomOp) (element : Elem) : M unit := fun w =>
  let (r, p) := perform op element (page w) in
  (r, {| page := p; clock := clock w; trace := Did op element :: trace w |}).

(** *** XPathUtils.find and the waits *)

Definition isXPath (selector : string) : bool :=
  startsWith selector ".//" || startsWith selector "//"
  || startsWith selector "(".

(** [XPathUtils.find] on a page: [findFirst] swallows what [evaluate]
    raises, [querySelector] does not. *)
Definition find (p : Page) (selector : string) : completion (option Elem) :=
  if isXPath selector then
    match evaluate p selector with
    | Normal r => Normal r
    | Throw _ => Normal None
    end
  else querySelector p selector.

Definition findElement (selector : string) : M (option Elem) := fun w =>
  (find (page w) selector,
   {| page := page w; clock := clock w;
      trace := Lookup selector :: trace w |}).

(** The first of [paths] that finds an element. *)
Fixpoint findFirstOf (paths : list string) : M (option Elem) :=
  match paths with
  | [] => ret None
  | path :: rest =>
      element <- findElement path ;;
      match element with
      | Some e => ret (Some e)
      | None => findFirstOf rest
      end
  end.

(** The loop of [waitForElement]; [fuel] bounds the rounds and is never
    what ends it (lemma [waitLoop_fuel]). *)
Fixpoint waitLoop (fuel : nat) (paths : list string) (start timeout : Z)
  : M (option Elem) := fun w =>
  if (clock w - start <? timeout)%Z then
    match fuel with
    | O => (Normal None, w)
    | S fuel' =>
        (element <- findFirstOf paths ;;
         match element with
         | Some e => ret (Some e)
         | None => delay 100 ;;; waitLoop fuel' paths start timeout
         end) w
    end
  else (Normal None, w).

Definition waitForElement (selector : string) (timeout : Z)
  : M (option Elem) := fun w =>
  waitLoop (Z.to_nat timeout) [selector] (clock w) timeout w.

(** *** Fill strategies *)

Definition fillDefault (element : Elem) (value : JSValue)
    (triggerBlur : bool) : M bool :=
  do_op Focus element ;;;
  do_op (Assign (JString EmptyString)) element ;;;
  do_op (Assign value) element ;;;
  do_op (Dispatch (Ev "input")) element ;;;
  do_op (Dispatch (Ev "change")) element ;;;
  (if triggerBlur then do_op (Dispatch (Ev "blur")) element else ret tt) ;;;
  ret true.

Definition fillReact (element : Elem) (value : JSValue) : M bool := fun w =>
  let textarea := isTextArea (page w) element in
  ((if hasValueSetter textarea
    then do_op (NativeSet textarea value) element
    else do_op (Assign value) element) ;;;
   do_op (Dispatch SimulatedInput) element ;;;
   do_op (Dispatch (Ev "change")) element ;;;
   ret true) w.

Definition fillClick (element : Elem) : M bool :=
  do_op Click element ;;; ret true.

Definition shouldCheck (value : JSValue) : bool :=
  match value with
  | JBool true => true
  | JString s => String.eqb s "true" || String.eqb s "1" || String.eqb s "yes"
  | _ => false
  end.

Definition fillCheckboxRadio (element : Elem) (value : JSValue) : M bool :=
  fun w =>
    match checked (page w) element with
    | Some b =>
        if Bool.eqb b (shouldCheck value) then (Normal true, w)
        else (do_op Click element ;;; ret true) w
    | None => (do_op Click element ;;; ret true) w
    end.

Definition fillElement (element : Elem) (value : JSValue) (method : string)
  : M bool :=
  if String.eqb method "react" then fillReact element value
  else if String.eqb method "default" then fillDefault element value true
  else if String.eqb method "defaultWithoutBlur"
       then fillDefault element value false
  else if String.eqb method "click" then fillClick element
  else if String.eqb method "selectCheckboxOrRadio"
       then fillCheckboxRadio element value
  else fillDefault element value true.

(** *** Value transforms *)

(** [table[value] || value] *)
Definition or_value (found value : JSValue) : JSValue :=
  if truthy found then found else value.

Definition applyNamedTransform (value : JSValue) (transformName : string)
  : JSValue :=
  match lookup valueTransforms transformName with
  | Some table => or_value (get table (toString value)) value
  | None => value
  end.

Definition transformValue (value : JSValue) (valueMap : ValuesSpec)
  : JSValue :=
  match valueMap with
  | NamedValues table => applyNamedTransform value table
  | ValueTable entries => or_value (get entries (toString value)) value
  end.

(** *** Action sequences *)

Definition executeAction (element : Elem) (action : Action)
    (value : JSValue) : M unit :=
  (if method_is (a_method action) "click" then do_op Click element
   else if method_is (a_method action) "default"
        then fillDefault element value true ;;; ret tt
   else if method_is (a_method action) "defaultWithoutBlur"
        then fillDefault element value false ;;; ret tt
   else if method_is (a_method action) "clearValue"
        then do_op (Assign (JString EmptyString)) element ;;;
             do_op (Dispatch (Ev "input")) element
   else if method_is (a_method action) "blur"
        then do_op (Dispatch (Ev "blur")) element
   else if method_is (a_method action) "focus" then do_op Focus element
   else ret tt) ;;;
  (if method_is (a_event action) "keydown"
   then do_op (Dispatch (KeyDown (a_keyCode action))) element
   else ret tt) ;;;
  (if method_is (a_event action) "mouseover"
   then do_op (Dispatch MouseOver) element
   else ret tt).

(** The locator a step waits for: [action.path] after the placeholder
    is replaced. *)
Definition actionPath (inputPath : option PathSpec) (action : Action)
  : option string :=
  match a_path action, inputPath with
  | Some path, Some ip =>
      if negb (String.eqb path EmptyString) && path_truthy inputPath
      then Some (replacePlaceholder path ip)
      else Some path
  | other, _ => other
  end.

(** [if (action.delay) await this.delay(action.delay)] *)
Definition stepDelay (action : Action) : M unit :=
  if nonzero (a_delay action)
  then delay (match a_delay action with Some ms => ms | None => 0%Z end)
  else ret tt.

(** The loop of [executeActions] from a step on, with the element the
    steps so far have made current. *)
Fixpoint executeActions_from (currentElement : Elem)
    (inputPath : option PathSpec) (actions : list Action)
    (value : JSValue) : M bool :=
  match actions with
  | [] => ret true
  | action :: rest =>
      if method_is (a_method action) "uploadResume"
      then executeActions_from currentElement inputPath rest value
      else
        executeAction currentElement action value ;;;
        stepDelay action ;;;
        match a_time action, actionPath inputPath action with
        | Some time, Some path =>
            if negb (time =? 0)%Z && negb (String.eqb path EmptyString) then
              newElement <- waitForElement path time ;;
              match newElement with
              | Some e => executeActions_from e inputPath rest value
              | None =>
                  if negb (a_allowFailure action) then ret false
                  else executeActions_from currentElement inputPath rest value
              end
            else executeActions_from currentElement inputPath rest value
        | _, _ => executeActions_from currentElement inputPath rest value
        end
  end.

Definition executeActions (startElement : Elem) (config : ComplexSelector)
    (actions : list Action) (value : JSValue) : M bool :=
  executeActions_from startElement (c_path config) actions value.

(** *** Selector configurations *)

Definition fillSimpleSelector (selector : string) (value : JSValue)
    (method : option string) : M bool :=
  element <- findElement selector ;;
  match element with
  | None => ret false
  | Some e =>
      fillElement e value
        (match method with Some m => m | None => "default"%string end)
  end.

Definition or_method (a b : option string) : option string :=
  if nonempty a then a else b.

(** The loop over [paths] of [fillComplexSelector]; a configuration
    without [path] makes [findElement] raise. *)
Definition findByPaths (path : option PathSpec) : M (option Elem) :=
  match path with
  | Some (ManyPaths paths) => findFirstOf paths
  | Some (OnePath p) => findFirstOf [p]
  | None => fun w => (Throw TypeError, w)
  end.

(** The value after [config.values], which is applied when it is an
    object. *)
Definition transformed (config : ComplexSelector) (value : JSValue)
  : JSValue :=
  match c_values config with
  | Some (ValueTable entries) => transformValue value (ValueTable entries)
  | _ => value
  end.

Definition fillComplexSelector (config : ComplexSelector) (value : JSValue)
    (atsConfig : ATSConfig) : M bool :=
  element <- findByPaths (c_path config) ;;
  match element with
  | None => ret false
  | Some e =>
      let value' := transformed config value in
      match c_actions config with
      | Some actions => executeActions e config actions value'
      | None =>
          fillElement e value'
            (match or_method (c_method config) (defaultMethod atsConfig) with
             | Some (String c m) => String c m
             | _ => "default"%string
             end)
      end
  end.

Definition tryFillWithSelector (fieldName : string)
    (selectorConfig : SelectorConfig) (value : JSValue)
    (atsConfig : ATSConfig) : M bool :=
  match selectorConfig with
  | Simple selector =>
      fillSimpleSelector selector value (defaultMethod atsConfig)
  | Complex config => fillComplexSelector config value atsConfig
  | NullConfig => fun w => (Throw TypeError, w)
  | OtherConfig => ret false
  end.

(** *** fillField and fill *)

Fixpoint fillField_loop (fieldName : string)
    (configList : list SelectorConfig) (value : JSValue)
    (atsConfig : ATSConfig) : M bool :=
  match configList with
  | [] => ret false
  | selectorConfig :: rest =>
      filled <- try_catch
                  (tryFillWithSelector fieldName selectorConfig value atsConfig)
                  (fun _ => ret false) ;;
      if filled then ret true
      else fillField_loop fieldName rest value atsConfig
  end.

Definition fillField (fieldName : string) (selectorConfigs : SelectorConfigs)
    (data : TailoredData) (atsConfig : ATSConfig) : M bool :=
  if String.eqb fieldName "resume" then ret false
  else
    let value := getValueForField fieldName data in
    if negb (truthy value)
       && negb (match value with JNumber (Num 0) => true | _ => false end)
       && negb (match value with JBool false => true | _ => false end)
    then ret false
    else
      let configList :=
        match selectorConfigs with
        | ConfigArray l => l
        | ConfigSingle c => [c]
        end in
      fillField_loop fieldName configList value atsConfig.

Record FormFillResult : Type := {
  filledCount : nat;
  skipCount : nat
}.

Definition fillDelay : Z := 100.

Fixpoint fill_loop (selectors : list (string * SelectorConfigs))
    (data : TailoredData) (config : ATSConfig)
    (filled skipped : nat) : M FormFillResult :=
  match selectors with
  | [] => ret {| filledCount := filled; skipCount := skipped |}
  | (fieldName, selectorConfigs) :: rest =>
      ok <- fillField fieldName selectorConfigs data config ;;
      delay fillDelay ;;;
      if ok then fill_loop rest data config (S filled) skipped
      else fill_loop rest data config filled (S skipped)
  end.

(** [fill(ats, tailoredData)] with [config = ats.config]. *)
Definition fill (config : ATSConfig) (tailoredData : TailoredData)
  : M FormFillResult :=
  fill_loop (inputSelectors config) tailoredData config 0 0.

End Engine.
End FormFiller.

(** ** ResumeTailor: the data handed to the form filler *)

Module Profile.
Import JS Model FormFiller.
Local Open Scope string_scope.

(** An object read from the extension's storage: its own properties. *)
Definition Stored : Type := list (string * JSValue).

(** [o?.key] *)
Definition field (o : option Stored) (key : string) : JSValue :=
  match o with
  | Some properties => get properties key
  | None => JUndefined
  end.

(** [a || b] *)
Definition either (a b : JSValue) : JSValue := if truthy a then a else b.

(** The expression [/\D/], as [RegExp.compile] reads its source. *)
Definition nonDigit : RegExp.regex :=
  RegExp.Cat (RegExp.Cls true RegExp.Digit) RegExp.Eps.

(** [stripPhone(phone)]: a value that is not a string has no [replace]. *)
Definition stripPhone (phone : JSValue) : completion string :=
  if negb (truthy phone) then Normal EmptyString
  else match phone with
       | JString p => Normal (RegExp.replace false nonDigit EmptyString p)
       | _ => Throw TypeError
       end.

Definition is_upper (c : ascii) : bool := between 65 90 (code c).

(** [statePart.match(/^([A-Z]{2})(?:\s+(\d{5}))?$/)]: the two groups of a
    match.  The expression is anchored at both ends: two capital letters,
    and then either nothing or white space followed by five digits. *)
Definition stateMatch (statePart : string) : option (string * option string) :=
  match statePart with
  | String a (String b rest) =>
      if is_upper a && is_upper b then
        match rest with
        | EmptyString => Some (String a (String b EmptyString), None)
        | _ =>
            let zip := JobExtractor.trimStart rest in
            if (String.length zip <? String.length rest)%nat
               && (String.length zip =? 5)%nat
               && ResumeTailor.all_digits zip
            then Some (String a (String b EmptyString), Some zip)
            else None
        end
      else None
  | _ => None
  end.

Record Location : Type := {
  city : string;
  state : string;
  country : string;
  postalCode : string;
  address : string
}.

(** [parseLocation(location)]: a value that is not a string has no
    [split]. *)
Definition parseLocation (location : JSValue) : completion Location :=
  if negb (truthy location)
  then Normal {| city := EmptyString; state := EmptyString;
                 country := EmptyString; postalCode := EmptyString;
                 address := EmptyString |}
  else
    match location with
    | JString text =>
        let parts := map JobExtractor.trim (JobExtractor.split "," text) in
        let found :=
          match parts with
          | _ :: second :: _ =>
              let statePart := JobExtractor.trim second in
              match stateMatch statePart with
              | Some (code, Some zip) => (code, zip)
              | Some (code, None) => (code, EmptyString)
              | None => (statePart, EmptyString)
              end
          | _ => (EmptyString, EmptyString)
          end in
        Normal {| city := match parts with
                          | first :: _ => first
                          | [] => EmptyString
                          end;
                  state := fst found;
                  country := match parts with
                             | _ :: _ :: third :: _ => third
                             | _ => EmptyString
                             end;
                  postalCode := snd found;
                  address := text |}
    | _ => Throw TypeError
    end.

(** The properties [parseLocation] contributes to the data object. *)
Definition spread (l : Location) : TailoredData :=
  [ ("city", JString (city l));
    ("state", JString (state l));
    ("country", JString (country l));
    ("postalCode", JString (postalCode l));
    ("address", JString (address l)) ].

(** [profile?.firstName && profile?.lastName
      ? `${profile.firstName} ${profile.lastName}` : otherwise] *)
Definition fullNameOf (profile : option Stored) (otherwise : JSValue)
  : JSValue :=
  if truthy (field profile "firstName") && truthy (field profile "lastName")
  then JString (toString (field profile "firstName") ++ " "
                ++ toString (field profile "lastName"))
  else otherwise.

(** An empty array: it converts to the empty text. *)
Definition emptyArray : JSValue := JObject EmptyString.

Definition getDefaultProfile (profile : option Stored)
  : completion TailoredData :=
  let own key := either (field profile key) (JString EmptyString) in
  match stripPhone (own "phone"), parseLocation (own "location") with
  | Normal phoneStripped, Normal location =>
      Normal
        ([ ("firstName", own "firstName");
           ("lastName", own "lastName");
           ("fullName", fullNameOf profile (JString EmptyString));
           ("email", own "email");
           ("phone", own "phone");
           ("phoneStripped", JString phoneStripped);
           ("location", own "location");
           ("linkedin", own "linkedin");
           ("github", own "github");
           ("portfolio", own "portfolio") ]
         ++ spread location
         ++ [ ("summary", JString EmptyString);
              ("experience", emptyArray);
              ("education", emptyArray);
              ("skills", emptyArray) ])%list
  | Throw e, _ => Throw e
  | _, Throw e => Throw e
  end.

(** The stored resume, as far as [tailor] reads it. *)
Record Resume : Type := {
  contact : option Stored;
  summary : JSValue;
  experience : option (list ResumeTailor.Experience);
  education : JSValue;
  skills : option (list string)
}.

Definition tailorSummary (summary : JSValue)
    (jobDescription : option ResumeTailor.JobPosting) : JSValue :=
  if negb (truthy summary) then JString EmptyString else summary.

(** The text an array of objects and an array of strings convert to. *)
Definition objectsText (A : Type) (l : list A) : string :=
  String.concat "," (map (fun _ => "[object Object]") l).

Definition stringsText (l : list string) : string := String.concat "," l.

Definition tailor (resume : option Resume) (profile : option Stored)
    (jobDescription : option ResumeTailor.JobPosting)
  : completion TailoredData :=
  match resume with
  | None => getDefaultProfile profile
  | Some r =>
      match contact r with
      | None => getDefaultProfile profile
      | Some c =>
          let pick key :=
            either (either (field profile key) (get c key))
              (JString EmptyString) in
          match stripPhone (pick "phone"), parseLocation (pick "location") with
          | Normal phoneStripped, Normal location =>
              Normal
                ([ ("firstName", pick "firstName");
                   ("lastName", pick "lastName");
                   ("fullName",
                    fullNameOf profile
                      (either (get c "fullName") (JString EmptyString)));
                   ("email", pick "email");
                   ("phone", pick "phone");
                   ("phoneStripped", JString phoneStripped);
                   ("location", pick "location");
                   ("linkedin", pick "linkedin");
                   ("github", pick "github");
                   ("portfolio", pick "portfolio") ]
                 ++ spread location
                 ++ [ ("summary", tailorSummary (summary r) jobDescription);
                      ("experience",
                       JObject
                         (objectsText
                            (ResumeTailor.prioritizeExperience
                               (ResumeTailor.jobKeywords_of jobDescription)
                               (experience r) jobDescription)));
                      ("education", either (education r) emptyArray);
                      ("skills",
                       JObject
                         (stringsText
                            (ResumeTailor.prioritizeSkills (skills r)
                               jobDescription)));
                      ("authorizedToWork", field profile "authorizedToWork");
                      ("requiresSponsorship",
                       field profile "requiresSponsorship");
                      ("gender", field profile "gender");
                      ("ethnicity", field profile "ethnicity");
                      ("veteran", field profile "veteran");
                      ("disability", field profile "disability") ])%list
          | Throw e, _ => Throw e
          | _, Throw e => Throw e
          end
      end
  end.

End Profile.

(** * What the specification states

    The notions the claims are worded in, next to the code they are
    compared with. *)

Module TailorSpec.
Import JS ResumeTailor.

(** [needle] occurs in [hay] when case is ignored: a part of [hay] reads
    as [needle] once both are put in lower case. *)
Definition occurs_ignoring_case (needle hay : string) : Prop :=
  exists pre mid post,
    hay = (pre ++ mid ++ post)%string
    /\ toLowerCase mid = toLowerCase needle.

(** Every key of a frequency object is longer than three characters. *)
Definition long_keys (o : object) : Prop :=
  Forall (fun e => 3 < String.length (fst e)) o.

(** The skills handed in: an absent list counts as empty. *)
Definition given (skills : option (list string)) : list string :=
  match skills with
  | Some l => l
  | None => []
  end.

(** The score the specification gives a skill: 10 when it occurs in the
    posting's description with case ignored, 0 otherwise (a posting without
    a description has nothing a skill could occur in). *)
Definition claimedSkillScore (jobDescription : option ResumeTailor.JobPosting)
    (skill : string) : Z :=
  match ResumeTailor.description_of jobDescription with
  | Some d =>
      if includes (toLowerCase d) (toLowerCase skill) then 10%Z else 0%Z
  | None => 0%Z
  end.

(** The claim about [prioritizeSkills] as the specification words it, for
    one list of skills and one posting. *)
Definition skillsClaim (skills : list string)
    (jobDescription : option ResumeTailor.JobPosting) : Prop :=
  let out := ResumeTailor.prioritizeSkills (Some skills) jobDescription in
  let score := claimedSkillScore jobDescription in
  Permutation skills out
  /\ length out = length skills
  /\ StronglySorted (fun a b => (score b <= score a)%Z) out
  /\ forall v : Z,
       filter (fun s => (score s =? v)%Z) out
       = filter (fun s => (score s =? v)%Z) skills.

(** The order the specification asks of two entries, the first standing in
    front of the second: with scores more than 5 apart the first has the
    higher score, and otherwise the first does not start earlier. *)
Definition in_order (a b : Experience) : Prop :=
  forall sa sb : Z,
    exp_score a = Some sa -> exp_score b = Some sb ->
    ((5 < Z.abs (sa - sb))%Z -> (sb < sa)%Z)
    /\ ((Z.abs (sa - sb) <= 5)%Z -> (start_year b <= start_year a)%Z).

(** The claim about the list [prioritizeExperience] returns: every entry
    and every entry behind it are in that order. *)
Definition experienceClaim (out : list Experience) : Prop :=
  forall (l1 l2 l3 : list Experience) (a b : Experience),
    out = l1 ++ a :: l2 ++ b :: l3 -> in_order a b.

(** The same, decided. *)
Definition in_orderb (a b : Experience) : bool :=
  match exp_score a, exp_score b with
  | Some sa, Some sb =>
      if (5 <? Z.abs (sa - sb))%Z then (sb <? sa)%Z
      else (start_year b <=? start_year a)%Z
  | _, _ => true
  end.

Fixpoint all_in_order (l : list Experience) : bool :=
  match l with
  | [] => true
  | a :: l' => forallb (in_orderb a) l' && all_in_order l'
  end.

(** The order asked for is consistent among the entries: whenever it lets
    [a] stand in front of [b] and [b] in front of [c], it lets [a] stand in
    front of [c]. *)
Definition consistent (entries : list Experience) : Prop :=
  forall a b c : Experience,
    In a entries -> In b entries -> In c entries ->
    in_orderb a b = true -> in_orderb b c = true -> in_orderb a c = true.

End TailorSpec.

Module DetectorSpec.
Import JS Model ATSDetector.

(** A pattern whose translation the engine accepts. *)
Definition compiles (pattern : string) : Prop :=
  exists regex, RegExp.compile (regexPattern pattern) = inl regex.

(** The inclusion and the exclusion patterns of a platform. *)
Definition patterns_of (config : ATSConfig) : list string :=
  (match urls config with Some ps => ps | None => [] end)
  ++ (match urlsExcluded config with Some ps => ps | None => [] end).

(** A registry all of whose patterns the engine accepts. *)
Definition well_formed (registry : Registry) : Prop :=
  forall entry, In entry registry ->
    Forall compiles (patterns_of (snd entry)).

(** The detector's own pattern match as a truth value: the translation of
    the code followed by [RegExp.test]. *)
Definition matches (url pattern : string) : bool :=
  match RegExp.compile (regexPattern pattern) with
  | inl regex => RegExp.test true regex url
  | inr _ => false
  end.

(** The URL matches an inclusion pattern of the platform. *)
Definition included (url : string) (config : ATSConfig) : bool :=
  match urls config with
  | Some ps => existsb (matches url) ps
  | None => false
  end.

(** The URL matches an exclusion pattern of the platform. *)
Definition excluded (url : string) (config : ATSConfig) : bool :=
  match urlsExcluded config with
  | Some ps => existsb (matches url) ps
  | None => false
  end.

(** Inclusion without exclusion. *)
Definition eligible (url : string) (config : ATSConfig) : bool :=
  included url config && negb (excluded url config).

(** What the specification means by a pattern: [*] stands for any run of
    characters, [?] for exactly one, and any other character for itself,
    case ignored; the pattern describes the whole URL. *)
Fixpoint globMatches (pattern : string) : string -> bool :=
  match pattern with
  | EmptyString =>
      fun url => match url with EmptyString => true | _ => false end
  | String "*"%char rest =>
      fix any_run (url : string) : bool :=
        globMatches rest url
        || match url with
           | EmptyString => false
           | String _ url' => any_run url'
           end
  | String "?"%char rest =>
      fun url =>
        match url with
        | EmptyString => false
        | String _ url' => globMatches rest url'
        end
  | String c rest =>
      fun url =>
        match url with
        | EmptyString => false
        | String d url' =>
            Ascii.eqb (lower_char c) (lower_char d) && globMatches rest url'
        end
  end.

(** The platform a detector returns that matches patterns by [reading]:
    the first, in registry order, with an inclusion pattern that matches
    the URL and no exclusion pattern that does. *)
Section Selection.
Variable reading : string -> string -> bool.

Definition includedBy (url : string) (config : ATSConfig) : bool :=
  match urls config with
  | Some ps => existsb (fun pattern => reading pattern url) ps
  | None => false
  end.

Definition excludedBy (url : string) (config : ATSConfig) : bool :=
  match urlsExcluded config with
  | Some ps => existsb (fun pattern => reading pattern url) ps
  | None => false
  end.

Fixpoint firstEligible (configs : Registry) (url : string)
  : option (string * ATSConfig) :=
  match configs with
  | [] => None
  | (platform, config) :: rest =>
      if includedBy url config && negb (excludedBy url config)
      then Some (platform, config)
      else firstEligible rest url
  end.
End Selection.

(** What the specification says [detect] returns, patterns read as the
    specification reads them. *)
Definition claimedDetect : Registry -> string -> option (string * ATSConfig) :=
  firstEligible globMatches.

(** What the chain of [replace] calls makes of one character of a
    pattern, and of a whole pattern. *)
Definition translate_char (c : ascii) : string :=
  (if Ascii.eqb c "*" then "\.*"
   else if Ascii.eqb c "?" then "\."
   else if Ascii.eqb c "/" then "\/"
   else if Ascii.eqb c "." then "\."
   else String c EmptyString)%string.

Fixpoint translate (pattern : string) : string :=
  match pattern with
  | EmptyString => EmptyString
  | String c rest => (translate_char c ++ translate rest)%string
  end.

(** The characters that mean something to the engine and that the chain
    of [replace] calls leaves as they are. *)
Definition special (c : ascii) : bool :=
  existsb (Ascii.eqb c) ["\"; "^"; "$"; "+"; "("; ")"; "["; "{"; "|"]%char.

(** The characters the chain of [replace] calls rewrites. *)
Definition wildcard (c : ascii) : bool :=
  existsb (Ascii.eqb c) ["*"; "?"; "/"; "."]%char.

(** A pattern with none of the special characters. *)
Fixpoint plain (pattern : string) : bool :=
  match pattern with
  | EmptyString => true
  | String c rest => negb (special c) && plain rest
  end.

(** What is left of a source does not start with a quantifier. *)
Definition unquantified (s : string) : bool :=
  match s with
  | EmptyString => true
  | String c _ => negb (existsb (Ascii.eqb c) ["*"; "+"; "?"]%char)
  end.

(** A registry all of whose patterns are plain. *)
Definition plainRegistry (registry : Registry) : Prop :=
  forall entry, In entry registry ->
    Forall (fun pattern => plain pattern = true) (patterns_of (snd entry)).

End DetectorSpec.

Module FillerSpec.
Import JS Model FormFiller.

Section WithDom.
Context {D : Dom}.

(** The locators a selector configuration can resolve. *)
Definition locators (selectorConfig : SelectorConfig) : list string :=
  match selectorConfig with
  | Simple selector => [selector]
  | Complex config =>
      match c_path config with
      | Some (OnePath path) => [path]
      | Some (ManyPaths paths) => paths
      | None => []
      end
  | NullConfig | OtherConfig => []
  end.

Definition locators_of (selectorConfigs : SelectorConfigs) : list string :=
  match selectorConfigs with
  | ConfigArray l => flat_map locators l
  | ConfigSingle c => locators c
  end.

(** The locator resolves to no element of the page. *)
Definition unresolved (p : Page) (selector : string) : Prop :=
  forall e : Elem, find p selector <> Normal (Some e).

(** From [w] to [w'] the filler only looked locators up: the page and the
    clock are the same and the trace grew by lookups alone. *)
Definition only_lookups (w w' : World) : Prop :=
  page w' = page w /\ clock w' = clock w
  /\ exists selectors : list string,
       trace w' = map Lookup selectors ++ trace w.

(** The page after that many rounds of a wait, 100 ms each. *)
Fixpoint page_after (rounds : nat) (p : Page) : Page :=
  match rounds with
  | O => p
  | S n => page_after n (elapse 100 p)
  end.

(** The awaited element is not there at any round of a wait of [timeout]
    milliseconds that starts on page [p]. *)
Definition never_appears (p : Page) (path : string) (timeout : Z) : Prop :=
  forall k : nat, (100 * Z.of_nat k < timeout)%Z ->
    find (page_after k p) path = Normal None.

(** How many entries of a selector table are the resume's. *)
Definition resume_entries (selectors : list (string * SelectorConfigs)) : nat :=
  length (filter (fun entry => String.eqb (fst entry) "resume") selectors).

(** The state after the pause that follows a field. *)
Definition after_pause (w : World) : World := snd (delay fillDelay w).

End WithDom.
End FillerSpec.

(** * What the code does besides

    The notions the further properties of the code are worded in. *)

Module PatternMeaning.
Import JS RegExp.

(** The loop of a quantifier as [matcher] runs it, by the fuel that is
    left (lemma [matcher_Rep]). *)
Section Repetition.
Variable icase : bool.
Variable total : nat.
Variable r1 : regex.
Variable greedy : bool.
Variable k : cont.

Fixpoint repetition (fuel mn : nat) (mx : option nat) (s : string)
    (c : captures) {struct fuel} : option result :=
  match fuel with
  | O => None
  | S fuel' =>
      match mx with
      | Some O => k s c
      | _ =>
          let d : cont := fun s' c' =>
            if (mn =? 0) && (String.length s' =? String.length s) then None
            else repetition fuel' (Nat.pred mn) (pred_max mx) s' c' in
          let c0 := reset (groups r1) c in
          if mn =? 0 then
            if greedy then
              match matcher icase total r1 d s c0 with
              | Some x => Some x
              | None => k s c
              end
            else
              match k s c with
              | Some x => Some x
              | None => matcher icase total r1 d s c0
              end
          else matcher icase total r1 d s c0
      end
  end.
End Repetition.

Definition succeeds (A : Type) (o : option A) : bool :=
  match o with
  | Some _ => true
  | None => false
  end.

(** A character of a class, or of its complement. *)
Definition in_class (neg : bool) (cs : charset) (b : ascii) : bool :=
  xorb neg (in_charset cs b).

(** The expression a pattern without special characters is read as, once
    the chain of [replace] calls went over it: a run of dots for [*], one
    dot for [?], the character itself otherwise. *)
Definition atomOf (c : ascii) : regex :=
  if Ascii.eqb c "*" then Rep 0 None true (Lit ".")
  else if Ascii.eqb c "?" then Lit "."
  else Lit c.

Fixpoint regexOf (pattern : string) : regex :=
  match pattern with
  | EmptyString => Eps
  | String c rest => Cat (atomOf c) (regexOf rest)
  end.

Definition is_dot (c : ascii) : bool := Ascii.eqb c ".".

(** A run of dots, or none, and then what [rest] accepts. *)
Fixpoint dots (rest : string -> bool) (s : string) : bool :=
  rest s
  || match s with
     | String b s' => is_dot b && dots rest s'
     | EmptyString => false
     end.

(** A start of [s] reads as the pattern: a run of dots for [*], one dot
    for [?], and any other character for itself, case ignored. *)
Fixpoint reads (pattern : string) : string -> bool :=
  match pattern with
  | EmptyString => fun _ => true
  | String c rest =>
      if Ascii.eqb c "*" then dots (reads rest)
      else fun s =>
        match s with
        | String b s' =>
            (if Ascii.eqb c "?" then is_dot b else same_char true c b)
            && reads rest s'
        | EmptyString => false
        end
  end.

(** Some part of the URL reads as the pattern. *)
Fixpoint occurs (pattern : string) (url : string) : bool :=
  reads pattern url
  || match url with
     | String _ url' => occurs pattern url'
     | EmptyString => false
     end.

End PatternMeaning.

Module YearsSpec.
Import JS RegExp.

(** The group [(\d+)] numbered 1, as [compile] reads it. *)
Definition isYearsGroup (r : regex) : bool :=
  match r with
  | Grp 1 (Cat (Rep 1 None true (Cls false Digit)) Eps) => true
  | _ => false
  end.

(** No group of [r] is numbered 1. *)
Definition freeOfGroup1 (r : regex) : bool :=
  negb (existsb (Nat.eqb 1) (groups r)).

(** [r] is a sequence in which the group [(\d+)] numbered 1 is followed
    by parts without a group of that number. *)
Fixpoint capturesYears (r : regex) : bool :=
  match r with
  | Cat r1 r2 => (isYearsGroup r1 && freeOfGroup1 r2) || capturesYears r2
  | _ => false
  end.

(** The first capture is a numeral. *)
Definition numeral (c : captures) : Prop :=
  exists digits : string,
    capture 1 c = Some digits
    /\ digits <> EmptyString
    /\ ResumeTailor.all_digits digits = true.

(** Entering a group of [r] and resetting the groups of a part of [r]
    keep the property [I] of the captures. *)
Definition harmless (I : captures -> Prop) (r : regex) : Prop :=
  (forall n t c, In n (groups r) -> I c -> I ((n, t) :: c))
  /\ (forall gs c, incl gs (groups r) -> I c -> I (reset gs c)).

End YearsSpec.

Module TextSpec.
Import JS.

(** The characters of [s] that satisfy [p], in their order. *)
Fixpoint keep (p : ascii -> bool) (s : string) : string :=
  match s with
  | EmptyString => EmptyString
  | String c s' => if p c then String c (keep p s') else keep p s'
  end.

(** [s] without the characters at its start that satisfy [p]. *)
Fixpoint drop_while (p : ascii -> bool) (s : string) : string :=
  match s with
  | String c s' => if p c then drop_while p s' else s
  | EmptyString => s
  end.

(** Every run of white space of [s] made one space; [in_run] holds while
    a run is being read. *)
Fixpoint collapse (in_run : bool) (s : string) : string :=
  match s with
  | EmptyString => EmptyString
  | String c s' =>
      if is_space c
      then if in_run then collapse true s' else String " " (collapse true s')
      else String c (collapse false s')
  end.

(** Every white-space character of [s] is a space and no two of them are
    adjacent; [after_space] tells that a space stands in front of [s]. *)
Fixpoint single_spaced (after_space : bool) (s : string) : bool :=
  match s with
  | EmptyString => true
  | String c s' =>
      if is_space c
      then Ascii.eqb c " " && negb after_space && single_spaced true s'
      else single_spaced false s'
  end.

Definition starts_with_space (s : string) : bool :=
  match s with
  | String c _ => is_space c
  | EmptyString => false
  end.

Fixpoint ends_with_space (s : string) : bool :=
  match s with
  | EmptyString => false
  | String c EmptyString => is_space c
  | String _ s' => ends_with_space s'
  end.

(** [c] is one of the characters of [s]. *)
Fixpoint has_char (c : ascii) (s : string) : bool :=
  match s with
  | EmptyString => false
  | String d s' => Ascii.eqb d c || has_char c s'
  end.

(** No text occurs twice in the list. *)
Fixpoint distinct (l : list string) : bool :=
  match l with
  | [] => true
  | x :: l' => negb (existsb (String.eqb x) l') && distinct l'
  end.

End TextSpec.

Module ProfileSpec.
Import JS Model TextSpec.

(** A component as [parseLocation] returns it: without a comma and without
    white space at either end. *)
Definition tidy (part : string) : bool :=
  negb (has_char "," part)
  && negb (starts_with_space part) && negb (ends_with_space part).

(** Two capital letters. *)
Definition stateCode (s : string) : bool :=
  match s with
  | String a (String b EmptyString) => Profile.is_upper a && Profile.is_upper b
  | _ => false
  end.

(** The properties of the contact section that [tailor] takes from the
    profile when the profile has them. *)
Definition contactKeys : list string :=
  [ "firstName"; "lastName"; "email"; "phone"; "location"; "linkedin";
    "github"; "portfolio" ]%string.

(** The fields of a form that hold the work authorisation and the
    answers to the equal-opportunity questions. *)
Definition screeningFields : list string :=
  [ "authorized_to_work"; "requires_sponsorship"; "gender"; "ethnicity";
    "veteran"; "disability" ]%string.

End ProfileSpec.

Module FieldSpec.
Import JS Model FormFiller.

(** The names [getValueForField] knows. *)
Definition fieldNames : list string :=
  [ "first_name"; "last_name"; "full_name"; "email"; "phone";
    "phone_stripped"; "location"; "linkedin"; "github"; "portfolio";
    "summary"; "city"; "state"; "country"; "postal_code"; "address";
    "authorized_to_work"; "requires_sponsorship"; "gender"; "ethnicity";
    "veteran"; "disability" ]%string.

(** A value [fillField] takes for no value: falsy, and neither [0] nor
    [false]. *)
Definition blank (v : JSValue) : bool :=
  match v with
  | JUndefined | JNull | JNumber NaN | JString EmptyString => true
  | _ => false
  end.

(** A selector configuration without its [values] when they name a
    table. *)
Definition withoutTableName (selectorConfig : SelectorConfig)
  : SelectorConfig :=
  match selectorConfig with
  | Complex config =>
      match c_values config with
      | Some (NamedValues _) =>
          Complex {| c_path := c_path config;
                     c_method := c_method config;
                     c_values := None;
                     c_actions := c_actions config |}
      | _ => selectorConfig
      end
  | _ => selectorConfig
  end.

Definition withoutTableNames (selectorConfigs : SelectorConfigs)
  : SelectorConfigs :=
  match selectorConfigs with
  | ConfigArray l => ConfigArray (map withoutTableName l)
  | ConfigSingle c => ConfigSingle (withoutTableName c)
  end.

Definition platformWithoutTableNames (config : ATSConfig) : ATSConfig :=
  {| name := name config;
     urls := urls config;
     urlsExcluded := urlsExcluded config;
     defaultMethod := defaultMethod config;
     inputSelectors :=
       map (fun entry => (fst entry, withoutTableNames (snd entry)))
         (inputSelectors config) |}.

(** A step that waits for an element and does not allow the wait to
    fail. *)
Definition requiredWait (inputPath : option PathSpec) (action : Action)
  : bool :=
  negb (method_is (a_method action) "uploadResume")
  && negb (a_allowFailure action)
  && nonzero (a_time action)
  && nonempty (actionPath inputPath action).

End FieldSpec.

(** * Postings, registries and a page to run the code on *)

Module Demo.
Import JS Model FormFiller.

(** A posting whose description was extracted as the empty text. *)
Definition blankPosting : ResumeTailor.JobPosting :=
  {| ResumeTailor.title := "Engineer";
     ResumeTailor.company := "Acme";
     ResumeTailor.description := Some EmptyString |}.

(** The posting and the three entries of the counterexample to C3: the
    tailor scores them 0, 3 and 6, and the lower the score the later the
    start. *)
Definition opsPosting : ResumeTailor.JobPosting :=
  {| ResumeTailor.title := "Platform engineer";
     ResumeTailor.company := "Acme";
     ResumeTailor.description :=
       Some "python docker terraform kubernetes postgres redis"%string |}.

Definition barista : ResumeTailor.Experience :=
  {| ResumeTailor.exp_title := Some "Barista"%string;
     ResumeTailor.exp_description := Some "Coffee"%string;
     ResumeTailor.exp_startYear := Some 2020%Z;
     ResumeTailor.exp_score := None |}.

Definition developer : ResumeTailor.Experience :=
  {| ResumeTailor.exp_title := Some "Developer"%string;
     ResumeTailor.exp_description := Some "Python, Docker, Terraform"%string;
     ResumeTailor.exp_startYear := Some 2010%Z;
     ResumeTailor.exp_score := None |}.

Definition engineer : ResumeTailor.Experience :=
  {| ResumeTailor.exp_title := Some "Engineer"%string;
     ResumeTailor.exp_description :=
       Some "Python, Docker, Terraform, Kubernetes, Postgres, Redis"%string;
     ResumeTailor.exp_startYear := Some 2000%Z;
     ResumeTailor.exp_score := None |}.

Definition scoredEntries : list ResumeTailor.Experience :=
  map (ResumeTailor.with_score (ResumeTailor.jobKeywords_of (Some opsPosting)))
    [barista; developer; engineer].

(** Three entries with the same scores 0, 3 and 6, where the higher the
    score the later the start: the ties chain from 0 to 6, and the order
    asked for is consistent all the same. *)
Definition trainee : ResumeTailor.Experience :=
  {| ResumeTailor.exp_title := Some "Trainee"%string;
     ResumeTailor.exp_description := Some "Coffee"%string;
     ResumeTailor.exp_startYear := Some 2000%Z;
     ResumeTailor.exp_score := None |}.

Definition maintainer : ResumeTailor.Experience :=
  {| ResumeTailor.exp_title := Some "Maintainer"%string;
     ResumeTailor.exp_description := Some "Python, Docker, Terraform"%string;
     ResumeTailor.exp_startYear := Some 2010%Z;
     ResumeTailor.exp_score := None |}.

Definition architect : ResumeTailor.Experience :=
  {| ResumeTailor.exp_title := Some "Architect"%string;
     ResumeTailor.exp_description :=
       Some "Python, Docker, Terraform, Kubernetes, Postgres, Redis"%string;
     ResumeTailor.exp_startYear := Some 2020%Z;
     ResumeTailor.exp_score := None |}.

(** The three platforms of [ats-selectors.js] with their URL patterns; the
    selector tables are left out. *)
Definition GREENHOUSE_CONFIG : ATSConfig :=
  {| name := "Greenhouse";
     urls := Some [ "*://boards.greenhouse.io/*";
                    "*://boards.eu.greenhouse.io/*";
                    "*://job-boards.greenhouse.io/*";
                    "*://job-boards.eu.greenhouse.io/*" ]%string;
     urlsExcluded := Some [ "*://boards.greenhouse.io/*/confirmation" ]%string;
     defaultMethod := Some "react"%string;
     inputSelectors := [] |}.

Definition LEVER_CONFIG : ATSConfig :=
  {| name := "Lever";
     urls := Some [ "*://jobs.lever.co/*"; "*://jobs.eu.lever.co/*" ]%string;
     urlsExcluded := None;
     defaultMethod := Some "default"%string;
     inputSelectors := [] |}.

Definition WORKDAY_CONFIG : ATSConfig :=
  {| name := "Workday";
     urls := Some [ "*://*.myworkdayjobs.com/*";
                    "*://*.myworkdaysite.com/*" ]%string;
     urlsExcluded := None;
     defaultMethod := Some "react"%string;
     inputSelectors := [] |}.

Definition ATS_CONFIGS : Registry :=
  [ ("Greenhouse"%string, GREENHOUSE_CONFIG);
    ("Lever"%string, LEVER_CONFIG);
    ("Workday"%string, WORKDAY_CONFIG) ].

(** A posting that asks for a number of years of 310 digits. *)
Fixpoint zeros (n : nat) : string :=
  match n with
  | O => EmptyString
  | S n' => String "0" (zeros n')
  end.

Definition astronomicPosting : string :=
  ("1" ++ zeros 309 ++ " years of experience")%string.

(** A registry whose one pattern opens a group and does not close it. *)
Definition UNBALANCED_CONFIGS : Registry :=
  [ ("Careers"%string,
     {| name := "Careers"%string;
        urls := Some ["*://careers.example.com/(jobs"%string];
        urlsExcluded := None;
        defaultMethod := Some "default"%string;
        inputSelectors := [] |}) ].

(** A page that never changes: the locators that resolve on it, each to an
    element named after it.  The empty selector is one [querySelector]
    rejects. *)
Definition staticDom : Dom :=
  {| Page := list string;
     Elem := string;
     evaluate := fun p selector =>
       Normal (if existsb (String.eqb selector) p then Some selector else None);
     querySelector := fun p selector =>
       match selector with
       | EmptyString => Throw SyntaxError
       | _ => Normal (if existsb (String.eqb selector) p
                      then Some selector else None)
       end;
     perform := fun _ _ p => (Normal tt, p);
     elapse := fun _ p => p;
     checked := fun _ _ => None;
     isTextArea := fun _ _ => false;
     hasValueSetter := fun _ => true;
     valueTransforms := [] |}.

Definition plain (method : string) : Action :=
  {| a_method := Some method; a_path := None; a_delay := None;
     a_time := None; a_allowFailure := false; a_event := None;
     a_keyCode := None |}.

(** The steps of the location field of Greenhouse. *)
Definition typeValue : Action :=
  {| a_method := Some "defaultWithoutBlur"%string; a_path := None;
     a_delay := Some 100%Z; a_time := None; a_allowFailure := false;
     a_event := None; a_keyCode := None |}.

Definition awaitSuggestion : Action :=
  {| a_method := None;
     a_path := Some "//div[contains(@class, 'pac-item')]"%string;
     a_delay := None; a_time := Some 2500%Z; a_allowFailure := false;
     a_event := Some "mouseover"%string; a_keyCode := None |}.

Definition locationInput : string := ".//input[@name='location']".

Definition locationConfig : ComplexSelector :=
  {| c_path := Some (OnePath locationInput);
     c_method := Some "react"%string;
     c_values := None;
     c_actions :=
       Some [plain "clearValue"; typeValue; awaitSuggestion; plain "blur"] |}.

Definition greenhouse : ATSConfig :=
  {| name := "Greenhouse";
     urls := Some ["*://boards.greenhouse.io/*"%string];
     urlsExcluded := Some ["*://boards.greenhouse.io/*/confirmation"%string];
     defaultMethod := Some "react"%string;
     inputSelectors :=
       [ ("first_name"%string,
          ConfigArray
            [ Complex {| c_path := Some (OnePath ".//input[@id='first_name']");
                         c_method := Some "react"%string;
                         c_values := None; c_actions := None |};
              Complex {| c_path :=
                           Some (OnePath ".//input[@autocomplete='given-name']");
                         c_method := Some "react"%string;
                         c_values := None; c_actions := None |} ]);
         ("last_name"%string,
          ConfigArray
            [ Complex {| c_path := Some (OnePath ".//input[@id='last_name']");
                         c_method := Some "react"%string;
                         c_values := None; c_actions := None |} ]);
         ("location"%string, ConfigArray [Complex locationConfig]);
         ("resume"%string,
          ConfigArray
            [ Complex {| c_path := Some (OnePath "//input[@type='file']");
                         c_method := None; c_values := None;
                         c_actions := Some [plain "uploadResume"] |} ]) ] |}.

(** A form with a last name and a location input and nothing else. *)
Definition formPage : list string :=
  [".//input[@id='last_name']"%string; locationInput].

Definition atStart : World (D := staticDom) :=
  @Build_World staticDom formPage 0 [].

Definition profile : TailoredData :=
  [ ("firstName"%string, JString "Ada");
    ("lastName"%string, JString EmptyString);
    ("location"%string, JString "London") ].

(** The state in which the location input has been found. *)
Definition found : World (D := staticDom) :=
  snd (findByPaths (c_path locationConfig) atStart).

(** The states after the two steps before the wait and after the waiting
    step's own action. *)
Definition typed : World (D := staticDom) :=
  snd (executeActions_from (D := staticDom) locationInput
         (c_path locationConfig) [plain "clearValue"; typeValue]
         (JString "London") found).

Definition hovered : World (D := staticDom) :=
  snd (executeAction (D := staticDom) locationInput awaitSuggestion
         (JString "London") typed).

(** A stored profile and a stored resume, and the data [tailor] makes of
    them: of both, and of the profile alone. *)
Definition storedProfile : Profile.Stored :=
  [ ("firstName"%string, JString "Ada");
    ("lastName"%string, JString "Lovelace");
    ("gender"%string, JString "female") ].

Definition storedResume : Profile.Resume :=
  {| Profile.contact :=
       Some [ ("firstName"%string, JString "Augusta");
              ("email"%string, JString "ada@example.com");
              ("phone"%string, JString "+44 20 7946 0000");
              ("location"%string, JString "London, UK") ];
     Profile.summary := JString "Analyst";
     Profile.experience := None;
     Profile.education := JUndefined;
     Profile.skills := Some ["Go"%string] |}.

Definition tailored : TailoredData :=
  match Profile.tailor (Some storedResume) (Some storedProfile) None with
  | Normal data => data
  | Throw _ => []
  end.

Definition profileAlone : TailoredData :=
  match Profile.tailor None (Some storedProfile) None with
  | Normal data => data
  | Throw _ => []
  end.

End Demo.

(** * Properties *)

(** ** The sort *)

Module SortFacts.
Import JS.

Section Generic.
Variable A : Type.
Variable cmp : A -> A -> number.

Lemma insert_perm (x : A) (l : list A) :
  Permutation (x :: l) (insert cmp x l).
Proof.
  induction l as [|y l IH]; simpl.
  - apply Permutation_refl.
  - destruct (before cmp x y).
    + apply Permutation_refl.
    + eapply Permutation_trans; [apply perm_swap|].
      now apply perm_skip.
Qed.

Lemma sort_perm (l : list A) : Permutation l (sort cmp l).
Proof.
  induction l as [|x l IH]; simpl.
  - apply perm_nil.
  - eapply Permutation_trans; [|apply insert_perm].
    now apply perm_skip.
Qed.

Lemma sort_In (x : A) (l : list A) : In x (sort cmp l) <-> In x l.
Proof.
  split; apply Permutation_in;
    [apply Permutation_sym|]; apply sort_perm.
Qed.

Lemma sort_length (l : list A) : length (sort cmp l) = length l.
Proof. symmetry. apply Permutation_length, sort_perm. Qed.

(** On a set of elements where [before] is total and transitive, the
    sort leaves every element in front of all that follow it. *)
Section Ordered.
Variable P : A -> Prop.
Hypothesis before_total :
  forall a b, P a -> P b -> before cmp a b = true \/ before cmp b a = true.
Hypothesis before_trans :
  forall a b c, P a -> P b -> P c ->
    before cmp a b = true -> before cmp b c = true ->
    before cmp a c = true.

Lemma insert_ordered (x : A) (l : list A) :
  P x -> Forall P l ->
  StronglySorted (fun a b => before cmp a b = true) l ->
  StronglySorted (fun a b => before cmp a b = true) (insert cmp x l).
Proof.
  intros Px Pl Hl. induction Hl as [|y l Hl IH Hy]; simpl.
  - constructor; constructor.
  - inversion Pl as [|? ? Py Pl']; subst.
    destruct (before cmp x y) eqn:Hxy.
    + constructor; [now constructor|].
      constructor; [exact Hxy|].
      rewrite Forall_forall in *. intros z Hz.
      apply (before_trans (a := x) (b := y)); auto.
    + constructor; [now apply IH|].
      apply (Permutation_Forall (insert_perm x l)).
      constructor; [|exact Hy].
      destruct (before_total Py Px) as [H|H]; [exact H|congruence].
Qed.

Lemma sort_ordered (l : list A) :
  Forall P l -> StronglySorted (fun a b => before cmp a b = true) (sort cmp l).
Proof.
  induction l as [|x l IH]; simpl; intros Hl.
  - constructor.
  - inversion Hl; subst.
    apply insert_ordered; auto.
    apply (Permutation_Forall (sort_perm l)); assumption.
Qed.
End Ordered.

(** The sort commutes with a map that respects the comparator. *)
Variable B : Type.
Variable cmpB : B -> B -> number.
Variable g : A -> B.
Hypothesis cmp_g : forall a b, cmpB (g a) (g b) = cmp a b.

Lemma insert_map (x : A) (l : list A) :
  insert cmpB (g x) (map g l) = map g (insert cmp x l).
Proof.
  induction l as [|y l IH]; simpl; [reflexivity|].
  unfold before. rewrite cmp_g.
  destruct (sign_of (cmp x y) <=? 0)%Z; simpl; [reflexivity|].
  now rewrite IH.
Qed.

Lemma sort_map (l : list A) : sort cmpB (map g l) = map g (sort cmp l).
Proof.
  induction l as [|x l IH]; simpl; [reflexivity|].
  now rewrite IH, insert_map.
Qed.
End Generic.

(** What comes before what in a list. *)
Lemma ordered_pair (A : Type) (R : A -> A -> Prop) (l1 l2 l3 : list A) (a b : A) :
  StronglySorted R (l1 ++ a :: l2 ++ b :: l3) -> R a b.
Proof.
  induction l1 as [|x l1 IH]; simpl; intros H.
  - apply StronglySorted_inv in H. destruct H as [_ H].
    rewrite Forall_forall in H. apply H.
    apply in_or_app. right. now left.
  - apply StronglySorted_inv in H. now apply IH.
Qed.

(** Sorting by a key, largest first. *)
Section ByKey.
Variable A : Type.
Variable key : A -> Z.

Lemma descending_sorted (l : list A) :
  StronglySorted (fun a b => (key b <= key a)%Z) (sort (descending key) l).
Proof.
  assert (H : StronglySorted (fun a b => before (descending key) a b = true)
                (sort (descending key) l)).
  { apply (@sort_ordered A (descending key) (fun _ => True)).
    - intros a b _ _. unfold before, descending. simpl.
      destruct (Z.leb_spec (key b - key a) 0);
        destruct (Z.leb_spec (key a - key b) 0); auto; lia.
    - intros a b c _ _ _. unfold before, descending. simpl.
      rewrite !Z.leb_le. lia.
    - apply Forall_forall. trivial. }
  induction H as [|x l' Hl IH Hx]; constructor; auto.
  eapply Forall_impl; [|exact Hx].
  intros a. unfold before, descending. simpl. rewrite Z.leb_le. lia.
Qed.

(** Stability: the elements of one key keep their order. *)
Lemma insert_stable (v : Z) (x : A) (l : list A) :
  filter (fun a => (key a =? v)%Z) (insert (descending key) x l)
  = filter (fun a => (key a =? v)%Z) (x :: l).
Proof.
  induction l as [|y l IH]; simpl; [reflexivity|].
  destruct (before (descending key) x y) eqn:Hb; simpl; [reflexivity|].
  rewrite IH. simpl.
  unfold before, descending in Hb. simpl in Hb. apply Z.leb_gt in Hb.
  destruct (Z.eqb_spec (key x) v), (Z.eqb_spec (key y) v);
    try reflexivity.
  lia.
Qed.

Lemma descending_stable (v : Z) (l : list A) :
  filter (fun a => (key a =? v)%Z) (sort (descending key) l)
  = filter (fun a => (key a =? v)%Z) l.
Proof.
  induction l as [|x l IH]; simpl; [reflexivity|].
  rewrite insert_stable. simpl. now rewrite IH.
Qed.
(** There is one stable sorted arrangement: a sort that is stable and
    orders by the key returns what [sort] returns. *)
Lemma stable_sorted_unique (l1 l2 : list A) :
  StronglySorted (fun a b => (key b <= key a)%Z) l1 ->
  StronglySorted (fun a b => (key b <= key a)%Z) l2 ->
  (forall v : Z,
      filter (fun a => (key a =? v)%Z) l1 = filter (fun a => (key a =? v)%Z) l2) ->
  l1 = l2.
Proof.
  revert l2. induction l1 as [|x l1 IH]; intros l2 H1 H2 Hsame.
  - destruct l2 as [|y l2]; [reflexivity|].
    specialize (Hsame (key y)). simpl in Hsame.
    rewrite Z.eqb_refl in Hsame. discriminate.
  - destruct l2 as [|y l2].
    { specialize (Hsame (key x)). simpl in Hsame.
      rewrite Z.eqb_refl in Hsame. discriminate. }
    apply StronglySorted_inv in H1. destruct H1 as [H1 Hx].
    apply StronglySorted_inv in H2. destruct H2 as [H2 Hy].
    rewrite Forall_forall in Hx, Hy.
    assert (Hxy : (key y <= key x)%Z).
    { assert (Hin : In y (filter (fun a => (key a =? key y)%Z) (x :: l1))).
      { rewrite Hsame. simpl. rewrite Z.eqb_refl. now left. }
      apply filter_In in Hin. destruct Hin as [[->|Hin] _]; [lia|auto]. }
    assert (Hyx : (key x <= key y)%Z).
    { assert (Hin : In x (filter (fun a => (key a =? key x)%Z) (y :: l2))).
      { rewrite <- Hsame. simpl. rewrite Z.eqb_refl. now left. }
      apply filter_In in Hin. destruct Hin as [[->|Hin] _]; [lia|auto]. }
    assert (Hk : key x = key y) by lia.
    assert (Hhead := Hsame (key x)). simpl in Hhead.
    rewrite <- Hk, Z.eqb_refl in Hhead. injection Hhead as -> Htail.
    f_equal. apply IH; auto.
    intros v. specialize (Hsame v). simpl in Hsame.
    destruct (key y =? v)%Z; [now injection Hsame|exact Hsame].
Qed.

End ByKey.

End SortFacts.

(** ** Strings *)

Module StringFacts.
Import JS TailorSpec.
Local Open Scope string_scope.

Lemma append_nil_r (s : string) : s ++ "" = s.
Proof. induction s; simpl; congruence. Qed.

Lemma append_assoc (a b c : string) : (a ++ b) ++ c = a ++ b ++ c.
Proof. induction a; simpl; congruence. Qed.

Lemma startsWith_spec (hay needle : string) :
  startsWith hay needle = true <-> exists post, hay = needle ++ post.
Proof.
  revert hay. induction needle as [|a n IH]; intros hay.
  - destruct hay; simpl; split; eauto.
  - destruct hay as [|b h]; simpl.
    + split; [discriminate|]. intros [post H]. discriminate.
    + rewrite andb_true_iff, IH. split.
      * intros [Hab [post ->]]. apply Ascii.eqb_eq in Hab. subst.
        now exists post.
      * intros [post H]. injection H as -> ->.
        split; [apply Ascii.eqb_refl|now exists post].
Qed.

Lemma includes_spec (hay needle : string) :
  includes hay needle = true <-> exists pre post, hay = pre ++ needle ++ post.
Proof.
  induction hay as [|b h IH].
  - cbn [includes]. rewrite orb_false_r. rewrite startsWith_spec. split.
    + intros [post H]. now exists "", post.
    + intros [pre [post H]]. destruct pre; [|discriminate]. now exists post.
  - cbn [includes]. rewrite orb_true_iff, IH, startsWith_spec. split.
    + intros [[post H]|[pre [post H]]].
      * now exists "", post.
      * exists (String b pre), post. simpl. now rewrite H.
    + intros [pre [post H]]. destruct pre as [|c pre].
      * left. now exists post.
      * right. injection H as _ H. now exists pre, post.
Qed.

Lemma toLowerCase_app (a b : string) :
  toLowerCase (a ++ b) = toLowerCase a ++ toLowerCase b.
Proof. induction a; simpl; congruence. Qed.

Lemma toLowerCase_split (d x y : string) :
  toLowerCase d = x ++ y ->
  exists a b, d = a ++ b /\ toLowerCase a = x /\ toLowerCase b = y.
Proof.
  revert d. induction x as [|c x IH]; intros d H.
  - now exists "", d.
  - destruct d as [|e d]; [discriminate|].
    simpl in H. injection H as Hc H.
    destruct (IH _ H) as [a [b [-> [Ha Hb]]]].
    exists (String e a), b. simpl. now rewrite Hc, Ha.
Qed.

Lemma includes_lower (hay needle : string) :
  includes (toLowerCase hay) (toLowerCase needle) = true
  <-> occurs_ignoring_case needle hay.
Proof.
  rewrite includes_spec. split.
  - intros [pre [post H]].
    destruct (toLowerCase_split H) as [a [r [-> [Ha Hr]]]].
    destruct (toLowerCase_split Hr) as [mid [b [-> [Hm Hb]]]].
    now exists a, mid, b.
  - intros [pre [mid [post [-> Hm]]]].
    exists (toLowerCase pre), (toLowerCase post).
    now rewrite !toLowerCase_app, Hm.
Qed.

End StringFacts.

(** ** ResumeTailor: keywords and skills *)

Module TailorFacts.
Import JS ResumeTailor TailorSpec SortFacts StringFacts.

Lemma In_firstn (A : Type) (n : nat) (l : list A) (x : A) :
  In x (firstn n l) -> In x l.
Proof.
  intros H. rewrite <- (firstn_skipn n l). apply in_or_app. now left.
Qed.

Lemma set_own_In (o : object) (key : string) (v : tally) (e : string * tally) :
  In e (set_own o key v) -> fst e = key \/ In e o.
Proof.
  induction o as [|[k w] o IH]; simpl.
  - intros [<-|[]]. now left.
  - destruct (String.eqb_spec k key) as [->|Hk]; simpl.
    + intros [<-|H]; auto.
    + intros [<-|H]; auto. destruct (IH H); auto.
Qed.

Lemma set_own_long (o : object) (word : string) (v : tally) :
  3 < String.length word -> long_keys o -> long_keys (set_own o word v).
Proof.
  unfold long_keys. rewrite !Forall_forall. intros Hw Ho e He.
  destruct (set_own_In He) as [->|H]; auto.
Qed.

Lemma bump_long (o : object) (word : string) :
  3 < String.length word -> long_keys o -> long_keys (bump o word).
Proof.
  intros Hw Ho. unfold bump.
  destruct (own o word) as [[n|s]|].
  - now apply set_own_long.
  - now apply set_own_long.
  - destruct (String.eqb word "__proto__"); [exact Ho|].
    destruct (inherited word); now apply set_own_long.
Qed.

Lemma count_words_long (words : list string) (o : object) :
  long_keys o -> long_keys (count_words o words).
Proof.
  revert o. induction words as [|w ws IH]; simpl; intros o Ho; [exact Ho|].
  apply IH. destruct (Nat.ltb_spec 3 (String.length w)); [|exact Ho].
  now apply bump_long.
Qed.

Lemma entries_In (o : object) (e : string * tally) :
  In e (entries o) -> In e o.
Proof.
  unfold entries. intros H. apply in_app_or in H. destruct H as [H|H].
  - apply sort_In in H. now apply filter_In in H.
  - now apply filter_In in H.
Qed.

Lemma has_false (set : list string) (word : string) :
  has set word = false -> ~ In word set.
Proof.
  unfold has. intros H Hin.
  assert (Ht : existsb (String.eqb word) set = true).
  { apply existsb_exists. exists word. split; [exact Hin|].
    apply String.eqb_refl. }
  congruence.
Qed.

Lemma prioritizeSkills_sorts (l : list string) (jobText : string) :
  map fst (sort (descending snd)
             (map (fun skill => (skill, skillScore jobText skill)) l))
  = sort (descending (skillScore jobText)) l.
Proof.
  rewrite (@sort_map _ (descending (skillScore jobText)) _
             (descending snd)
             (fun skill => (skill, skillScore jobText skill)))
    by reflexivity.
  rewrite map_map. simpl. apply map_id.
Qed.

End TailorFacts.

Import JS Model.

(** C7. [extractKeywords] is a function of its text alone; every keyword it
    returns is longer than three characters and is not a stop word; and it
    returns at most fifty keywords. *)
Theorem extractKeywords_long_unstopped_bounded (text : string) :
  (forall text' : string,
      text' = text ->
      ResumeTailor.extractKeywords text' = ResumeTailor.extractKeywords text)
  /\ (forall keyword : string,
         In keyword (ResumeTailor.extractKeywords text) ->
         3 < String.length keyword /\ ~ In keyword ResumeTailor.stopWords)
  /\ length (ResumeTailor.extractKeywords text) <= 50.
Proof.
  split; [intros ? ->; reflexivity|].
  unfold ResumeTailor.extractKeywords.
  destruct text as [|c text]; [simpl; split; [tauto|lia]|].
  set (t := String c text). split.
  - intros keyword H.
    apply in_map_iff in H. destruct H as [e [<- He]].
    apply TailorFacts.In_firstn in He.
    apply SortFacts.sort_In in He.
    apply filter_In in He. destruct He as [He Hstop].
    apply TailorFacts.entries_In in He.
    split.
    + assert (Hl : TailorSpec.long_keys
                     (ResumeTailor.count_words []
                        (ResumeTailor.split_W (toLowerCase t)))).
      { apply TailorFacts.count_words_long. constructor. }
      unfold TailorSpec.long_keys in Hl. rewrite Forall_forall in Hl.
      now apply Hl.
    + apply TailorFacts.has_false. now apply negb_true_iff.
  - rewrite length_map. apply firstn_le_length.
Qed.

(** The keywords of a posting that repeats one word, names a year and uses
    short words and stop words. *)
Lemma extractKeywords_example :
  ResumeTailor.extractKeywords
    "We need 5+ years of Go and Kubernetes experience with our team in 2024; Kubernetes!"
  = ["kubernetes"; "2024"; "need"; "years"; "experience"]%string
  /\ (forall keyword : string,
         In keyword
           (ResumeTailor.extractKeywords
              "We need 5+ years of Go and Kubernetes experience with our team in 2024; Kubernetes!") ->
         3 < String.length keyword /\ ~ In keyword ResumeTailor.stopWords).
Proof.
  split; [vm_compute; reflexivity|].
  apply (extractKeywords_long_unstopped_bounded
           "We need 5+ years of Go and Kubernetes experience with our team in 2024; Kubernetes!").
Defined.

(** C6, as stated, fails: with an empty description the list comes back as
    it was given, although the empty skill occurs in the empty description
    and a skill such as "a" does not. *)
Lemma prioritizeSkills_blank_description_unsorted :
  ResumeTailor.prioritizeSkills (Some ["a"; EmptyString]%string)
    (Some Demo.blankPosting) = ["a"; EmptyString]%string
  /\ TailorSpec.claimedSkillScore (Some Demo.blankPosting) "a" = 0%Z
  /\ TailorSpec.claimedSkillScore (Some Demo.blankPosting) EmptyString = 10%Z
  /\ ~ TailorSpec.skillsClaim ["a"; EmptyString]%string (Some Demo.blankPosting).
Proof.
  repeat split; try reflexivity.
  intros [_ [_ [Hsorted _]]].
  apply StronglySorted_inv in Hsorted. destruct Hsorted as [_ Hfirst].
  apply Forall_inv in Hfirst. vm_compute in Hfirst. now apply Hfirst.
Qed.

(** C6, amended.  [prioritizeSkills] returns a permutation of its input, of
    the same length.  The score 10 goes to the skills that occur in the
    description with case ignored and 0 to the others.  For a posting with a
    non-empty description the result is sorted by descending score and the
    skills of one score keep their order; for a posting whose description is
    missing or empty the input comes back as it is. *)
Theorem prioritizeSkills_permutation_stable
    (skills : option (list string))
    (jobDescription : option ResumeTailor.JobPosting) :
  let input := TailorSpec.given skills in
  let out := ResumeTailor.prioritizeSkills skills jobDescription in
  Permutation input out
  /\ length out = length input
  /\ (forall d skill : string,
         (ResumeTailor.skillScore (toLowerCase d) skill = 10%Z
          <-> TailorSpec.occurs_ignoring_case skill d)
         /\ (ResumeTailor.skillScore (toLowerCase d) skill = 0%Z
             <-> ~ TailorSpec.occurs_ignoring_case skill d))
  /\ (forall d : string,
         ResumeTailor.description_of jobDescription = Some d ->
         d <> EmptyString ->
         let score := ResumeTailor.skillScore (toLowerCase d) in
         StronglySorted (fun a b => (score b <= score a)%Z) out
         /\ forall v : Z,
              filter (fun s => (score s =? v)%Z) out
              = filter (fun s => (score s =? v)%Z) input)
  /\ (ResumeTailor.truthy (ResumeTailor.description_of jobDescription) = false ->
      out = input).
Proof.
  intros input out.
  assert (Hscore : forall d skill : string,
             (ResumeTailor.skillScore (toLowerCase d) skill = 10%Z
              <-> TailorSpec.occurs_ignoring_case skill d)
             /\ (ResumeTailor.skillScore (toLowerCase d) skill = 0%Z
                 <-> ~ TailorSpec.occurs_ignoring_case skill d)).
  { intros d skill. unfold ResumeTailor.skillScore.
    rewrite <- StringFacts.includes_lower.
    destruct (includes (toLowerCase d) (toLowerCase skill));
      intuition (congruence || discriminate). }
  assert (Hout : match ResumeTailor.description_of jobDescription with
                 | Some (String c d) =>
                     out = JS.sort
                             (JS.descending
                                (ResumeTailor.skillScore
                                   (toLowerCase (String c d))))
                             input
                 | _ => out = input
                 end).
  { subst out input. unfold ResumeTailor.prioritizeSkills.
    destruct (ResumeTailor.description_of jobDescription) as [[|c d]|];
      destruct skills as [[|s l]|]; simpl; try reflexivity.
    apply (TailorFacts.prioritizeSkills_sorts (s :: l)). }
  destruct (ResumeTailor.description_of jobDescription) as [[|c d]|] eqn:Hd;
    rewrite Hout.
  - split; [apply Permutation_refl|]. split; [reflexivity|].
    split; [exact Hscore|]. split; [|reflexivity].
    intros d' Hd' Hne. injection Hd' as <-. now contradiction Hne.
  - split; [apply SortFacts.sort_perm|].
    split; [apply SortFacts.sort_length|].
    split; [exact Hscore|]. split; [|discriminate].
    intros d' Hd' _ score. injection Hd' as <-. subst score. split.
    + apply SortFacts.descending_sorted.
    + intros v. apply SortFacts.descending_stable.
  - split; [apply Permutation_refl|]. split; [reflexivity|].
    split; [exact Hscore|]. split; [discriminate|reflexivity].
Qed.

(** A use of the amended C6 on a posting that names two of four skills. *)
Lemma prioritizeSkills_example :
  ResumeTailor.prioritizeSkills
    (Some ["Java"; "Go"; "Rust"; "KUBERNETES"]%string)
    (Some {| ResumeTailor.title := "Engineer";
             ResumeTailor.company := "Acme";
             ResumeTailor.description :=
               Some "We need 5+ years of Go and Kubernetes experience"%string |})
  = ["Go"; "KUBERNETES"; "Java"; "Rust"]%string
  /\ StronglySorted
       (fun a b =>
          (ResumeTailor.skillScore
             (toLowerCase "We need 5+ years of Go and Kubernetes experience") b
           <= ResumeTailor.skillScore
                (toLowerCase "We need 5+ years of Go and Kubernetes experience") a)%Z)
       (ResumeTailor.prioritizeSkills
          (Some ["Java"; "Go"; "Rust"; "KUBERNETES"]%string)
          (Some {| ResumeTailor.title := "Engineer";
                   ResumeTailor.company := "Acme";
                   ResumeTailor.description :=
                     Some "We need 5+ years of Go and Kubernetes experience"%string |})).
Proof.
  split; [vm_compute; reflexivity|].
  refine (proj1
            (proj1 (proj2 (proj2 (proj2
               (prioritizeSkills_permutation_stable
                  (Some ["Java"; "Go"; "Rust"; "KUBERNETES"]%string)
                  (Some {| ResumeTailor.title := "Engineer";
                           ResumeTailor.company := "Acme";
                           ResumeTailor.description :=
                             Some "We need 5+ years of Go and Kubernetes experience"%string |})))))
               "We need 5+ years of Go and Kubernetes experience"%string _ _)).
  - reflexivity.
  - discriminate.
Defined.

(** ** ResumeTailor: experience *)

Module ExperienceFacts.
Import JS ResumeTailor TailorSpec SortFacts.

Lemma in_order_decided (a b : Experience) :
  in_order a b -> in_orderb a b = true.
Proof.
  unfold in_order, in_orderb. intros H.
  destruct (exp_score a) as [sa|]; [|reflexivity].
  destruct (exp_score b) as [sb|]; [|reflexivity].
  destruct (H sa sb eq_refl eq_refl) as [Hfar Hclose].
  destruct (Z.ltb_spec 5 (Z.abs (sa - sb))).
  - apply Z.ltb_lt. auto.
  - apply Z.leb_le. auto.
Qed.

Lemma experienceClaim_decided (l : list Experience) :
  experienceClaim l -> all_in_order l = true.
Proof.
  induction l as [|a l IH]; intros H; simpl; [reflexivity|].
  apply andb_true_iff. split.
  - apply forallb_forall. intros b Hb.
    destruct (in_split _ _ Hb) as [l2 [l3 ->]].
    apply in_order_decided. now apply (H [] l2 l3).
  - apply IH. intros l1 l2 l3 x y ->. now apply (H (a :: l1) l2 l3).
Qed.

Lemma before_scored (a b : Experience) (sa sb : Z) :
  exp_score a = Some sa -> exp_score b = Some sb ->
  (before compareExperience a b = true
   <-> ((5 < Z.abs (sb - sa))%Z /\ (sb - sa <= 0)%Z)
       \/ ((Z.abs (sb - sa) <= 5)%Z /\ (start_year b - start_year a <= 0)%Z)).
Proof.
  intros Ha Hb. unfold before, compareExperience, score_number.
  rewrite Ha, Hb. simpl.
  destruct (Z.ltb_spec 5 (Z.abs (sb - sa))); simpl; rewrite Z.leb_le; lia.
Qed.

(** On entries that have their score, the comparator lets [a] stay in
    front of [b] exactly when the order asked for does. *)
Lemma before_in_orderb (a b : Experience) (sa sb : Z) :
  exp_score a = Some sa -> exp_score b = Some sb ->
  before compareExperience a b = in_orderb a b.
Proof.
  intros Ha Hb. unfold before, compareExperience, score_number, in_orderb.
  rewrite Ha, Hb. cbn [sub].
  replace (Z.abs (sb - sa)) with (Z.abs (sa - sb)) by lia.
  destruct (Z.ltb_spec 5 (Z.abs (sa - sb))); cbn [sign_of].
  - destruct (Z.leb_spec (sb - sa) 0), (Z.ltb_spec sb sa); lia || reflexivity.
  - destruct (Z.leb_spec (start_year b - start_year a) 0),
      (Z.leb_spec (start_year b) (start_year a)); lia || reflexivity.
Qed.

Lemma with_score_scored (jobKeywords : list string) (exps : list Experience)
    (e : Experience) :
  In e (map (with_score jobKeywords) exps) -> exists s, exp_score e = Some s.
Proof.
  intros H. apply in_map_iff in H. destruct H as [x [<- _]].
  eexists. reflexivity.
Qed.

(** An entry with its score may stand in front of itself. *)
Lemma in_orderb_refl (jobKeywords : list string) (e : Experience) :
  in_orderb (with_score jobKeywords e) (with_score jobKeywords e) = true.
Proof.
  unfold in_orderb. cbn [exp_score with_score].
  rewrite Z.sub_diag. cbn [Z.abs]. apply Z.leb_refl.
Qed.

(** Three different elements of a list can be moved to its end. *)
Lemma three_last (A : Type) (a b c : A) (l : list A) :
  a <> b -> a <> c -> b <> c -> In a l -> In b l -> In c l ->
  exists rest : list A, Permutation l (rest ++ [a; b; c]).
Proof.
  intros Hab Hac Hbc Ha Hb Hc.
  destruct (in_split a l Ha) as [l1 [l2 ->]].
  apply in_elt_inv in Hb, Hc.
  destruct Hb as [Hb|Hb]; [congruence|]. destruct Hc as [Hc|Hc]; [congruence|].
  destruct (in_split b _ Hb) as [m1 [m2 Hm]]. rewrite Hm in Hc.
  apply in_elt_inv in Hc. destruct Hc as [Hc|Hc]; [congruence|].
  destruct (in_split c _ Hc) as [n1 [n2 Hn]].
  exists (n1 ++ n2).
  eapply Permutation_trans; [apply Permutation_sym, Permutation_middle|].
  rewrite Hm.
  eapply Permutation_trans;
    [apply perm_skip, Permutation_sym, Permutation_middle|].
  rewrite Hn.
  eapply Permutation_trans;
    [apply perm_skip, perm_skip, Permutation_sym, Permutation_middle|].
  apply (Permutation_app_comm [a; b; c] (n1 ++ n2)).
Qed.

(** An element that stands in front of another still does once a third
    is inserted. *)
Lemma insert_keeps_front (A : Type) (cmp : A -> A -> number) (x a c : A)
    (l : list A) :
  (exists front rest, l = front ++ a :: rest /\ In c rest) ->
  exists front rest, insert cmp x l = front ++ a :: rest /\ In c rest.
Proof.
  induction l as [|y l IH]; intros [front [rest [Hl Hc]]].
  - now destruct front.
  - cbn [insert]. destruct (before cmp x y).
    + exists (x :: front), rest. now rewrite Hl.
    + destruct front as [|z front]; cbn [app] in Hl; injection Hl as -> ->.
      * exists [], (insert cmp x rest). split; [reflexivity|].
        apply (Permutation_in _ (insert_perm cmp x rest)). now right.
      * destruct IH as [front' [rest' [-> Hc']]]; [now exists front, rest|].
        now exists (z :: front'), rest'.
Qed.

End ExperienceFacts.

Lemma scoredEntries_scores :
  map ResumeTailor.exp_score Demo.scoredEntries = [Some 0%Z; Some 3%Z; Some 6%Z].
Proof. vm_compute. reflexivity. Qed.

(** No order of these three entries is the one the specification asks
    for: the score ties ask for barista, developer, engineer and the score
    gap asks for the engineer in front of the barista. *)
Lemma scoredEntries_no_order (out : list ResumeTailor.Experience) :
  Permutation Demo.scoredEntries out -> ~ TailorSpec.experienceClaim out.
Proof.
  intros Hperm Hclaim.
  apply ExperienceFacts.experienceClaim_decided in Hclaim.
  assert (Hlen := Permutation_length Hperm).
  assert (Hyears := Permutation_NoDup
                      (Permutation_map ResumeTailor.start_year Hperm)).
  assert (Hin : forall e, In e out -> In e Demo.scoredEntries).
  { intros e. apply Permutation_in. now apply Permutation_sym. }
  destruct out as [|x [|y [|z [|? ?]]]]; try discriminate.
  assert (Hx := Hin x (or_introl eq_refl)).
  assert (Hy := Hin y (or_intror (or_introl eq_refl))).
  assert (Hz := Hin z (or_intror (or_intror (or_introl eq_refl)))).
  assert (Hnodup : NoDup [ResumeTailor.start_year x; ResumeTailor.start_year y;
                          ResumeTailor.start_year z]).
  { apply Hyears. repeat constructor; simpl; intuition discriminate. }
  clear Hperm Hyears Hin Hlen.
  simpl in Hx, Hy, Hz.
  destruct Hx as [<-|[<-|[<-|[]]]]; destruct Hy as [<-|[<-|[<-|[]]]];
    destruct Hz as [<-|[<-|[<-|[]]]];
    try (vm_compute in Hclaim; discriminate Hclaim);
    exfalso; inversion Hnodup as [|? ? Hnotin Hrest]; subst;
    try (apply Hnotin; simpl; auto; fail);
    inversion Hrest as [|? ? Hnotin' _]; subst; apply Hnotin'; simpl; auto.
Qed.

(** C3, as stated, fails: on these entries [prioritizeExperience] returns
    the barista (score 0) in front of the engineer (score 6). *)
Lemma prioritizeExperience_gap_out_of_order :
  map ResumeTailor.exp_title
    (ResumeTailor.prioritizeExperience
       (ResumeTailor.jobKeywords_of (Some Demo.opsPosting))
       (Some [Demo.barista; Demo.developer; Demo.engineer]) (Some Demo.opsPosting))
  = [Some "Barista"; Some "Developer"; Some "Engineer"]%string
  /\ ~ TailorSpec.experienceClaim
         (ResumeTailor.prioritizeExperience
            (ResumeTailor.jobKeywords_of (Some Demo.opsPosting))
            (Some [Demo.barista; Demo.developer; Demo.engineer]) (Some Demo.opsPosting)).
Proof.
  split; [vm_compute; reflexivity|].
  apply scoredEntries_no_order.
  apply (SortFacts.sort_perm ResumeTailor.compareExperience Demo.scoredEntries).
Qed.

(** C3, amended.  For a posting with a non-empty description, when the
    order asked for is consistent among the entries with their scores
    (whenever it lets [a] stand in front of [b] and [b] in front of [c], it
    lets [a] stand in front of [c]), in the list [prioritizeExperience]
    returns every entry has its score, of two entries with scores more than
    5 apart the one with the higher score comes first, and of two entries
    with scores at most 5 apart the one that starts later comes first. *)
Theorem prioritizeExperience_ordered_when_order_consistent
    (jobKeywords : list string) (experience : list ResumeTailor.Experience)
    (jobDescription : option ResumeTailor.JobPosting) :
  ResumeTailor.truthy (ResumeTailor.description_of jobDescription) = true ->
  TailorSpec.consistent (map (ResumeTailor.with_score jobKeywords) experience) ->
  let out :=
    ResumeTailor.prioritizeExperience jobKeywords (Some experience)
      jobDescription in
  Permutation (map (ResumeTailor.with_score jobKeywords) experience) out
  /\ TailorSpec.experienceClaim out.
Proof.
  intros Hdesc Hconsistent out.
  set (scored := map (ResumeTailor.with_score jobKeywords) experience) in *.
  assert (Hout : out = JS.sort ResumeTailor.compareExperience scored).
  { subst out scored. unfold ResumeTailor.prioritizeExperience.
    rewrite Hdesc. simpl. destruct experience; reflexivity. }
  split; [rewrite Hout; apply SortFacts.sort_perm|].
  assert (Hsorted :
            StronglySorted
              (fun a b => JS.before ResumeTailor.compareExperience a b = true)
              out).
  { rewrite Hout.
    apply (@SortFacts.sort_ordered _ ResumeTailor.compareExperience
             (fun e => In e scored)).
    - intros a b Ha Hb.
      destruct (ExperienceFacts.with_score_scored Ha) as [sa Hsa].
      destruct (ExperienceFacts.with_score_scored Hb) as [sb Hsb].
      rewrite (ExperienceFacts.before_scored Hsa Hsb).
      rewrite (ExperienceFacts.before_scored Hsb Hsa). lia.
    - intros a b c Ha Hb Hc.
      destruct (ExperienceFacts.with_score_scored Ha) as [sa Hsa].
      destruct (ExperienceFacts.with_score_scored Hb) as [sb Hsb].
      destruct (ExperienceFacts.with_score_scored Hc) as [sc Hsc].
      rewrite (ExperienceFacts.before_in_orderb Hsa Hsb).
      rewrite (ExperienceFacts.before_in_orderb Hsb Hsc).
      rewrite (ExperienceFacts.before_in_orderb Hsa Hsc).
      now apply Hconsistent.
    - apply Forall_forall. auto. }
  intros l1 l2 l3 a b Hsplit sa sb Hsa Hsb.
  rewrite Hsplit in Hsorted.
  apply SortFacts.ordered_pair in Hsorted.
  rewrite (ExperienceFacts.before_scored Hsa Hsb) in Hsorted. lia.
Qed.

(** Scores 0, 3 and 6 whose ties chain, with the later start at the higher
    score: the order asked for is consistent, and the entries come out by
    descending score. *)
Lemma prioritizeExperience_chained_ties :
  map ResumeTailor.exp_title
    (ResumeTailor.prioritizeExperience
       (ResumeTailor.jobKeywords_of (Some Demo.opsPosting))
       (Some [Demo.trainee; Demo.maintainer; Demo.architect])
       (Some Demo.opsPosting))
  = [Some "Architect"; Some "Maintainer"; Some "Trainee"]%string
  /\ TailorSpec.experienceClaim
       (ResumeTailor.prioritizeExperience
          (ResumeTailor.jobKeywords_of (Some Demo.opsPosting))
          (Some [Demo.trainee; Demo.maintainer; Demo.architect])
          (Some Demo.opsPosting)).
Proof.
  split; [vm_compute; reflexivity|].
  refine (proj2 (prioritizeExperience_ordered_when_order_consistent
                   (jobKeywords := ResumeTailor.jobKeywords_of (Some Demo.opsPosting))
                   (experience := [Demo.trainee; Demo.maintainer; Demo.architect])
                   (jobDescription := Some Demo.opsPosting) _ _)).
  - reflexivity.
  - intros a b c Ha Hb Hc.
    cbn [map In] in Ha, Hb, Hc.
    destruct Ha as [<-|[<-|[<-|[]]]]; destruct Hb as [<-|[<-|[<-|[]]]];
      destruct Hc as [<-|[<-|[<-|[]]]];
      vm_compute; intros; reflexivity || discriminate.
Defined.

(** The condition of the amended C3 is needed: when the order asked for is
    not consistent among the entries with their scores, an arrangement of
    the same entries comes out of [prioritizeExperience] in an order the
    specification does not allow. *)
Lemma prioritizeExperience_inconsistent_arrangement
    (jobKeywords : list string) (experience : list ResumeTailor.Experience)
    (jobDescription : option ResumeTailor.JobPosting)
    (a b c : ResumeTailor.Experience) :
  ResumeTailor.truthy (ResumeTailor.description_of jobDescription) = true ->
  In a experience -> In b experience -> In c experience ->
  TailorSpec.in_orderb (ResumeTailor.with_score jobKeywords a)
    (ResumeTailor.with_score jobKeywords b) = true ->
  TailorSpec.in_orderb (ResumeTailor.with_score jobKeywords b)
    (ResumeTailor.with_score jobKeywords c) = true ->
  TailorSpec.in_orderb (ResumeTailor.with_score jobKeywords a)
    (ResumeTailor.with_score jobKeywords c) = false ->
  exists arrangement : list ResumeTailor.Experience,
    Permutation experience arrangement
    /\ ~ TailorSpec.experienceClaim
           (ResumeTailor.prioritizeExperience jobKeywords (Some arrangement)
              jobDescription).
Proof.
  intros Hdesc Ha Hb Hc Hab Hbc Hac.
  set (ws := ResumeTailor.with_score jobKeywords) in *.
  assert (Hne_ab : a <> b) by (intros ->; congruence).
  assert (Hne_bc : b <> c) by (intros ->; congruence).
  assert (Hne_ac : a <> c).
  { intros ->. subst ws.
    now rewrite ExperienceFacts.in_orderb_refl in Hac. }
  destruct (ExperienceFacts.three_last Hne_ab Hne_ac Hne_bc Ha Hb Hc)
    as [rest Hperm].
  exists (rest ++ [a; b; c]). split; [exact Hperm|].
  assert (Hout : ResumeTailor.prioritizeExperience jobKeywords
                   (Some (rest ++ [a; b; c])) jobDescription
                 = JS.sort ResumeTailor.compareExperience
                     (map ws rest ++ [ws a; ws b; ws c])).
  { unfold ResumeTailor.prioritizeExperience. rewrite Hdesc. cbn [negb].
    rewrite map_app. now destruct rest. }
  rewrite Hout. clear Hout Hperm.
  assert (Hfront : exists front behind,
             JS.sort ResumeTailor.compareExperience
               (map ws rest ++ [ws a; ws b; ws c])
             = front ++ ws a :: behind /\ In (ws c) behind).
  { induction rest as [|x rest IH]; cbn [map app JS.sort].
    - cbn [JS.insert].
      rewrite (@ExperienceFacts.before_in_orderb (ws b) (ws c) _ _
                 eq_refl eq_refl), Hbc.
      cbn [JS.insert].
      rewrite (@ExperienceFacts.before_in_orderb (ws a) (ws b) _ _
                 eq_refl eq_refl), Hab.
      exists [], [ws b; ws c]. split; [reflexivity|]. right. now left.
    - now apply ExperienceFacts.insert_keeps_front. }
  destruct Hfront as [front [behind [-> Hin]]].
  destruct (in_split _ _ Hin) as [l2 [l3 ->]].
  intros Hclaim.
  assert (Hord := Hclaim front l2 l3 (ws a) (ws c) eq_refl).
  apply ExperienceFacts.in_order_decided in Hord. congruence.
Qed.

(** ** ATSDetector *)

Module DetectorFacts.
Import JS Model ATSDetector DetectorSpec.

Lemma matchPattern_matches (url hostname pattern : string) :
  compiles pattern ->
  matchPattern url hostname pattern = Some (Normal (matches url pattern)).
Proof.
  unfold compiles, matchPattern, matches. intros [regex ->]. reflexivity.
Qed.

Lemma matchesUrl_loop_existsb (url hostname : string) (ps : list string) :
  Forall compiles ps ->
  matchesUrl_loop url hostname ps = Some (Normal (existsb (matches url) ps)).
Proof.
  induction 1 as [|p ps Hp _ IH]; simpl; [reflexivity|].
  rewrite (matchPattern_matches url hostname Hp).
  destruct (matches url p); [reflexivity|exact IH].
Qed.

Lemma isExcluded_loop_existsb (url : string) (ps : list string) :
  Forall compiles ps ->
  isExcluded_loop url ps = Some (Normal (existsb (matches url) ps)).
Proof.
  induction 1 as [|p ps Hp _ IH]; simpl; [reflexivity|].
  unfold matches at 1. destruct Hp as [regex ->].
  destruct (RegExp.test true regex url); [reflexivity|exact IH].
Qed.

Lemma matchesUrl_included (url hostname : string) (config : ATSConfig) :
  Forall compiles (patterns_of config) ->
  matchesUrl url hostname config = Some (Normal (included url config)).
Proof.
  unfold patterns_of, matchesUrl, included. intros H.
  destruct (urls config); [|reflexivity].
  apply matchesUrl_loop_existsb. apply Forall_app in H. tauto.
Qed.

Lemma isExcluded_excluded (url : string) (config : ATSConfig) :
  Forall compiles (patterns_of config) ->
  isExcluded url config = Some (Normal (excluded url config)).
Proof.
  unfold patterns_of, isExcluded, excluded. intros H.
  destruct (urlsExcluded config); [|reflexivity].
  apply isExcluded_loop_existsb. apply Forall_app in H. tauto.
Qed.

(** The chain of [replace] calls works character by character, and makes
    a run of dots of [*] and one dot of [?]. *)
Lemma replace_char_app (c : ascii) (by_ x y : string) :
  replace_char c by_ (x ++ y)
  = (replace_char c by_ x ++ replace_char c by_ y)%string.
Proof.
  induction x as [|a x IH]; simpl; [reflexivity|].
  destruct (Ascii.eqb a c); rewrite IH; [|reflexivity].
  now rewrite StringFacts.append_assoc.
Qed.

Lemma regexPattern_cons (c : ascii) (rest : string) :
  regexPattern (String c rest) = (translate_char c ++ regexPattern rest)%string.
Proof.
  unfold regexPattern, translate_char.
  cbn [replace_char].
  destruct (Ascii.eqb_spec c "*") as [->|H1].
  { rewrite !replace_char_app. reflexivity. }
  cbn [replace_char].
  destruct (Ascii.eqb_spec c "?") as [->|H2].
  { rewrite !replace_char_app. reflexivity. }
  cbn [replace_char].
  destruct (Ascii.eqb_spec c "/") as [->|H3].
  { rewrite !replace_char_app. reflexivity. }
  cbn [replace_char].
  destruct (Ascii.eqb_spec c ".") as [->|H4]; reflexivity.
Qed.

Lemma regexPattern_chars (pattern : string) :
  regexPattern pattern = translate pattern.
Proof.
  induction pattern as [|c rest IH]; [reflexivity|].
  rewrite regexPattern_cons. simpl. now rewrite IH.
Qed.

Lemma ATS_CONFIGS_well_formed : well_formed Demo.ATS_CONFIGS.
Proof.
  intros entry [<-|[<-|[<-|[]]]]; repeat constructor;
    eexists; vm_compute; reflexivity.
Qed.


End DetectorFacts.

(** ** Patterns without special characters are read *)

Module PatternFacts.
Import JS RegExp ATSDetector DetectorSpec.

Lemma quantifier_unquantified (atom : regex) (s : string) :
  unquantified s = true -> quantifier atom s = (atom, s).
Proof.
  destruct s as [|c s]; [reflexivity|].
  destruct c as [[] [] [] [] [] [] [] []]; try discriminate; reflexivity.
Qed.

Lemma term_literal (c : ascii) (rest : string) (f gi : nat) :
  special c = false -> wildcard c = false -> unquantified rest = true ->
  term (S f) (String c rest) gi = inl (Lit c, rest, gi).
Proof.
  intros Hs Hw Hq.
  destruct c as [[] [] [] [] [] [] [] []]; try discriminate;
    cbn [term]; now rewrite quantifier_unquantified.
Qed.

Lemma quantifier_star (atom : regex) (s : string) :
  unquantified s = true ->
  quantifier atom (String "*" s) = (Rep 0 None true atom, s).
Proof.
  destruct s as [|c s]; [reflexivity|].
  destruct c as [[] [] [] [] [] [] [] []]; try discriminate; reflexivity.
Qed.

Lemma translate_unquantified (p : string) :
  plain p = true -> unquantified (translate p) = true.
Proof.
  destruct p as [|c p]; [reflexivity|].
  destruct c as [[] [] [] [] [] [] [] []]; try discriminate; reflexivity.
Qed.

Lemma alternative_cons (f : nat) (c : ascii) (s : string) (gi : nat) :
  c <> "|"%char -> c <> ")"%char ->
  alternative (S f) (String c s) gi
  = match term f (String c s) gi with
    | inl (r1, rest, gi1) =>
        match alternative f rest gi1 with
        | inl (r2, rest2, gi2) => inl (Cat r1 r2, rest2, gi2)
        | inr e => inr e
        end
    | inr e => inr e
    end.
Proof.
  intros H1 H2.
  destruct c as [[] [] [] [] [] [] [] []]; try reflexivity; contradiction.
Qed.

Lemma term_escaped (c : ascii) (rest : string) (f gi : nat) (atom : regex) :
  escape c = inl atom ->
  term (S f) (String "\" (String c rest)) gi
  = inl (fst (quantifier atom rest), snd (quantifier atom rest), gi).
Proof.
  intros H. cbn [term]. rewrite H. now destruct (quantifier atom rest).
Qed.

Lemma term_translate_char (c : ascii) (p : string) (f gi : nat) :
  special c = false -> plain p = true ->
  exists r, term (S f) (translate_char c ++ translate p) gi
            = inl (r, translate p, gi).
Proof.
  intros Hs Hp.
  assert (Hq := translate_unquantified Hp).
  destruct (wildcard c) eqn:Hw.
  - assert (Hc : c = "*"%char \/ c = "?"%char \/ c = "/"%char \/ c = "."%char).
    { destruct c as [[] [] [] [] [] [] [] []]; try discriminate; auto. }
    destruct Hc as [-> | [-> | [-> | ->]]]; eexists;
      cbn [translate_char Ascii.eqb Bool.eqb append];
      (erewrite term_escaped; [|reflexivity]).
    + rewrite quantifier_star by exact Hq. reflexivity.
    + rewrite quantifier_unquantified by exact Hq. reflexivity.
    + rewrite quantifier_unquantified by exact Hq. reflexivity.
    + rewrite quantifier_unquantified by exact Hq. reflexivity.
  - exists (Lit c).
    assert (Ht : translate_char c = String c EmptyString).
    { destruct c as [[] [] [] [] [] [] [] []]; try discriminate; reflexivity. }
    rewrite Ht. simpl. now apply term_literal.
Qed.

Lemma alternative_translate (p : string) :
  forall fuel gi : nat,
    plain p = true -> String.length p + 2 <= fuel ->
    exists r, alternative fuel (translate p) gi = inl (r, EmptyString, gi).
Proof.
  induction p as [|c p IH]; intros fuel gi Hp Hfuel.
  - destruct fuel as [|f]; [simpl in Hfuel; lia|].
    now exists Eps.
  - simpl in Hp. apply andb_true_iff in Hp. destruct Hp as [Hc Hp].
    apply negb_true_iff in Hc.
    destruct fuel as [|[|f]]; simpl in Hfuel; try lia.
    destruct (term_translate_char f gi Hc Hp) as [r1 Hterm].
    destruct (IH (S f) gi Hp) as [r2 Hrest]; [lia|].
    cbn [translate].
    assert (Hhead : exists a s, (translate_char c ++ translate p)%string
                                = String a s
                                /\ a <> "|"%char /\ a <> ")"%char).
    { destruct c as [[] [] [] [] [] [] [] []]; try discriminate;
        eexists; eexists; (split; [reflexivity|split; discriminate]). }
    destruct Hhead as [a [s [Hs [Ha1 Ha2]]]].
    rewrite Hs in *. rewrite (@alternative_cons (S f) a s gi Ha1 Ha2).
    rewrite Hterm, Hrest. now exists (Cat r1 r2).
Qed.

Lemma length_translate (p : string) :
  String.length p <= String.length (translate p).
Proof.
  induction p as [|c p IH]; [reflexivity|].
  cbn [translate].
  assert (H : forall a b : string,
             String.length (a ++ b) = String.length a + String.length b).
  { intros a b. induction a; simpl; auto. }
  rewrite H.
  assert (1 <= String.length (translate_char c)).
  { unfold translate_char.
    destruct (Ascii.eqb c "*"), (Ascii.eqb c "?"), (Ascii.eqb c "/"),
      (Ascii.eqb c "."); simpl; lia. }
  simpl. lia.
Qed.

Lemma plain_compiles (pattern : string) :
  plain pattern = true -> compiles pattern.
Proof.
  intros Hp. unfold compiles, compile.
  rewrite DetectorFacts.regexPattern_chars.
  assert (Hlen := length_translate pattern).
  remember (4 * String.length (translate pattern) + 8) as fuel eqn:Hfuel.
  destruct fuel as [|f]; [lia|].
  destruct (@alternative_translate pattern f 0 Hp) as [r Hr]; [lia|].
  exists r. cbn [disjunction]. now rewrite Hr.
Qed.

End PatternFacts.

(** The selection of [detect], patterns read as the code reads them: on a
    registry whose patterns the engine accepts, [detect] returns the first
    platform, in registry order, of which the detector's own match accepts
    an inclusion pattern and no exclusion pattern, and none when there is no
    such platform. *)
Lemma detect_first_included_not_excluded
    (configs : Registry) (url hostname : string) :
  DetectorSpec.well_formed configs ->
  exists found : option (string * ATSConfig),
    ATSDetector.detect configs url hostname = Some (Normal found)
    /\ match found with
       | Some (platform, config) =>
           exists earlier later : Registry,
             configs = earlier ++ (platform, config) :: later
             /\ DetectorSpec.included url config = true
             /\ DetectorSpec.excluded url config = false
             /\ Forall (fun entry =>
                          DetectorSpec.eligible url (snd entry) = false)
                       earlier
       | None =>
           Forall (fun entry =>
                     DetectorSpec.eligible url (snd entry) = false)
                  configs
       end.
Proof.
  unfold ATSDetector.detect.
  induction configs as [|[platform config] rest IH]; intros Hwf.
  - exists None. split; [reflexivity|constructor].
  - assert (Hhere : Forall DetectorSpec.compiles
                      (DetectorSpec.patterns_of config)).
    { apply (Hwf (platform, config)). now left. }
    assert (Hrest : DetectorSpec.well_formed rest).
    { intros entry Hentry. apply Hwf. now right. }
    destruct (IH Hrest) as [found [Hfound Hspec]].
    simpl.
    rewrite (DetectorFacts.matchesUrl_included url hostname Hhere).
    rewrite (DetectorFacts.isExcluded_excluded url Hhere).
    destruct (DetectorSpec.included url config) eqn:Hin;
      [destruct (DetectorSpec.excluded url config) eqn:Hex|].
    + exists found. split; [exact Hfound|].
      assert (Hno : DetectorSpec.eligible url config = false).
      { unfold DetectorSpec.eligible. now rewrite Hin, Hex. }
      destruct found as [[p c]|].
      * destruct Hspec as [earlier [later [-> [H1 [H2 H3]]]]].
        exists ((platform, config) :: earlier), later.
        repeat split; auto.
      * now constructor.
    + exists (Some (platform, config)). split; [reflexivity|].
      exists [], rest. repeat split; auto.
    + exists found. split; [exact Hfound|].
      assert (Hno : DetectorSpec.eligible url config = false).
      { unfold DetectorSpec.eligible. now rewrite Hin. }
      destruct found as [[p c]|].
      * destruct Hspec as [earlier [later [-> [H1 [H2 H3]]]]].
        exists ((platform, config) :: earlier), later.
        repeat split; auto.
      * now constructor.
Qed.

(** C1 fails on the repository's own registry: a Workday URL conforms to
    the Workday pattern, read as the specification reads patterns, and
    [matchPattern] rejects it; the translation turns [*] into [\.*], a run
    of dots, because the dots that [*] and [?] were replaced by are escaped
    by the last [replace]. *)
Lemma matchPattern_rejects_workday_url :
  ATSDetector.regexPattern "*://*.myworkdayjobs.com/*"
  = "\.*:\/\/\.*\.myworkdayjobs\.com\/\.*"%string
  /\ DetectorSpec.globMatches "*://*.myworkdayjobs.com/*"
       "https://acme.wd1.myworkdayjobs.com/en-US/careers" = true
  /\ ATSDetector.matchPattern
       "https://acme.wd1.myworkdayjobs.com/en-US/careers"
       "acme.wd1.myworkdayjobs.com" "*://*.myworkdayjobs.com/*"
     = Some (Normal false)
  /\ ATSDetector.detect Demo.ATS_CONFIGS
       "https://acme.wd1.myworkdayjobs.com/en-US/careers"
       "acme.wd1.myworkdayjobs.com"
     = Some (Normal None).
Proof. vm_compute. repeat split; reflexivity. Qed.

(** The same defect in an exclusion: the confirmation page of a Greenhouse
    board conforms to the exclusion pattern of the registry, read as the
    specification reads patterns, and the detector's translation of that
    pattern does not match it, so the page is detected as Greenhouse. *)
Lemma detect_greenhouse_confirmation_page :
  DetectorSpec.globMatches "*://boards.greenhouse.io/*/confirmation"
    "https://boards.greenhouse.io/acme/confirmation" = true
  /\ DetectorSpec.excluded "https://boards.greenhouse.io/acme/confirmation"
       Demo.GREENHOUSE_CONFIG = false
  /\ ATSDetector.detect Demo.ATS_CONFIGS
       "https://boards.greenhouse.io/acme/confirmation" "boards.greenhouse.io"
     = Some (Normal (Some ("Greenhouse"%string, Demo.GREENHOUSE_CONFIG))).
Proof. vm_compute. repeat split; reflexivity. Qed.

(** C2 fails on the repository's own registry.  The confirmation page of a
    Greenhouse board matches an inclusion pattern and the exclusion pattern
    of Greenhouse, read as the specification reads patterns, and no pattern
    of another platform: the specification has [detect] return none.
    [detect] returns Greenhouse, because its translation of the exclusion
    pattern, in which [*] has become a run of dots, does not match the
    page. *)
Lemma detect_returns_excluded_confirmation_page :
  DetectorSpec.includedBy DetectorSpec.globMatches
    "https://boards.greenhouse.io/acme/confirmation" Demo.GREENHOUSE_CONFIG
  = true
  /\ DetectorSpec.excludedBy DetectorSpec.globMatches
       "https://boards.greenhouse.io/acme/confirmation" Demo.GREENHOUSE_CONFIG
     = true
  /\ DetectorSpec.claimedDetect Demo.ATS_CONFIGS
       "https://boards.greenhouse.io/acme/confirmation"
     = None
  /\ ATSDetector.regexPattern "*://boards.greenhouse.io/*/confirmation"
     = "\.*:\/\/boards\.greenhouse\.io\/\.*\/confirmation"%string
  /\ ATSDetector.isExcluded "https://boards.greenhouse.io/acme/confirmation"
       Demo.GREENHOUSE_CONFIG
     = Some (Normal false)
  /\ ATSDetector.detect Demo.ATS_CONFIGS
       "https://boards.greenhouse.io/acme/confirmation" "boards.greenhouse.io"
     = Some (Normal (Some ("Greenhouse"%string, Demo.GREENHOUSE_CONFIG))).
Proof. vm_compute. repeat split; reflexivity. Qed.

(** The translation leaves a parenthesis as it is, so on a registry with
    a pattern that opens a group [detect] raises where the specification
    has it return none. *)
Lemma detect_raises_on_unbalanced_pattern :
  DetectorSpec.claimedDetect Demo.UNBALANCED_CONFIGS
    "https://jobs.lever.co/figma/abcd-1234" = None
  /\ ATSDetector.detect Demo.UNBALANCED_CONFIGS
       "https://jobs.lever.co/figma/abcd-1234" "jobs.lever.co"
     = Some (Throw SyntaxError).
Proof. vm_compute. split; reflexivity. Qed.

(** ** JobExtractor *)
(** The three expressions of [extractYearsOfExperience] are read. *)
Lemma patterns_read :
  Forall (fun source => exists regex, RegExp.compile source = inl regex)
    JobExtractor.patterns.
Proof. repeat constructor; eexists; vm_compute; reflexivity. Qed.

(** C4 fails: none of the three expressions matches the sentence (the first
    wants [experience] right after [years of]), so the result is [null]. *)
Lemma extractYearsOfExperience_go_kubernetes :
  JobExtractor.extractYearsOfExperience
    (Some "We need 5+ years of Go and Kubernetes experience"%string)
  = Some (Normal None)
  /\ JobExtractor.extractYearsOfExperience
       (Some "We need 5+ years of experience with Go and Kubernetes"%string)
     = Some (Normal (Some (Num 5))).
Proof. vm_compute. split; reflexivity. Qed.

(** ** FormFiller *)

Module FillerFacts.
Import JS Model FormFiller FillerSpec.

Section WithDom.
Context {D : Dom}.

Lemma only_lookups_refl (w : World) : only_lookups w w.
Proof. repeat split. now exists []. Qed.

Lemma only_lookups_trans (w1 w2 w3 : World) :
  only_lookups w1 w2 -> only_lookups w2 w3 -> only_lookups w1 w3.
Proof.
  intros [Hp1 [Hc1 [s1 Ht1]]] [Hp2 [Hc2 [s2 Ht2]]].
  repeat split; try congruence.
  exists (s2 ++ s1). rewrite Ht2, Ht1, map_app. now rewrite app_assoc.
Qed.

Lemma findElement_only_lookups (selector : string) (w : World) :
  fst (findElement selector w) = find (page w) selector
  /\ only_lookups w (snd (findElement selector w)).
Proof.
  unfold findElement. simpl. repeat split. now exists [selector].
Qed.

Lemma findFirstOf_only_lookups (paths : list string) (w : World) :
  only_lookups w (snd (findFirstOf paths w)).
Proof.
  revert w. induction paths as [|path rest IH]; intros w; simpl.
  - apply only_lookups_refl.
  - unfold bind.
    destruct (findElement_only_lookups path w) as [Hr Hq].
    destruct (findElement path w) as [[[e|]|err] w1]; simpl in *; auto.
    eapply only_lookups_trans; [exact Hq|apply IH].
Qed.

(** When no path resolves, the search returns [null] or raises. *)
Lemma findFirstOf_unresolved (paths : list string) (w : World) :
  Forall (unresolved (page w)) paths ->
  forall e : Elem, fst (findFirstOf paths w) <> Normal (Some e).
Proof.
  revert w. induction paths as [|path rest IH]; intros w Hall e; simpl.
  - discriminate.
  - inversion Hall as [|? ? Hpath Hrest]; subst.
    unfold bind.
    destruct (findElement_only_lookups path w) as [Hr [Hpage _]].
    destruct (findElement path w) as [[[e'|]|err] w1]; simpl in *.
    + exfalso. apply (Hpath e'). now symmetry.
    + apply IH. now rewrite Hpage.
    + discriminate.
Qed.

(** A selector configuration none of whose locators resolves fills
    nothing, whatever it raises. *)
Lemma tryFillWithSelector_unresolved (fieldName : string)
    (selectorConfig : SelectorConfig) (value : JSValue) (atsConfig : ATSConfig)
    (w : World) :
  Forall (unresolved (page w)) (locators selectorConfig) ->
  exists w',
    try_catch (tryFillWithSelector fieldName selectorConfig value atsConfig)
      (fun _ => ret false) w = (Normal false, w')
    /\ only_lookups w w'.
Proof.
  intros Hall. unfold try_catch.
  destruct selectorConfig as [selector|config| |]; simpl.
  - unfold fillSimpleSelector, bind.
    inversion Hall as [|? ? Hsel _]; subst.
    destruct (findElement_only_lookups selector w) as [Hr Hq].
    destruct (findElement selector w) as [[[e|]|err] w1]; simpl in *.
    + exfalso. apply (Hsel e). now symmetry.
    + now exists w1.
    + now exists w1.
  - unfold fillComplexSelector, findByPaths, bind. simpl in Hall.
    destruct (c_path config) as [[path|paths]|].
    + assert (Hq := findFirstOf_only_lookups [path] w).
      assert (Hn := findFirstOf_unresolved Hall).
      destruct (findFirstOf [path] w) as [[[e|]|err] w1]; simpl in *.
      * exfalso. now apply (Hn e).
      * now exists w1.
      * now exists w1.
    + assert (Hq := findFirstOf_only_lookups paths w).
      assert (Hn := findFirstOf_unresolved Hall).
      destruct (findFirstOf paths w) as [[[e|]|err] w1]; simpl in *.
      * exfalso. now apply (Hn e).
      * now exists w1.
      * now exists w1.
    + exists w. split; [reflexivity|apply only_lookups_refl].
  - exists w. split; [reflexivity|apply only_lookups_refl].
  - exists w. split; [reflexivity|apply only_lookups_refl].
Qed.

Lemma fillField_loop_unresolved (fieldName : string)
    (configList : list SelectorConfig) (value : JSValue) (atsConfig : ATSConfig)
    (w : World) :
  Forall (unresolved (page w)) (flat_map locators configList) ->
  exists w',
    fillField_loop fieldName configList value atsConfig w = (Normal false, w')
    /\ only_lookups w w'.
Proof.
  revert w. induction configList as [|sc rest IH]; intros w Hall.
  - exists w. split; [reflexivity|apply only_lookups_refl].
  - simpl in Hall. apply Forall_app in Hall. destruct Hall as [Hsc Hrest].
    destruct (tryFillWithSelector_unresolved fieldName value atsConfig Hsc)
      as [w1 [Htry Hq1]].
    cbn [fillField_loop]. unfold bind at 1. rewrite Htry.
    destruct Hq1 as [Hpage Hq1'].
    destruct (IH w1) as [w2 [Hloop Hq2]]; [now rewrite Hpage|].
    exists w2. split; [exact Hloop|].
    eapply only_lookups_trans; [|exact Hq2]. now split.
Qed.

(** [fillField] returns and never raises. *)
Lemma fillField_loop_returns (fieldName : string)
    (configList : list SelectorConfig) (value : JSValue) (atsConfig : ATSConfig)
    (w : World) :
  exists (filled : bool) (w' : World),
    fillField_loop fieldName configList value atsConfig w = (Normal filled, w').
Proof.
  revert w. induction configList as [|sc rest IH]; intros w.
  - now exists false, w.
  - cbn [fillField_loop]. unfold bind at 1, try_catch.
    destruct (tryFillWithSelector fieldName sc value atsConfig w)
      as [[[|]|err] w1].
    + now exists true, w1.
    + apply IH.
    + simpl. apply IH.
Qed.

Lemma fillField_returns (fieldName : string) (selectorConfigs : SelectorConfigs)
    (data : TailoredData) (atsConfig : ATSConfig) (w : World) :
  exists (filled : bool) (w' : World),
    fillField fieldName selectorConfigs data atsConfig w = (Normal filled, w').
Proof.
  unfold fillField.
  destruct (String.eqb fieldName "resume"); [now exists false, w|].
  match goal with |- context [if ?c then _ else _] => destruct c end.
  - now exists false, w.
  - apply fillField_loop_returns.
Qed.

Lemma fillField_resume (selectorConfigs : SelectorConfigs)
    (data : TailoredData) (atsConfig : ATSConfig) (w : World) :
  fillField "resume" selectorConfigs data atsConfig w = (Normal false, w).
Proof. reflexivity. Qed.

(** One round of the loop of [fill]. *)
Lemma fill_loop_step (fieldName : string) (selectorConfigs : SelectorConfigs)
    (rest : list (string * SelectorConfigs)) (data : TailoredData)
    (config : ATSConfig) (filled skipped : nat) (w w' : World) (ok : bool) :
  fillField fieldName selectorConfigs data config w = (Normal ok, w') ->
  fill_loop ((fieldName, selectorConfigs) :: rest) data config filled skipped w
  = fill_loop rest data config
      (if ok then S filled else filled) (if ok then skipped else S skipped)
      (after_pause w').
Proof.
  intros H. cbn [fill_loop]. unfold bind at 1. rewrite H.
  unfold bind at 1, after_pause. simpl. now destruct ok.
Qed.

(** Every field adds one to one counter; a resume entry adds to the
    skipped ones. *)
Lemma fill_loop_counts (selectors : list (string * SelectorConfigs))
    (data : TailoredData) (config : ATSConfig) (filled skipped : nat)
    (w : World) :
  exists (r : FormFillResult) (w' : World),
    fill_loop selectors data config filled skipped w = (Normal r, w')
    /\ filledCount r + skipCount r = filled + skipped + length selectors
    /\ skipped + resume_entries selectors <= skipCount r.
Proof.
  revert filled skipped w.
  induction selectors as [|[fieldName cfgs] rest IH]; intros filled skipped w.
  - exists {| filledCount := filled; skipCount := skipped |}, w.
    unfold resume_entries. simpl. repeat split; lia.
  - destruct (fillField_returns fieldName cfgs data config w) as [ok [w1 Hok]].
    rewrite (fill_loop_step rest filled skipped Hok).
    destruct (IH (if ok then S filled else filled)
                 (if ok then skipped else S skipped) (after_pause w1))
      as [r [w' [Hr [Hsum Hskip]]]].
    exists r, w'. split; [exact Hr|].
    unfold resume_entries in *. simpl.
    destruct (String.eqb_spec fieldName "resume") as [->|Hne].
    + rewrite fillField_resume in Hok. injection Hok as <- <-.
      simpl in *. split; lia.
    + destruct ok; simpl in *; split; lia.
Qed.

(** *** Waiting *)

Lemma findFirstOf_one (path : string) (w : World) :
  findFirstOf [path] w
  = (find (page w) path,
     {| page := page w; clock := clock w; trace := Lookup path :: trace w |}).
Proof.
  simpl. unfold bind, findElement.
  destruct (find (page w) path) as [[e|]|err]; reflexivity.
Qed.

Lemma waitLoop_S (fuel : nat) (paths : list string) (start timeout : Z)
    (w : World) :
  waitLoop (S fuel) paths start timeout w
  = if (clock w - start <? timeout)%Z
    then bind (findFirstOf paths)
           (fun element =>
              match element with
              | Some e => ret (Some e)
              | None =>
                  bind (delay 100)
                    (fun _ => waitLoop fuel paths start timeout)
              end) w
    else (Normal None, w).
Proof. reflexivity. Qed.

(** More fuel than the timeout asks for changes nothing: the clock ends the
    loop. *)
Lemma waitLoop_fuel (fuel : nat) (paths : list string) (start timeout : Z)
    (w : World) :
  (timeout <= clock w - start + 100 * Z.of_nat fuel)%Z ->
  waitLoop (S fuel) paths start timeout w = waitLoop fuel paths start timeout w.
Proof.
  revert w. induction fuel as [|fuel IH]; intros w Hfuel.
  - cbn [waitLoop].
    destruct (Z.ltb_spec (clock w - start) timeout); [lia|reflexivity].
  - rewrite (waitLoop_S (S fuel)), (waitLoop_S fuel).
    destruct (Z.ltb_spec (clock w - start) timeout); [|reflexivity].
    unfold bind at 1 3.
    assert (Hq := findFirstOf_only_lookups paths w).
    destruct (findFirstOf paths w) as [[[e|]|err] w1]; try reflexivity.
    destruct Hq as [_ [Hclock _]]. simpl in Hclock.
    unfold bind, delay. apply IH. cbn [clock]. rewrite Hclock. lia.
Qed.

Lemma waitLoop_never_appears (fuel : nat) (path : string) (start timeout : Z)
    (w : World) :
  (timeout <= clock w - start + 100 * Z.of_nat fuel)%Z ->
  (forall k : nat, (clock w - start + 100 * Z.of_nat k < timeout)%Z ->
     find (page_after k (page w)) path = Normal None) ->
  exists w', waitLoop fuel [path] start timeout w = (Normal None, w').
Proof.
  revert w. induction fuel as [|fuel IH]; intros w Hfuel Hnever.
  - exists w. cbn [waitLoop].
    destruct (Z.ltb_spec (clock w - start) timeout); reflexivity.
  - rewrite waitLoop_S.
    destruct (Z.ltb_spec (clock w - start) timeout) as [Hlt|Hge];
      [|now exists w].
    unfold bind at 1. rewrite findFirstOf_one.
    assert (H0 : find (page w) path = Normal None)
      by (apply (Hnever 0%nat); lia).
    rewrite H0.
    unfold bind, delay. apply IH.
    + cbn [clock]. lia.
    + intros k Hk. cbn [clock page] in *.
      change (Z.max 0 100) with 100%Z.
      apply (Hnever (S k)). lia.
Qed.

Lemma waitForElement_never_appears (path : string) (timeout : Z) (w : World) :
  never_appears (page w) path timeout ->
  exists w', waitForElement path timeout w = (Normal None, w').
Proof.
  intros Hnever. unfold waitForElement.
  apply waitLoop_never_appears.
  - lia.
  - intros k Hk. apply Hnever. lia.
Qed.

Lemma stepDelay_returns (action : Action) (w : World) :
  stepDelay action w = (Normal tt, snd (stepDelay action w)).
Proof.
  unfold stepDelay. destruct (nonzero (a_delay action)); reflexivity.
Qed.

(** A step whose wait ends without the element. *)
Lemma executeActions_from_timeout (cur : Elem) (inputPath : option PathSpec)
    (action : Action) (rest : list Action) (value : JSValue)
    (path : string) (time : Z) (w wa w2 : World) :
  method_is (a_method action) "uploadResume" = false ->
  a_time action = Some time -> time <> 0%Z ->
  actionPath inputPath action = Some path -> path <> EmptyString ->
  executeAction cur action value w = (Normal tt, wa) ->
  waitForElement path time (snd (stepDelay action wa)) = (Normal None, w2) ->
  executeActions_from cur inputPath (action :: rest) value w
  = if a_allowFailure action
    then executeActions_from cur inputPath rest value w2
    else (Normal false, w2).
Proof.
  intros Hmethod Htime Hnz Hpath Hne Hact Hwait.
  cbn [executeActions_from]. rewrite Hmethod.
  unfold bind at 1. rewrite Hact.
  unfold bind at 1. rewrite stepDelay_returns.
  rewrite Htime, Hpath.
  destruct (Z.eqb_spec time 0) as [|_]; [contradiction|].
  destruct (String.eqb_spec path EmptyString) as [|_]; [contradiction|].
  cbn [negb andb]. unfold bind at 1. rewrite Hwait.
  now destruct (a_allowFailure action).
Qed.

End WithDom.
End FillerFacts.

Import FormFiller.

(** C9. [fill] returns, and the two counters of its result add up to the
    number of entries of the platform's selector table, whatever the page
    does and whatever is raised while a field is filled. *)
Theorem fill_counts_every_field {D : Dom} (config : ATSConfig)
    (tailoredData : TailoredData) (w : World) :
  exists (r : FormFillResult) (w' : World),
    fill config tailoredData w = (Normal r, w')
    /\ filledCount r + skipCount r = length (inputSelectors config).
Proof.
  unfold fill.
  destruct (FillerFacts.fill_loop_counts (inputSelectors config) tailoredData
              config 0 0 w) as [r [w' [Hr [Hsum _]]]].
  exists r, w'. split; [exact Hr|exact Hsum].
Qed.

(** C10. On the field named resume [fillField] returns a skip in the state
    it was called in: no locator was looked up and the page was not
    touched.  So every resume entry of the selector table is counted as
    skipped by [fill]. *)
Theorem fillField_resume_skipped {D : Dom} (selectorConfigs : SelectorConfigs)
    (data : TailoredData) (atsConfig : ATSConfig) (w : World) :
  fillField "resume" selectorConfigs data atsConfig w = (Normal false, w)
  /\ exists (r : FormFillResult) (w' : World),
       fill atsConfig data w = (Normal r, w')
       /\ FillerSpec.resume_entries (inputSelectors atsConfig) <= skipCount r.
Proof.
  split; [reflexivity|]. unfold fill.
  destruct (FillerFacts.fill_loop_counts (inputSelectors atsConfig) data
              atsConfig 0 0 w) as [r [w' [Hr [_ Hskip]]]].
  exists r, w'. split; [exact Hr|exact Hskip].
Qed.

(** C5. A field none of whose candidate locators resolves makes [fillField]
    return a skip without raising, having done nothing but look locators
    up.  A field whose value is falsy and is neither 0 nor false makes it
    return a skip in the state it was called in, so before any locator is
    looked up; with the value 0 or false the candidates are tried. *)
Theorem fillField_skips_without_raising {D : Dom} (fieldName : string)
    (selectorConfigs : SelectorConfigs) (data : TailoredData)
    (atsConfig : ATSConfig) (w : World) :
  (Forall (FillerSpec.unresolved (page w))
     (FillerSpec.locators_of selectorConfigs) ->
   exists w',
     fillField fieldName selectorConfigs data atsConfig w = (Normal false, w')
     /\ FillerSpec.only_lookups w w')
  /\ (truthy (getValueForField fieldName data) = false ->
      getValueForField fieldName data <> JNumber (Num 0) ->
      getValueForField fieldName data <> JBool false ->
      fillField fieldName selectorConfigs data atsConfig w = (Normal false, w))
  /\ (getValueForField fieldName data = JNumber (Num 0)
      \/ getValueForField fieldName data = JBool false ->
      fieldName <> "resume"%string ->
      fillField fieldName selectorConfigs data atsConfig w
      = fillField_loop fieldName
          (match selectorConfigs with
           | ConfigArray l => l
           | ConfigSingle c => [c]
           end)
          (getValueForField fieldName data) atsConfig w).
Proof.
  split; [|split].
  - intros Hall. unfold fillField.
    destruct (String.eqb fieldName "resume").
    { exists w. split; [reflexivity|apply FillerFacts.only_lookups_refl]. }
    match goal with |- context [if ?c then _ else _] => destruct c end.
    { exists w. split; [reflexivity|apply FillerFacts.only_lookups_refl]. }
    apply FillerFacts.fillField_loop_unresolved.
    destruct selectorConfigs as [l|c]; simpl in *; [exact Hall|].
    now rewrite app_nil_r.
  - intros Hfalsy Hzero Hfalse. unfold fillField.
    destruct (String.eqb fieldName "resume"); [reflexivity|].
    rewrite Hfalsy.
    destruct (getValueForField fieldName data) as [| |[|]|[[| |]| |]| |];
      try reflexivity; try discriminate; congruence.
  - intros Hvalue Hname. unfold fillField.
    destruct (String.eqb_spec fieldName "resume") as [|_]; [contradiction|].
    destruct Hvalue as [-> | ->]; reflexivity.
Qed.

(** C8. In an action sequence that has come to a step with a wait (a
    timeout other than 0 and a locator to wait for), when the step's own
    action has run and the awaited element is at no round of the wait on the
    page: with [allowFailure] the sequence goes on with the steps that
    follow and the element that was current; without it [executeActions]
    returns false at once, the selector configuration counts as not filled
    and [fillField] goes on to the field's next configuration.  Whatever a
    field returns, [fill] goes on with the fields that follow and
    completes. *)
Theorem required_wait_timeout_fails_the_locator_only {D : Dom}
    (start cur : Elem) (config : ComplexSelector) (earlier : list Action)
    (action : Action) (value : JSValue) (path : string) (time : Z)
    (w0 w wa : World) :
  (forall rest : list Action,
      executeActions start config (earlier ++ rest) value w0
      = executeActions_from cur (c_path config) rest value w) ->
  method_is (a_method action) "uploadResume" = false ->
  a_time action = Some time -> time <> 0%Z ->
  actionPath (c_path config) action = Some path -> path <> EmptyString ->
  executeAction cur action value w = (Normal tt, wa) ->
  FillerSpec.never_appears (page (snd (stepDelay action wa))) path time ->
  exists w2 : World,
    waitForElement path time (snd (stepDelay action wa)) = (Normal None, w2)
    /\ (a_allowFailure action = true ->
        forall rest : list Action,
          executeActions start config (earlier ++ action :: rest) value w0
          = executeActions_from cur (c_path config) rest value w2)
    /\ (a_allowFailure action = false ->
        (forall rest : list Action,
            executeActions start config (earlier ++ action :: rest) value w0
            = (Normal false, w2))
        /\ (forall (rest : list Action) (fieldName : string)
                   (others : list SelectorConfig) (value0 : JSValue)
                   (atsConfig : ATSConfig) (wq : World),
               c_actions config = Some (earlier ++ action :: rest) ->
               findByPaths (c_path config) wq = (Normal (Some start), w0) ->
               value = transformed config value0 ->
               tryFillWithSelector fieldName (Complex config) value0 atsConfig wq
               = (Normal false, w2)
               /\ fillField_loop fieldName (Complex config :: others) value0
                    atsConfig wq
                  = fillField_loop fieldName others value0 atsConfig w2))
    /\ (forall (fieldName : string) (selectorConfigs : SelectorConfigs)
               (remaining : list (string * SelectorConfigs))
               (data : TailoredData) (atsConfig : ATSConfig)
               (filled skipped : nat) (wf : World),
           exists (ok : bool) (wf' : World) (r : FormFillResult) (w' : World),
             fillField fieldName selectorConfigs data atsConfig wf
             = (Normal ok, wf')
             /\ fill_loop ((fieldName, selectorConfigs) :: remaining) data
                  atsConfig filled skipped wf
                = fill_loop remaining data atsConfig
                    (if ok then S filled else filled)
                    (if ok then skipped else S skipped)
                    (FillerSpec.after_pause wf')
             /\ fill_loop remaining data atsConfig
                  (if ok then S filled else filled)
                  (if ok then skipped else S skipped)
                  (FillerSpec.after_pause wf')
                = (Normal r, w')).
Proof.
  intros Hreach Hmethod Htime Hnz Hpath Hne Hact Hnever.
  destruct (FillerFacts.waitForElement_never_appears Hnever) as [w2 Hwait].
  assert (Hstep : forall rest,
             executeActions start config (earlier ++ action :: rest) value w0
             = if a_allowFailure action
               then executeActions_from cur (c_path config) rest value w2
               else (Normal false, w2)).
  { intros rest. rewrite Hreach.
    now apply (FillerFacts.executeActions_from_timeout
                 (inputPath := c_path config) rest
                 Hmethod Htime Hnz Hpath Hne Hact). }
  exists w2. split; [exact Hwait|]. split; [|split].
  - intros Hallow rest. rewrite Hstep, Hallow. reflexivity.
  - intros Hallow. split.
    + intros rest. rewrite Hstep, Hallow. reflexivity.
    + intros rest fieldName others value0 atsConfig wq Hactions Hfound Hvalue.
      assert (Htry : tryFillWithSelector fieldName (Complex config) value0
                       atsConfig wq = (Normal false, w2)).
      { cbn [tryFillWithSelector]. unfold fillComplexSelector, bind.
        rewrite Hfound, Hactions, <- Hvalue, Hstep, Hallow. reflexivity. }
      split; [exact Htry|].
      cbn [fillField_loop]. unfold bind at 1, try_catch. now rewrite Htry.
  - intros fieldName selectorConfigs remaining data atsConfig filled skipped wf.
    destruct (FillerFacts.fillField_returns fieldName selectorConfigs data
                atsConfig wf) as [ok [wf' Hok]].
    destruct (FillerFacts.fill_loop_counts remaining data atsConfig
                (if ok then S filled else filled)
                (if ok then skipped else S skipped)
                (FillerSpec.after_pause wf')) as [r [w' [Hr _]]].
    exists ok, wf', r, w'. split; [exact Hok|]. split; [|exact Hr].
    now apply FillerFacts.fill_loop_step.
Qed.

(** ** A page to run the filler on *)

Lemma page_after_static (k : nat) (p : list string) :
  FillerSpec.page_after (D := Demo.staticDom) k p = p.
Proof. revert p. induction k as [|k IH]; intros p; simpl; auto. Qed.


(** A use of C5 on the demonstration form: the first name has a value and
    no input, the last name has an input and an empty value. *)
Lemma fillField_skip_examples :
  (exists w',
      fillField (D := Demo.staticDom) "first_name"
        (ConfigArray
           [ Complex {| c_path := Some (OnePath ".//input[@id='first_name']");
                        c_method := Some "react"%string;
                        c_values := None; c_actions := None |};
             Simple "input[name='first']" ])
        Demo.profile Demo.greenhouse Demo.atStart
      = (Normal false, w')
      /\ FillerSpec.only_lookups Demo.atStart w')
  /\ fillField (D := Demo.staticDom) "last_name"
       (ConfigArray
          [ Complex {| c_path := Some (OnePath ".//input[@id='last_name']");
                       c_method := Some "react"%string;
                       c_values := None; c_actions := None |} ])
       Demo.profile Demo.greenhouse Demo.atStart
     = (Normal false, Demo.atStart).
Proof.
  split.
  - apply (proj1 (fillField_skips_without_raising (D := Demo.staticDom)
                    "first_name" _ Demo.profile Demo.greenhouse Demo.atStart)).
    repeat constructor; intros e; vm_compute; discriminate.
  - apply (proj1 (proj2 (fillField_skips_without_raising (D := Demo.staticDom)
                           "last_name" _ Demo.profile Demo.greenhouse
                           Demo.atStart))).
    + reflexivity.
    + vm_compute. discriminate.
    + vm_compute. discriminate.
Defined.

(** A use of C8 on the location field of Greenhouse: the suggestion list
    never shows, and the sequence returns false after the wait of 2500 ms
    that follows the 100 ms of typing. *)
Lemma location_wait_times_out :
  exists w2 : World (D := Demo.staticDom),
    executeActions (D := Demo.staticDom) Demo.locationInput Demo.locationConfig
      [Demo.plain "clearValue"; Demo.typeValue; Demo.awaitSuggestion;
       Demo.plain "blur"]
      (JString "London") Demo.found
    = (Normal false, w2)
    /\ clock w2 = 2600%Z.
Proof.
  destruct (required_wait_timeout_fails_the_locator_only
              (D := Demo.staticDom)
              (start := Demo.locationInput) (cur := Demo.locationInput)
              (config := Demo.locationConfig)
              (earlier := [Demo.plain "clearValue"; Demo.typeValue])
              (action := Demo.awaitSuggestion)
              (value := JString "London")
              (path := "//div[contains(@class, 'pac-item')]"%string)
              (time := 2500%Z)
              (w0 := Demo.found) (w := Demo.typed) (wa := Demo.hovered))
    as [w2 [Hwait [_ [Hfail _]]]].
  - intros rest. reflexivity.
  - reflexivity.
  - reflexivity.
  - discriminate.
  - reflexivity.
  - discriminate.
  - reflexivity.
  - intros k _. rewrite page_after_static. reflexivity.
  - exists w2. split.
    + apply (proj1 (Hfail eq_refl) [Demo.plain "blur"]).
    + vm_compute in Hwait. injection Hwait as <-. reflexivity.
Defined.

(** * Further properties of the code *)

(** ** ATSDetector: what a pattern matches *)

Module MeaningFacts.
Import JS RegExp ATSDetector DetectorSpec PatternMeaning PatternFacts.

Lemma matcher_Rep (icase : bool) (total : nat) (mn : nat) (mx : option nat)
    (greedy : bool) (r1 : regex) (k : cont) (s : string) (c : captures) :
  matcher icase total (Rep mn mx greedy r1) k s c
  = repetition icase total r1 greedy k (mn + String.length s + 1) mn mx s c.
Proof. reflexivity. Qed.

Lemma matcher_Cat (icase : bool) (total : nat) (r1 r2 : regex) (k : cont)
    (s : string) (c : captures) :
  matcher icase total (Cat r1 r2) k s c
  = matcher icase total r1 (fun s' c' => matcher icase total r2 k s' c') s c.
Proof. reflexivity. Qed.

Lemma matcher_Lit (icase : bool) (total : nat) (a : ascii) (k : cont)
    (s : string) (c : captures) :
  matcher icase total (Lit a) k s c
  = match s with
    | String b s' => if same_char icase a b then k s' c else None
    | EmptyString => None
    end.
Proof. reflexivity. Qed.

Lemma reset_nil (c : captures) : reset [] c = c.
Proof.
  unfold reset. induction c as [|e c IH]; [reflexivity|].
  cbn [filter existsb negb]. now f_equal.
Qed.

Lemma same_char_dot (b : ascii) : same_char true "." b = is_dot b.
Proof.
  destruct b as [[] [] [] [] [] [] [] []]; vm_compute; reflexivity.
Qed.

Lemma star_dots (total : nat) (k : cont) (f : string -> bool) (c : captures) :
  (forall s', succeeds (k s' c) = f s') ->
  forall (fuel : nat) (s : string),
    String.length s < fuel ->
    succeeds (repetition true total (Lit ".") true k fuel 0 None s c)
    = dots f s.
Proof.
  intros Hk. induction fuel as [|fuel IH]; intros s Hlen; [lia|].
  cbn [repetition Nat.eqb groups Nat.pred pred_max andb].
  rewrite reset_nil.
  destruct s as [|b s'].
  - cbn [matcher dots]. rewrite Hk. now rewrite orb_false_r.
  - cbn [matcher dots]. rewrite same_char_dot.
    destruct (is_dot b); cbn [andb].
    + assert (Hne : (String.length s' =? String.length (String b s')) = false).
      { apply Nat.eqb_neq. simpl. lia. }
      rewrite Hne.
      assert (Hrec := IH s'). simpl in Hlen.
      destruct (repetition true total (Lit ".") true k fuel 0 None s' c) eqn:Hr.
      * simpl in Hrec. rewrite <- Hrec by lia. simpl. now rewrite orb_true_r.
      * simpl in Hrec. rewrite <- Hrec by lia. rewrite Hk. now rewrite orb_false_r.
    + rewrite Hk. now rewrite orb_false_r.
Qed.

Lemma term_translate_atom (c : ascii) (p : string) (f gi : nat) :
  special c = false -> plain p = true ->
  term (S f) (translate_char c ++ translate p) gi
  = inl (atomOf c, translate p, gi).
Proof.
  intros Hs Hp.
  assert (Hq := translate_unquantified Hp).
  destruct (wildcard c) eqn:Hw.
  - assert (Hc : c = "*"%char \/ c = "?"%char \/ c = "/"%char \/ c = "."%char).
    { destruct c as [[] [] [] [] [] [] [] []]; try discriminate; auto. }
    destruct Hc as [-> | [-> | [-> | ->]]];
      cbn [translate_char atomOf Ascii.eqb Bool.eqb append];
      (erewrite term_escaped; [|reflexivity]).
    + rewrite quantifier_star by exact Hq. reflexivity.
    + rewrite quantifier_unquantified by exact Hq. reflexivity.
    + rewrite quantifier_unquantified by exact Hq. reflexivity.
    + rewrite quantifier_unquantified by exact Hq. reflexivity.
  - assert (Ht : translate_char c = String c EmptyString
                 /\ atomOf c = Lit c).
    { destruct c as [[] [] [] [] [] [] [] []]; try discriminate;
        split; reflexivity. }
    destruct Ht as [Ht Ha]. rewrite Ht, Ha. simpl. now apply term_literal.
Qed.

Lemma alternative_regexOf (p : string) :
  forall fuel gi : nat,
    plain p = true -> String.length p + 2 <= fuel ->
    alternative fuel (translate p) gi = inl (regexOf p, EmptyString, gi).
Proof.
  induction p as [|c p IH]; intros fuel gi Hp Hfuel.
  - destruct fuel as [|f]; [simpl in Hfuel; lia|]. reflexivity.
  - simpl in Hp. apply andb_true_iff in Hp. destruct Hp as [Hc Hp].
    apply negb_true_iff in Hc.
    destruct fuel as [|[|f]]; simpl in Hfuel; try lia.
    assert (Hterm := term_translate_atom f gi Hc Hp).
    assert (Hrest : alternative (S f) (translate p) gi
                    = inl (regexOf p, EmptyString, gi)) by (apply IH; [exact Hp|lia]).
    cbn [translate regexOf].
    assert (Hhead : exists a s, (translate_char c ++ translate p)%string
                                = String a s
                                /\ a <> "|"%char /\ a <> ")"%char).
    { destruct c as [[] [] [] [] [] [] [] []]; try discriminate;
        eexists; eexists; (split; [reflexivity|split; discriminate]). }
    destruct Hhead as [a [s [Hs [Ha1 Ha2]]]].
    rewrite Hs in *. rewrite (@alternative_cons (S f) a s gi Ha1 Ha2).
    now rewrite Hterm, Hrest.
Qed.

Lemma compile_plain (pattern : string) :
  plain pattern = true ->
  compile (regexPattern pattern) = inl (regexOf pattern).
Proof.
  intros Hp. unfold compile.
  rewrite DetectorFacts.regexPattern_chars.
  assert (Hlen := length_translate pattern).
  remember (4 * String.length (translate pattern) + 8) as fuel eqn:Hfuel.
  destruct fuel as [|f]; [lia|].
  cbn [disjunction].
  rewrite (@alternative_regexOf pattern f 0 Hp) by lia. reflexivity.
Qed.

Lemma matcher_regexOf (total : nat) (pattern : string) :
  forall (s : string) (c : captures),
    succeeds (matcher true total (regexOf pattern)
                (fun s' c' => Some (s', c')) s c)
    = reads pattern s.
Proof.
  induction pattern as [|a rest IH]; intros s c; [reflexivity|].
  cbn [regexOf reads]. unfold atomOf.
  destruct (Ascii.eqb a "*") eqn:Hstar.
  - rewrite matcher_Cat, matcher_Rep.
    apply star_dots; [|lia].
    intros s'. apply IH.
  - rewrite matcher_Cat.
    destruct (Ascii.eqb a "?") eqn:Hany; rewrite matcher_Lit;
      destruct s as [|b s']; try reflexivity.
    + rewrite same_char_dot. destruct (is_dot b); [apply IH|reflexivity].
    + destruct (same_char true a b); [apply IH|reflexivity].
Qed.

Lemma search_regexOf (total : nat) (pattern : string) (s : string) :
  forall skipped : nat,
    succeeds (search true total (regexOf pattern) skipped s)
    = occurs pattern s.
Proof.
  induction s as [|b s IH]; intros skipped; cbn [search occurs];
    unfold match_here.
  - rewrite <- (matcher_regexOf total pattern EmptyString []).
    now destruct (matcher _ _ _ _ _ _) as [[rest caps]|].
  - rewrite <- (matcher_regexOf total pattern (String b s) []).
    destruct (matcher _ _ _ _ _ _) as [[rest caps]|]; [reflexivity|].
    apply IH.
Qed.

(** On a pattern without special characters [matchPattern] looks for a part
    of the URL that reads as the pattern. *)
Lemma matchPattern_occurs (url hostname pattern : string) :
  plain pattern = true ->
  matchPattern url hostname pattern = Some (Normal (occurs pattern url)).
Proof.
  intros Hplain. unfold matchPattern.
  rewrite (compile_plain Hplain).
  unfold test, exec.
  rewrite <- (search_regexOf (String.length url) pattern url 0).
  now destruct (search _ _ _ _ _).
Qed.

End MeaningFacts.

Module WorkdayFacts.
Import JS Model RegExp ATSDetector DetectorSpec PatternMeaning MeaningFacts
  StringFacts.
Local Open Scope string_scope.

Lemma occurs_split (pattern url : string) :
  occurs pattern url = true ->
  exists pre suf, url = pre ++ suf /\ reads pattern suf = true.
Proof.
  induction url as [|b url IH]; cbn [occurs]; rewrite orb_true_iff.
  - intros [H|H]; [|discriminate]. now exists "", "".
  - intros [H|H]; [now exists "", (String b url)|].
    destruct (IH H) as [pre [suf [-> Hr]]]. now exists (String b pre), suf.
Qed.

(** After a run of dots, or none, comes what [rest] accepts. *)
Lemma dots_split (rest : string -> bool) (s : string) :
  dots rest s = true ->
  exists run tail,
    s = run ++ tail /\ rest tail = true
    /\ (run = "" \/ exists run', run = String "." run').
Proof.
  induction s as [|b s IH]; cbn [dots]; rewrite orb_true_iff.
  - intros [H|H]; [|discriminate]. exists "", "". auto.
  - intros [H|H]; [exists "", (String b s); auto|].
    apply andb_true_iff in H. destruct H as [Hb H].
    apply Ascii.eqb_eq in Hb. subst b.
    destruct (IH H) as [run [tail [-> [Ht _]]]].
    exists (String "." run), tail. split; [reflexivity|].
    split; [exact Ht|]. right. now exists run.
Qed.

Lemma same_colon (b : ascii) : same_char true ":" b = true -> b = ":"%char.
Proof.
  destruct b as [[] [] [] [] [] [] [] []]; vm_compute; congruence.
Qed.

Lemma same_slash (b : ascii) : same_char true "/" b = true -> b = "/"%char.
Proof.
  destruct b as [[] [] [] [] [] [] [] []]; vm_compute; congruence.
Qed.

Lemma same_dot (b : ascii) : same_char true "." b = true -> b = "."%char.
Proof.
  destruct b as [[] [] [] [] [] [] [] []]; vm_compute; congruence.
Qed.

(** A pattern that begins [*://*.] is read only where a dot follows
    [://]. *)
Lemma reads_behind_a_dot (host s : string) :
  reads ("*://*." ++ host) s = true -> includes s "://." = true.
Proof.
  cbn [append reads Ascii.eqb Bool.eqb]. intros H.
  apply dots_split in H.
  destruct H as [run [[|b1 [|b2 [|b3 tail]]] [-> [H _]]]]; try discriminate;
    try (apply andb_true_iff in H; destruct H as [_ H];
         try (apply andb_true_iff in H; destruct H as [_ H]);
         discriminate).
  apply andb_true_iff in H. destruct H as [H1 H].
  apply andb_true_iff in H. destruct H as [H2 H].
  apply andb_true_iff in H. destruct H as [H3 H].
  apply same_colon in H1. apply same_slash in H2. apply same_slash in H3.
  subst b1 b2 b3.
  apply dots_split in H.
  destruct H as [run2 [tail2 [-> [H Hrun2]]]].
  apply includes_spec.
  destruct Hrun2 as [->|[run' ->]].
  - destruct tail2 as [|b tail2]; [discriminate|].
    apply andb_true_iff in H. destruct H as [Hb _].
    apply same_dot in Hb. subst b.
    exists run, tail2. reflexivity.
  - exists run, (run' ++ tail2). reflexivity.
Qed.

Lemma occurs_behind_a_dot (host url : string) :
  occurs ("*://*." ++ host) url = true -> includes url "://." = true.
Proof.
  intros H. destruct (occurs_split H) as [pre [suf [-> Hr]]].
  apply reads_behind_a_dot in Hr. apply includes_spec in Hr.
  destruct Hr as [a [b ->]]. apply includes_spec.
  exists (pre ++ a), b. now rewrite append_assoc.
Qed.

Lemma detect_loop_matches (url hostname : string) (entries : Registry)
    (name : string) (config : ATSConfig) :
  detect_loop url hostname entries = Some (Normal (Some (name, config))) ->
  exists config' : ATSConfig,
    In (name, config') entries
    /\ config' = config
    /\ matchesUrl url hostname config' = Some (Normal true).
Proof.
  induction entries as [|[key cfg] rest IH]; simpl; [discriminate|].
  destruct (matchesUrl url hostname cfg) as [[[|]|e]|] eqn:Hm;
    try discriminate.
  - destruct (isExcluded url cfg) as [[[|]|e]|]; try discriminate.
    + intros H. destruct (IH H) as [c [Hin Hc]]. exists c. split; auto.
    + intros H. injection H as <- <-. exists cfg. auto.
  - intros H. destruct (IH H) as [c [Hin Hc]]. exists c. split; auto.
Qed.

End WorkdayFacts.

Module ConfigFacts.
Import JS Model ATSDetector.

Lemma detect_loop_In (url hostname : string) (entries : Registry)
    (name : string) (config : ATSConfig) :
  detect_loop url hostname entries = Some (Normal (Some (name, config))) ->
  In (name, config) entries.
Proof.
  induction entries as [|[key cfg] rest IH]; simpl; [discriminate|].
  destruct (matchesUrl url hostname cfg) as [[[|]|e]|]; try discriminate.
  - destruct (isExcluded url cfg) as [[[|]|e]|]; try discriminate.
    + intros H. right. now apply IH.
    + intros H. injection H as <- <-. now left.
  - intros H. right. now apply IH.
Qed.

Lemma own_config_In (configs : Registry) (name : string) (config : ATSConfig) :
  NoDup (map fst configs) -> In (name, config) configs ->
  own_config configs name = Some config.
Proof.
  induction configs as [|[key cfg] rest IH]; simpl; [contradiction|].
  intros Hnodup Hin. inversion Hnodup as [|? ? Hfresh Hrest]; subst.
  destruct Hin as [Heq|Hin].
  - injection Heq as -> ->. now rewrite String.eqb_refl.
  - destruct (String.eqb_spec key name) as [->|_]; [|now apply IH].
    exfalso. apply Hfresh. apply in_map_iff. now exists (name, config).
Qed.
End ConfigFacts.

Module SelectionFacts.
Import JS Model RegExp ATSDetector DetectorSpec PatternMeaning MeaningFacts.

Lemma matchesUrl_loop_occurs (url hostname : string) (ps : list string) :
  Forall (fun pattern => plain pattern = true) ps ->
  matchesUrl_loop url hostname ps
  = Some (Normal (existsb (fun pattern => occurs pattern url) ps)).
Proof.
  induction 1 as [|p ps Hp _ IH]; cbn [matchesUrl_loop existsb];
    [reflexivity|].
  rewrite (matchPattern_occurs url hostname Hp).
  destruct (occurs p url); [reflexivity|exact IH].
Qed.

(** [isExcluded] translates and tests a pattern as [matchPattern] does. *)
Lemma isExcluded_loop_occurs (url : string) (ps : list string) :
  Forall (fun pattern => plain pattern = true) ps ->
  isExcluded_loop url ps
  = Some (Normal (existsb (fun pattern => occurs pattern url) ps)).
Proof.
  induction 1 as [|p ps Hp _ IH]; cbn [isExcluded_loop existsb];
    [reflexivity|].
  assert (Htest := matchPattern_occurs url EmptyString Hp).
  unfold matchPattern in Htest. rewrite (compile_plain Hp) in *.
  injection Htest as ->.
  destruct (occurs p url); [reflexivity|exact IH].
Qed.

Lemma matchesUrl_includedBy (url hostname : string) (config : ATSConfig) :
  Forall (fun pattern => plain pattern = true) (patterns_of config) ->
  matchesUrl url hostname config = Some (Normal (includedBy occurs url config)).
Proof.
  unfold patterns_of, matchesUrl, includedBy. intros H.
  destruct (urls config); [|reflexivity].
  apply matchesUrl_loop_occurs. apply Forall_app in H. tauto.
Qed.

Lemma isExcluded_excludedBy (url : string) (config : ATSConfig) :
  Forall (fun pattern => plain pattern = true) (patterns_of config) ->
  isExcluded url config = Some (Normal (excludedBy occurs url config)).
Proof.
  unfold patterns_of, isExcluded, excludedBy. intros H.
  destruct (urlsExcluded config); [|reflexivity].
  apply isExcluded_loop_occurs. apply Forall_app in H. tauto.
Qed.

End SelectionFacts.

(** X1. On a pattern that holds none of the characters \ ^ $ + ( ) [ { |
    [matchPattern] returns, and it returns true exactly when some part of
    the URL reads as the pattern with a run of dots, or none, for [*], one
    dot for [?] and every other character for itself, case ignored: the
    pattern may stand anywhere in the URL, and the host name handed in is
    not looked at. *)
Theorem matchPattern_plain_pattern (url hostname pattern : string) :
  DetectorSpec.plain pattern = true ->
  ATSDetector.matchPattern url hostname pattern
  = Some (Normal (PatternMeaning.occurs pattern url)).
Proof. apply MeaningFacts.matchPattern_occurs. Qed.

(** The pattern of Lever is found in the query string of a page of another
    site. *)
Lemma matchPattern_pattern_in_query_string :
  ATSDetector.matchPattern
    "https://example.com/?next=https://jobs.lever.co/acme" "example.com"
    "*://jobs.lever.co/*"
  = Some (Normal true).
Proof.
  rewrite (@matchPattern_plain_pattern
             "https://example.com/?next=https://jobs.lever.co/acme"
             "example.com" "*://jobs.lever.co/*" eq_refl).
  vm_compute. reflexivity.
Defined.

(** X2. With the patterns of the repository's registry, a URL in which no
    dot follows [://] directly matches no inclusion pattern of Workday, and
    [detect] does not return Workday for it. *)
Theorem workday_matches_only_behind_a_dot (url hostname : string) :
  includes url "://." = false ->
  ATSDetector.matchesUrl url hostname Demo.WORKDAY_CONFIG = Some (Normal false)
  /\ ATSDetector.detect Demo.ATS_CONFIGS url hostname
     <> Some (Normal (Some ("Workday"%string, Demo.WORKDAY_CONFIG))).
Proof.
  intros Hno.
  assert (Hm : ATSDetector.matchesUrl url hostname Demo.WORKDAY_CONFIG
               = Some (Normal false)).
  { unfold ATSDetector.matchesUrl. cbn [urls Demo.WORKDAY_CONFIG].
    cbn [ATSDetector.matchesUrl_loop].
    rewrite !MeaningFacts.matchPattern_occurs by reflexivity.
    destruct (PatternMeaning.occurs "*://*.myworkdayjobs.com/*" url) eqn:H1.
    { apply (@WorkdayFacts.occurs_behind_a_dot "myworkdayjobs.com/*") in H1.
      congruence. }
    destruct (PatternMeaning.occurs "*://*.myworkdaysite.com/*" url) eqn:H2.
    { apply (@WorkdayFacts.occurs_behind_a_dot "myworkdaysite.com/*") in H2.
      congruence. }
    reflexivity. }
  split; [exact Hm|].
  intros Hdetect. unfold ATSDetector.detect in Hdetect.
  apply WorkdayFacts.detect_loop_matches in Hdetect.
  destruct Hdetect as [config [_ [-> Hyes]]]. congruence.
Qed.

(** A careers page of Workday is such a URL. *)
Lemma workday_careers_page_not_matched :
  ATSDetector.matchesUrl "https://acme.wd1.myworkdayjobs.com/en-US/careers"
    "acme.wd1.myworkdayjobs.com" Demo.WORKDAY_CONFIG
  = Some (Normal false).
Proof.
  exact (proj1 (@workday_matches_only_behind_a_dot
                  "https://acme.wd1.myworkdayjobs.com/en-US/careers"
                  "acme.wd1.myworkdayjobs.com" eq_refl)).
Defined.

(** X3. What [detect] returns is an entry of the registry, and on a
    registry whose names are distinct [getConfig] gives the same
    configuration back for the name that was returned. *)
Theorem getConfig_of_detected (configs : Registry) (url hostname name : string)
    (config : ATSConfig) :
  NoDup (map fst configs) ->
  ATSDetector.detect configs url hostname = Some (Normal (Some (name, config))) ->
  In (name, config) configs
  /\ ATSDetector.getConfig configs name = ATSDetector.Configured config.
Proof.
  intros Hnodup Hdetect. unfold ATSDetector.detect in Hdetect.
  apply ConfigFacts.detect_loop_In in Hdetect. split; [exact Hdetect|].
  unfold ATSDetector.getConfig.
  now rewrite (ConfigFacts.own_config_In Hnodup Hdetect).
Qed.

(** The name detected on a posting of Lever. *)
Lemma getConfig_of_detected_lever :
  ATSDetector.getConfig Demo.ATS_CONFIGS "Lever"
  = ATSDetector.Configured Demo.LEVER_CONFIG.
Proof.
  apply (getConfig_of_detected (configs := Demo.ATS_CONFIGS)
           (url := "https://jobs.lever.co/figma/abcd-1234")
           (hostname := "jobs.lever.co")).
  - repeat constructor; simpl; intuition discriminate.
  - vm_compute. reflexivity.
Defined.

(** X23. On a registry whose patterns hold none of the characters
    \ ^ $ + ( ) [ { | [detect] returns, and it returns the first platform, in
    registry order, one of whose inclusion patterns and none of whose
    exclusion patterns is found in the URL, or none when there is no such
    platform; a pattern is found when some part of the URL reads as the
    pattern with a run of dots, or none, for [*], one dot for [?] and every
    other character for itself, case ignored. *)
Theorem detect_first_platform_found_in_url (configs : Registry)
    (url hostname : string) :
  DetectorSpec.plainRegistry configs ->
  ATSDetector.detect configs url hostname
  = Some (Normal
            (DetectorSpec.firstEligible PatternMeaning.occurs configs url)).
Proof.
  unfold ATSDetector.detect.
  induction configs as [|[platform config] rest IH]; intros Hplain;
    [reflexivity|].
  assert (Hhere : Forall (fun pattern => DetectorSpec.plain pattern = true)
                    (DetectorSpec.patterns_of config)).
  { apply (Hplain (platform, config)). now left. }
  assert (Hrest : DetectorSpec.plainRegistry rest).
  { intros entry Hentry. apply Hplain. now right. }
  cbn [ATSDetector.detect_loop DetectorSpec.firstEligible].
  rewrite (SelectionFacts.matchesUrl_includedBy url hostname Hhere).
  rewrite (SelectionFacts.isExcluded_excludedBy url Hhere).
  destruct (DetectorSpec.includedBy PatternMeaning.occurs url config);
    [|exact (IH Hrest)].
  destruct (DetectorSpec.excludedBy PatternMeaning.occurs url config);
    [exact (IH Hrest)|reflexivity].
Qed.

(** On the registry of the repository a posting of Lever is detected as
    Lever. *)
Lemma detect_lever_posting :
  ATSDetector.detect Demo.ATS_CONFIGS
    "https://jobs.lever.co/figma/abcd-1234" "jobs.lever.co"
  = Some (Normal (Some ("Lever"%string, Demo.LEVER_CONFIG))).
Proof.
  rewrite (@detect_first_platform_found_in_url Demo.ATS_CONFIGS
             "https://jobs.lever.co/figma/abcd-1234" "jobs.lever.co").
  - vm_compute. reflexivity.
  - intros entry [<-|[<-|[<-|[]]]]; repeat constructor.
Defined.

(** ** JobExtractor *)

Module ReplaceFacts.
Import JS RegExp PatternMeaning MeaningFacts TextSpec.

Lemma search_shift (icase : bool) (total : nat) (r : regex) (s : string) :
  forall k : nat,
    search icase total r (S k) s
    = match search icase total r k s with
      | Some (n, m, c) => Some (S n, m, c)
      | None => None
      end.
Proof.
  induction s as [|b s IH]; intros k; cbn [search].
  - now destruct (match_here icase total r EmptyString) as [[rest c]|].
  - destruct (match_here icase total r (String b s)) as [[rest c]|];
      [reflexivity|]. apply IH.
Qed.

Lemma substring_all (s : string) : substring 0 0 s = EmptyString.
Proof. now destruct s. Qed.

(** A character at which no match starts is kept. *)
Lemma replace_from_pass (fuel : nat) (icase : bool) (total : nat) (r : regex)
    (by_ : string) (b : ascii) (s : string) :
  match_here icase total r (String b s) = None ->
  replace_from (S fuel) icase total r by_ (String b s)
  = String b (replace_from (S fuel) icase total r by_ s).
Proof.
  intros Hno. cbn [replace_from search]. rewrite Hno.
  rewrite search_shift.
  destruct (search icase total r 0 s) as [[[n m] c]|]; [|reflexivity].
  cbn [substring skip Nat.add append]. reflexivity.
Qed.

(** A match that starts at the head of the text and is not empty. *)
Lemma replace_from_here (fuel : nat) (icase : bool) (total : nat) (r : regex)
    (by_ : string) (s rest : string) (c : captures) (m : ascii) (ms : string) :
  match_here icase total r s = Some (rest, c) ->
  taken s rest = String m ms ->
  replace_from (S fuel) icase total r by_ s
  = (by_ ++ replace_from fuel icase total r by_
              (skip (String.length (String m ms)) s))%string.
Proof.
  intros Hhere Htaken. cbn [replace_from].
  assert (Hsearch : search icase total r 0 s = Some (0, taken s rest, c)).
  { destruct s; cbn [search]; now rewrite Hhere. }
  rewrite Hsearch, Htaken, substring_all. reflexivity.
Qed.

Lemma replace_from_end (fuel : nat) (icase : bool) (total : nat) (r : regex)
    (by_ : string) :
  match_here icase total r EmptyString = None ->
  replace_from fuel icase total r by_ EmptyString = EmptyString.
Proof.
  intros Hno. destruct fuel; [reflexivity|].
  cbn [replace_from search]. now rewrite Hno.
Qed.

Lemma taken_one (b : ascii) (s : string) :
  taken (String b s) s = String b EmptyString.
Proof.
  unfold taken. cbn [String.length].
  replace (S (String.length s) - String.length s) with 1 by lia.
  cbn [substring]. now rewrite substring_all.
Qed.

(** *** One character of a class *)

Lemma match_here_class (icase : bool) (total : nat) (neg : bool) (cs : charset)
    (s : string) :
  match_here icase total (Cat (Cls neg cs) Eps) s
  = match s with
    | String b s' => if in_class neg cs b then Some (s', []) else None
    | EmptyString => None
    end.
Proof. destruct s; reflexivity. Qed.

Lemma replace_class_empty (neg : bool) (cs : charset) (icase : bool)
    (total : nat) (s : string) :
  forall fuel : nat,
    String.length s < fuel ->
    replace_from fuel icase total (Cat (Cls neg cs) Eps) EmptyString s
    = keep (fun b => negb (in_class neg cs b)) s.
Proof.
  induction s as [|b s IH]; intros fuel Hfuel.
  - apply replace_from_end. reflexivity.
  - destruct fuel as [|fuel]; [simpl in Hfuel; lia|]. simpl in Hfuel.
    cbn [keep]. destruct (in_class neg cs b) eqn:Hb; cbn [negb].
    + rewrite (@replace_from_here fuel icase total _ EmptyString
                 (String b s) s [] b EmptyString).
      * cbn [append String.length skip]. apply IH. lia.
      * rewrite match_here_class. now rewrite Hb.
      * apply taken_one.
    + rewrite replace_from_pass.
      * f_equal. apply IH. lia.
      * rewrite match_here_class. now rewrite Hb.
Qed.

End ReplaceFacts.

Module TextFacts.
Import JS RegExp PatternMeaning MeaningFacts TextSpec ReplaceFacts.

Lemma length_append (a b : string) :
  String.length (a ++ b) = String.length a + String.length b.
Proof. induction a; simpl; auto. Qed.

Lemma keep_ext (p q : ascii -> bool) (s : string) :
  (forall c, p c = q c) -> keep p s = keep q s.
Proof.
  intros H. induction s as [|c s IH]; simpl; [reflexivity|].
  now rewrite H, IH.
Qed.

Lemma keep_digits (s : string) :
  ResumeTailor.all_digits (keep is_digit s) = true.
Proof.
  induction s as [|c s IH]; simpl; [reflexivity|].
  destruct (is_digit c) eqn:Hc; simpl; [now rewrite Hc|exact IH].
Qed.

Lemma keep_all (p : ascii -> bool) (s : string) :
  (fix all (s : string) : bool :=
     match s with
     | EmptyString => true
     | String c s' => p c && all s'
     end) s = true ->
  keep p s = s.
Proof.
  induction s as [|c s IH]; simpl; [reflexivity|].
  rewrite andb_true_iff. intros [Hc Hs]. rewrite Hc. now rewrite IH.
Qed.

Lemma keep_app (p : ascii -> bool) (a b : string) :
  keep p (a ++ b) = (keep p a ++ keep p b)%string.
Proof.
  induction a as [|c a IH]; simpl; [reflexivity|].
  destruct (p c); simpl; now rewrite IH.
Qed.

(** *** A greedy run of one class *)

Lemma rep_class_any (icase : bool) (total : nat) (neg : bool) (cs : charset)
    (k : cont) :
  (forall s' c', k s' c' = Some (s', c')) ->
  forall (fuel : nat) (s : string) (c : captures),
    String.length s < fuel ->
    repetition icase total (Cls neg cs) true k fuel 0 None s c
    = Some (drop_while (in_class neg cs) s, c).
Proof.
  intros Hk. induction fuel as [|fuel IH]; intros s c Hlen; [lia|].
  cbn [repetition Nat.eqb groups Nat.pred pred_max andb].
  rewrite reset_nil.
  destruct s as [|b s']; cbn [matcher drop_while]; [apply Hk|].
  fold (in_class neg cs b).
  destruct (in_class neg cs b); [|apply Hk].
  assert (Hne : (String.length s' =? String.length (String b s')) = false).
  { apply Nat.eqb_neq. simpl. lia. }
  rewrite Hne. simpl in Hlen. rewrite IH by lia. reflexivity.
Qed.

Lemma rep_class_some (icase : bool) (total : nat) (neg : bool) (cs : charset)
    (k : cont) :
  (forall s' c', k s' c' = Some (s', c')) ->
  forall (fuel : nat) (s : string) (c : captures),
    String.length s < fuel ->
    repetition icase total (Cls neg cs) true k fuel 1 None s c
    = match s with
      | String b s' =>
          if in_class neg cs b
          then Some (drop_while (in_class neg cs) s', c)
          else None
      | EmptyString => None
      end.
Proof.
  intros Hk fuel s c Hlen. destruct fuel as [|fuel]; [lia|].
  cbn [repetition Nat.eqb groups Nat.pred pred_max andb].
  rewrite reset_nil.
  destruct s as [|b s']; cbn [matcher]; [reflexivity|].
  fold (in_class neg cs b).
  destruct (in_class neg cs b); [|reflexivity].
  simpl in Hlen. now rewrite (rep_class_any icase total neg cs Hk) by lia.
Qed.

Lemma drop_while_space (s : string) :
  drop_while (in_class false Space) s = JobExtractor.trimStart s.
Proof.
  induction s as [|c s IH]; [reflexivity|].
  cbn [drop_while JobExtractor.trimStart]. unfold in_class at 1. simpl xorb.
  cbn [in_charset]. now rewrite IH.
Qed.

Lemma length_drop_while (p : ascii -> bool) (s : string) :
  String.length (drop_while p s) <= String.length s.
Proof.
  induction s as [|c s IH]; simpl; [lia|].
  destruct (p c); simpl; lia.
Qed.

Lemma skip_taken (s rest : string) :
  (exists run, s = (run ++ rest)%string) ->
  skip (String.length (taken s rest)) s = rest.
Proof.
  intros [run ->]. unfold taken. rewrite length_append.
  replace (String.length run + String.length rest - String.length rest)
    with (String.length run) by lia.
  induction run as [|c run IH]; cbn [append String.length].
  - now rewrite substring_all.
  - cbn [substring String.length skip]. exact IH.
Qed.

Lemma drop_while_suffix (p : ascii -> bool) (s : string) :
  exists run, s = (run ++ drop_while p s)%string.
Proof.
  induction s as [|c s [run IH]]; [now exists EmptyString|].
  cbn [drop_while]. destruct (p c).
  - exists (String c run). simpl. now rewrite <- IH.
  - now exists EmptyString.
Qed.

Lemma taken_nonempty (b : ascii) (s rest : string) :
  String.length rest <= String.length s ->
  exists ms, taken (String b s) rest = String b ms.
Proof.
  intros Hlen. unfold taken. cbn [String.length].
  replace (S (String.length s) - String.length rest)
    with (S (String.length s - String.length rest)) by lia.
  cbn [substring]. eexists. reflexivity.
Qed.

(** *** [/\s+/] *)

Lemma match_here_whitespaceRun (icase : bool) (total : nat) (s : string) :
  match_here icase total JobExtractor.whitespaceRun s
  = match s with
    | String b s' =>
        if is_space b then Some (JobExtractor.trimStart s', []) else None
    | EmptyString => None
    end.
Proof.
  unfold match_here, JobExtractor.whitespaceRun.
  rewrite matcher_Cat, matcher_Rep.
  rewrite (@rep_class_some icase total false Space) by (reflexivity || lia).
  destruct s as [|b s']; [reflexivity|].
  unfold in_class at 1. simpl xorb. cbn [in_charset].
  now rewrite drop_while_space.
Qed.

Lemma collapse_run (s : string) :
  collapse true s = collapse false (JobExtractor.trimStart s).
Proof.
  induction s as [|c s IH]; [reflexivity|].
  cbn [collapse JobExtractor.trimStart].
  destruct (is_space c) eqn:Hc; [exact IH|].
  cbn [collapse]. now rewrite Hc.
Qed.

Lemma trimStart_suffix (s : string) :
  exists run, s = (run ++ JobExtractor.trimStart s)%string.
Proof.
  rewrite <- drop_while_space. apply drop_while_suffix.
Qed.

Lemma length_trimStart (s : string) :
  String.length (JobExtractor.trimStart s) <= String.length s.
Proof. rewrite <- drop_while_space. apply length_drop_while. Qed.

Lemma replace_whitespaceRun (icase : bool) (total : nat) :
  forall (n : nat) (s : string),
    String.length s <= n ->
    forall fuel : nat,
      String.length s < fuel ->
      replace_from fuel icase total JobExtractor.whitespaceRun " " s
      = collapse false s.
Proof.
  induction n as [|n IH]; intros s Hn fuel Hfuel.
  - destruct s; [|simpl in Hn; lia].
    apply replace_from_end. reflexivity.
  - destruct s as [|b s]; [apply replace_from_end; reflexivity|].
    destruct fuel as [|fuel]; [lia|]. simpl in Hn, Hfuel.
    cbn [collapse]. destruct (is_space b) eqn:Hb.
    + assert (Hlen := length_trimStart s).
      destruct (@taken_nonempty b s (JobExtractor.trimStart s) Hlen)
        as [ms Htaken].
      rewrite (@replace_from_here fuel icase total _ " " (String b s)
                 (JobExtractor.trimStart s) [] b ms).
      * rewrite <- Htaken. rewrite skip_taken.
        -- cbn [append]. f_equal. rewrite collapse_run. apply IH; lia.
        -- destruct (trimStart_suffix s) as [run Hrun].
           exists (String b run). simpl. now rewrite <- Hrun.
      * rewrite match_here_whitespaceRun. now rewrite Hb.
      * exact Htaken.
    + rewrite replace_from_pass.
      * f_equal. apply IH; lia.
      * rewrite match_here_whitespaceRun. now rewrite Hb.
Qed.

(** *** Single-spaced text *)

Lemma single_spaced_collapse (s : string) :
  forall a : bool, single_spaced a (collapse a s) = true.
Proof.
  induction s as [|c s IH]; intros a; [reflexivity|].
  cbn [collapse]. destruct (is_space c) eqn:Hc.
  - destruct a; [apply IH|].
    cbn [single_spaced]. change (is_space " ") with true. cbn.
    apply IH.
  - cbn [single_spaced]. rewrite Hc. apply IH.
Qed.

Lemma single_spaced_weaken (s : string) :
  single_spaced true s = true -> single_spaced false s = true.
Proof.
  destruct s as [|c s]; [reflexivity|]. cbn [single_spaced].
  destruct (is_space c); [|auto].
  rewrite !andb_true_iff. intros [[_ H] _]. discriminate.
Qed.

Lemma single_spaced_any (a : bool) (s : string) :
  single_spaced a s = true -> single_spaced false s = true.
Proof. destruct a; [apply single_spaced_weaken|auto]. Qed.

Lemma single_spaced_tail (a : bool) (c : ascii) (s : string) :
  single_spaced a (String c s) = true -> single_spaced (is_space c) s = true.
Proof.
  cbn [single_spaced]. destruct (is_space c); [|auto].
  rewrite !andb_true_iff. tauto.
Qed.

Lemma single_spaced_trimStart (s : string) :
  forall a : bool,
    single_spaced a s = true ->
    single_spaced false (JobExtractor.trimStart s) = true.
Proof.
  induction s as [|c s IH]; intros a H; [reflexivity|].
  cbn [JobExtractor.trimStart].
  destruct (is_space c) eqn:Hc.
  - apply single_spaced_tail in H. now apply (IH (is_space c)).
  - now apply (single_spaced_any (a := a)).
Qed.

Lemma single_spaced_trimEnd (s : string) :
  forall a : bool,
    single_spaced a s = true ->
    single_spaced a (JobExtractor.trimEnd s) = true.
Proof.
  induction s as [|c s IH]; intros a H; [reflexivity|].
  assert (Htail := single_spaced_tail H).
  apply IH in Htail.
  cbn [JobExtractor.trimEnd].
  destruct (JobExtractor.trimEnd s) as [|d t] eqn:Ht.
  - destruct (is_space c) eqn:Hc; [reflexivity|].
    cbn [single_spaced]. now rewrite Hc.
  - cbn [single_spaced] in H |- *.
    destruct (is_space c) eqn:Hc.
    + rewrite !andb_true_iff in H |- *. destruct H as [[H1 H2] _].
      now repeat split.
    + exact Htail.
Qed.

Lemma starts_trimStart (s : string) :
  starts_with_space (JobExtractor.trimStart s) = false.
Proof.
  induction s as [|c s IH]; [reflexivity|].
  cbn [JobExtractor.trimStart]. destruct (is_space c) eqn:Hc; [exact IH|].
  exact Hc.
Qed.

Lemma starts_trimEnd (s : string) :
  starts_with_space s = false ->
  starts_with_space (JobExtractor.trimEnd s) = false.
Proof.
  destruct s as [|c s]; [reflexivity|]. cbn [starts_with_space].
  intros Hc. cbn [JobExtractor.trimEnd].
  destruct (JobExtractor.trimEnd s); [now rewrite Hc|exact Hc].
Qed.

Lemma ends_trimEnd (s : string) :
  ends_with_space (JobExtractor.trimEnd s) = false.
Proof.
  induction s as [|c s IH]; [reflexivity|].
  cbn [JobExtractor.trimEnd].
  destruct (JobExtractor.trimEnd s) as [|d t] eqn:Ht.
  - destruct (is_space c) eqn:Hc; [reflexivity|]. simpl. exact Hc.
  - exact IH.
Qed.

Lemma substring_short (n : nat) (s : string) :
  String.length s <= n -> substring 0 n s = s.
Proof.
  revert n. induction s as [|c s IH]; intros n Hn.
  - now destruct n.
  - destruct n as [|n]; [simpl in Hn; lia|].
    cbn [substring]. f_equal. apply IH. simpl in Hn. lia.
Qed.

Lemma length_substring (n : nat) (s : string) :
  String.length (substring 0 n s) <= n
  /\ (String.length (substring 0 n s) < n -> substring 0 n s = s).
Proof.
  revert n. induction s as [|c s IH]; intros n.
  - destruct n; simpl; split; auto; lia.
  - destruct n as [|n]; [simpl; split; lia|].
    cbn [substring String.length]. destruct (IH n) as [H1 H2].
    split; [lia|]. intros H. f_equal. apply H2. lia.
Qed.

Lemma single_spaced_substring (n : nat) (s : string) :
  forall a : bool,
    single_spaced a s = true -> single_spaced a (substring 0 n s) = true.
Proof.
  revert n. induction s as [|c s IH]; intros n a H.
  - now destruct n.
  - destruct n as [|n]; [reflexivity|].
    cbn [substring single_spaced] in *.
    destruct (is_space c).
    + rewrite !andb_true_iff in *. destruct H as [[H1 H2] H3].
      repeat split; auto.
    + auto.
Qed.

Lemma starts_substring (n : nat) (s : string) :
  starts_with_space s = false -> starts_with_space (substring 0 n s) = false.
Proof.
  destruct s as [|c s]; destruct n; auto.
Qed.

(** *** [/\n\s*\n/] finds nothing in single-spaced text *)

Lemma replace_blankLines (by_ : string) (icase : bool) (total : nat)
    (s : string) :
  forall (a : bool) (fuel : nat),
    single_spaced a s = true ->
    replace_from fuel icase total JobExtractor.blankLines by_ s = s.
Proof.
  induction s as [|c s IH]; intros a fuel H.
  - apply replace_from_end. reflexivity.
  - destruct fuel as [|fuel]; [reflexivity|].
    rewrite replace_from_pass.
    + f_equal. apply (IH (is_space c)). exact (single_spaced_tail H).
    + unfold match_here, JobExtractor.blankLines.
      rewrite matcher_Cat, matcher_Lit.
      assert (Hc : same_char icase JobExtractor.lineFeed c = false).
      { cbn [single_spaced] in H.
        destruct (is_space c) eqn:Hs.
        - rewrite !andb_true_iff in H. destruct H as [[Hsp _] _].
          apply Ascii.eqb_eq in Hsp. subst c. now destruct icase.
        - destruct c as [[] [] [] [] [] [] [] []]; try discriminate Hs;
            now destruct icase. }
      now rewrite Hc.
Qed.

End TextFacts.

Module CaptureFacts.
Import JS RegExp PatternMeaning MeaningFacts TextSpec TextFacts YearsSpec.

Section Invariant.
Variable icase : bool.
Variable total : nat.
Variable I : captures -> Prop.
Variable P : result -> Prop.

Lemma harmless_part (r r' : regex) :
  incl (groups r') (groups r) -> harmless I r -> harmless I r'.
Proof.
  intros Hsub [H1 H2]. split.
  - intros n t c Hn. apply H1. now apply Hsub.
  - intros gs c Hgs. apply H2. intros x Hx. apply Hsub. now apply Hgs.
Qed.

Lemma repetition_inv (r1 : regex) (greedy : bool) (k : cont) :
  (forall (k' : cont),
      (forall s c res, I c -> k' s c = Some res -> P res) ->
      forall s c res, I c -> matcher icase total r1 k' s c = Some res -> P res) ->
  (forall c, I c -> I (reset (groups r1) c)) ->
  (forall s c res, I c -> k s c = Some res -> P res) ->
  forall (fuel mn : nat) (mx : option nat) (s : string) (c : captures)
         (res : result),
    I c ->
    repetition icase total r1 greedy k fuel mn mx s c = Some res -> P res.
Proof.
  intros Hr1 Hreset Hk.
  induction fuel as [|fuel IH]; intros mn mx s c res Hc; [discriminate|].
  cbn [repetition].
  set (d := fun (s' : string) (c' : captures) =>
              if (mn =? 0) && (String.length s' =? String.length s) then None
              else repetition icase total r1 greedy k fuel (Nat.pred mn)
                     (pred_max mx) s' c').
  assert (Hd : forall s' c' res', I c' -> d s' c' = Some res' -> P res').
  { intros s' c' res' Hc'. unfold d.
    destruct ((mn =? 0) && (String.length s' =? String.length s));
      [discriminate|]. now apply IH. }
  assert (Hinner : forall res', matcher icase total r1 d s
                                  (reset (groups r1) c) = Some res' -> P res').
  { intros res'. apply (Hr1 d Hd). now apply Hreset. }
  destruct mx as [[|m]|].
  - now apply Hk.
  - destruct (mn =? 0); [|apply Hinner].
    destruct greedy.
    + destruct (matcher icase total r1 d s (reset (groups r1) c)) as [x|] eqn:Hm.
      * intros H. injection H as <-. now apply Hinner.
      * now apply Hk.
    + destruct (k s c) as [x|] eqn:Hks.
      * intros H. injection H as <-. now apply (Hk s c).
      * apply Hinner.
  - destruct (mn =? 0); [|apply Hinner].
    destruct greedy.
    + destruct (matcher icase total r1 d s (reset (groups r1) c)) as [x|] eqn:Hm.
      * intros H. injection H as <-. now apply Hinner.
      * now apply Hk.
    + destruct (k s c) as [x|] eqn:Hks.
      * intros H. injection H as <-. now apply (Hk s c).
      * apply Hinner.
Qed.

(** Whatever [matcher] returns, its continuation returned. *)
Lemma matcher_inv (r : regex) :
  harmless I r ->
  forall k : cont,
    (forall s c res, I c -> k s c = Some res -> P res) ->
    forall s c res, I c -> matcher icase total r k s c = Some res -> P res.
Proof.
  induction r as [|a| |neg cs|r1 IH1 r2 IH2|r1 IH1 r2 IH2|mn mx greedy r1 IH1
                  |n r1 IH1| |]; intros Hh k Hk s c res Hc.
  - now apply Hk.
  - cbn [matcher]. destruct s as [|b s']; [discriminate|].
    destruct (same_char icase a b); [now apply Hk|discriminate].
  - cbn [matcher]. destruct s as [|b s']; [discriminate|].
    destruct (is_line_terminator b); [discriminate|now apply Hk].
  - cbn [matcher]. destruct s as [|b s']; [discriminate|].
    destruct (xorb neg (in_charset cs b)); [now apply Hk|discriminate].
  - rewrite matcher_Cat.
    apply IH1; [|intros s' c' res' Hc'; apply IH2; auto|exact Hc].
    + apply (harmless_part (r := Cat r1 r2)); [|exact Hh].
      cbn [groups]. now apply incl_appl.
    + apply (harmless_part (r := Cat r1 r2)); [|exact Hh].
      cbn [groups]. now apply incl_appr.
  - cbn [matcher].
    destruct (matcher icase total r1 k s c) as [x|] eqn:H1.
    + intros H. injection H as <-. revert H1. apply IH1; auto.
      apply (harmless_part (r := Alt r1 r2)); [|exact Hh].
      cbn [groups]. now apply incl_appl.
    + apply IH2; auto.
      apply (harmless_part (r := Alt r1 r2)); [|exact Hh].
      cbn [groups]. now apply incl_appr.
  - rewrite matcher_Rep.
    apply repetition_inv; auto.
    + intros k' Hk'. apply IH1; auto.
    + intros c' Hc'. destruct Hh as [_ H2]. apply H2; [|exact Hc'].
      cbn [groups]. apply incl_refl.
  - cbn [matcher]. apply IH1; [| |exact Hc].
    + apply (harmless_part (r := Grp n r1)); [|exact Hh].
      cbn [groups]. now apply incl_tl.
    + intros s' c' res' Hc'. apply Hk. destruct Hh as [H1 _].
      apply H1; [|exact Hc']. cbn [groups]. now left.
  - cbn [matcher]. destruct (String.length s =? total);
      [now apply Hk|discriminate].
  - cbn [matcher]. destruct s; [now apply Hk|discriminate].
Qed.

End Invariant.

(** *** The group of the years *)

Lemma capture_reset (gs : list nat) (c : captures) (n : nat) :
  ~ In n gs -> capture n (reset gs c) = capture n c.
Proof.
  intros Hn. unfold reset. induction c as [|[m t] c IH]; [reflexivity|].
  cbn [filter fst capture].
  destruct (existsb (Nat.eqb m) gs) eqn:Hm; cbn [negb capture].
  - destruct (Nat.eqb_spec m n) as [->|_]; [|exact IH].
    exfalso. apply existsb_exists in Hm. destruct Hm as [x [Hx Hmx]].
    apply Nat.eqb_eq in Hmx. subst x. contradiction.
  - now rewrite IH.
Qed.

Lemma freeOfGroup1_harmless (r : regex) :
  freeOfGroup1 r = true -> harmless numeral r.
Proof.
  unfold freeOfGroup1. rewrite negb_true_iff. intros Hfree.
  assert (Hno : ~ In 1 (groups r)).
  { intros Hin.
    assert (Ht : existsb (Nat.eqb 1) (groups r) = true).
    { apply existsb_exists. exists 1. now split. }
    congruence. }
  split.
  - intros n t c Hn [d [Hd Hrest]]. exists d. split; [|exact Hrest].
    cbn [capture]. destruct (Nat.eqb_spec n 1) as [->|_]; [contradiction|].
    exact Hd.
  - intros gs c Hgs [d [Hd Hrest]]. exists d. split; [|exact Hrest].
    rewrite capture_reset; [exact Hd|]. intros Hin. apply Hno. now apply Hgs.
Qed.

Lemma trivially_harmless (r : regex) : harmless (fun _ => True) r.
Proof. split; auto. Qed.

(** A greedy run of digits: what is left for the continuation. *)
Lemma repetition_digits (icase : bool) (total : nat) (k : cont) :
  forall (fuel mn : nat) (s : string) (c : captures) (res : result),
    repetition icase total (Cls false Digit) true k fuel mn None s c = Some res ->
    exists run rest : string,
      s = (run ++ rest)%string
      /\ ResumeTailor.all_digits run = true
      /\ mn <= String.length run
      /\ k rest c = Some res.
Proof.
  induction fuel as [|fuel IH]; intros mn s c res; [discriminate|].
  cbn [repetition groups pred_max]. rewrite reset_nil.
  assert (Hstep : forall res',
             matcher icase total (Cls false Digit)
               (fun s' c' =>
                  if (mn =? 0) && (String.length s' =? String.length s) then None
                  else repetition icase total (Cls false Digit) true k fuel
                         (Nat.pred mn) None s' c') s c = Some res' ->
             exists run rest : string,
               s = (run ++ rest)%string
               /\ ResumeTailor.all_digits run = true
               /\ mn <= String.length run
               /\ k rest c = Some res').
  { intros res'. cbn [matcher]. destruct s as [|b s']; [discriminate|].
    cbn [xorb in_charset]. destruct (is_digit b) eqn:Hb; [|discriminate].
    destruct ((mn =? 0) && (String.length s' =? String.length (String b s')));
      [discriminate|].
    intros H. destruct (IH _ _ _ _ H) as [run [rest [-> [Hrun [Hmn Hk]]]]].
    exists (String b run), rest. cbn [append ResumeTailor.all_digits String.length].
    rewrite Hb, Hrun. repeat split; auto. lia. }
  destruct (mn =? 0) eqn:Hmn; [|apply Hstep].
  apply Nat.eqb_eq in Hmn. subst mn.
  match goal with
  | |- match ?m with Some x => Some x | None => _ end = _ -> _ =>
      destruct m as [x|] eqn:Hm
  end.
  - intros H. injection H as <-. now apply Hstep.
  - intros H. exists EmptyString, s. repeat split; auto.
Qed.

Lemma taken_run (run rest : string) : taken (run ++ rest) rest = run.
Proof.
  unfold taken. rewrite length_append.
  replace (String.length run + String.length rest - String.length rest)
    with (String.length run) by lia.
  induction run as [|c run IH]; cbn [append String.length substring].
  - apply ReplaceFacts.substring_all.
  - now rewrite IH.
Qed.

Lemma yearsGroup_numeral (icase : bool) (total : nat) (r : regex) (k : cont) :
  isYearsGroup r = true ->
  (forall s c res, numeral c -> k s c = Some res -> numeral (snd res)) ->
  forall s c res,
    matcher icase total r k s c = Some res -> numeral (snd res).
Proof.
  intros Hr Hk s c res.
  destruct r as [| | | | | | |n r1| |]; try discriminate.
  destruct n as [|[|n]]; try discriminate.
  destruct r1 as [| | | |r1 r2| | | | |]; try discriminate.
  destruct r1 as [| | | | | |mn mx greedy r1| | |]; try discriminate.
  destruct mn as [|[|mn]]; try discriminate.
  destruct mx; try discriminate. destruct greedy; try discriminate.
  destruct r1 as [| | |neg cs| | | | | |]; try discriminate.
  destruct neg; try discriminate. destruct cs; try discriminate.
  destruct r2; try discriminate.
  cbn [matcher]. fold (matcher icase total).
  change (matcher icase total
            (Cat (Rep 1 None true (Cls false Digit)) Eps)
            (fun s' c' => k s' ((1, taken s s') :: c')) s c = Some res ->
          numeral (snd res)).
  rewrite matcher_Cat, matcher_Rep. intros H.
  apply repetition_digits in H.
  destruct H as [run [rest [-> [Hrun [Hlen H]]]]].
  cbn [matcher] in H. rewrite taken_run in H.
  revert H. apply Hk. exists run. split; [reflexivity|].
  split; [|exact Hrun]. intros ->. simpl in Hlen. lia.
Qed.

Lemma capturesYears_numeral (icase : bool) (total : nat) (r : regex) :
  capturesYears r = true ->
  forall k : cont,
    (forall s c res, numeral c -> k s c = Some res -> numeral (snd res)) ->
    forall s c res,
      matcher icase total r k s c = Some res -> numeral (snd res).
Proof.
  induction r as [|a| |neg cs|r1 IH1 r2 IH2|r1 IH1 r2 IH2|mn mx greedy r1 IH1
                  |n r1 IH1| |]; try discriminate.
  cbn [capturesYears]. rewrite orb_true_iff, andb_true_iff.
  intros [[Hgroup Hfree]|Hlater] k Hk s c res; rewrite matcher_Cat.
  - apply (yearsGroup_numeral Hgroup).
    intros s' c' res' Hc'.
    apply (@matcher_inv icase total numeral (fun x => numeral (snd x)) r2);
      auto.
    now apply freeOfGroup1_harmless.
  - apply (@matcher_inv icase total (fun _ => True)
             (fun x => numeral (snd x)) r1); auto.
    + apply trivially_harmless.
    + intros s' c' res' _. now apply IH2.
Qed.

Lemma search_numeral (icase : bool) (total : nat) (r : regex) :
  capturesYears r = true ->
  forall (s : string) (skipped n : nat) (m : string) (c : captures),
    search icase total r skipped s = Some (n, m, c) -> numeral c.
Proof.
  intros Hr. induction s as [|b s IH]; intros skipped n m c;
    cbn [search]; unfold match_here.
  - destruct (matcher icase total r _ EmptyString []) as [[rest c']|] eqn:Hm;
      [|discriminate].
    intros H. injection H as _ _ <-.
    apply (capturesYears_numeral Hr) in Hm; [exact Hm|].
    intros s' c0 res Hc0 H. now injection H as <-.
  - destruct (matcher icase total r _ (String b s) []) as [[rest c']|] eqn:Hm.
    + intros H. injection H as _ _ <-.
      apply (capturesYears_numeral Hr) in Hm; [exact Hm|].
      intros s' c0 res Hc0 H. now injection H as <-.
    + apply IH.
Qed.

(** *** parseInt of a numeral *)

Lemma digits_of_numeral (s : string) :
  ResumeTailor.all_digits s = true ->
  forall acc : Z,
    (0 <= acc)%Z ->
    exists v : Z,
      JobExtractor.digits 10 (Some acc) s = Some v /\ (0 <= v)%Z.
Proof.
  induction s as [|c s IH]; intros Hs acc Hacc.
  - exists acc. now split.
  - cbn [ResumeTailor.all_digits] in Hs. apply andb_true_iff in Hs.
    destruct Hs as [Hc Hs]. cbn [JobExtractor.digits].
    unfold JobExtractor.digit_value. rewrite Hc.
    unfold is_digit, between in Hc. apply andb_true_iff in Hc.
    destruct Hc as [Hlo Hhi]. apply Nat.leb_le in Hlo, Hhi.
    destruct (Z.ltb_spec (Z.of_nat (code c) - 48) 10); [|lia].
    apply IH; [exact Hs|lia].
Qed.

(** The double nearest to an integer that is not negative is a whole
    number that is not negative, or the positive infinity. *)
Lemma nearest_nonneg (v : Z) :
  (0 <= v)%Z ->
  (exists y : Z, nearest v = Num y /\ (0 <= y < overflow)%Z)
  \/ nearest v = Infinity false.
Proof.
  intros Hv. unfold nearest.
  assert (Hsign : (v <? 0)%Z = false) by now apply Z.ltb_ge.
  rewrite Hsign.
  match goal with |- context [(overflow <=? ?r)%Z] => set (rounded := r) end.
  destruct (Z.leb_spec overflow rounded) as [Hover|Hfits]; [now right|].
  left. exists rounded. split; [reflexivity|]. split; [|exact Hfits].
  subst rounded.
  destruct (Z.log2 (Z.abs v) + 1 - precision <=? 0)%Z; [apply Z.abs_nonneg|].
  apply Z.shiftl_nonneg.
  assert (Hkept : (0 <= Z.shiftr (Z.abs v)
                          (Z.log2 (Z.abs v) + 1 - precision))%Z).
  { apply Z.shiftr_nonneg. apply Z.abs_nonneg. }
  match goal with |- context [if ?up then _ else _] => destruct up end; lia.
Qed.

(** An integer of at most 53 binary digits is a double. *)
Lemma nearest_exact (v : Z) :
  (Z.abs v < 2 ^ precision)%Z -> nearest v = Num v.
Proof.
  intros Hv. unfold nearest.
  assert (Hdropped : (Z.log2 (Z.abs v) + 1 - precision <=? 0)%Z = true).
  { apply Z.leb_le.
    destruct (Z.eq_dec (Z.abs v) 0) as [H0|H0].
    - rewrite H0. unfold precision. simpl. lia.
    - assert (Z.log2 (Z.abs v) < precision)%Z; [|lia].
      apply Z.log2_lt_pow2; lia. }
  rewrite Hdropped.
  assert (Hfits : (overflow <=? Z.abs v)%Z = false).
  { apply Z.leb_gt. apply Z.lt_trans with (1 := Hv).
    unfold overflow, precision. rewrite Z.shiftl_1_l.
    apply Z.pow_lt_mono_r; lia. }
  rewrite Hfits. f_equal.
  destruct (Z.ltb_spec v 0); lia.
Qed.

Lemma parseInt_numeral (s : string) :
  s <> EmptyString -> ResumeTailor.all_digits s = true ->
  exists v : Z, JobExtractor.parseInt s = nearest v /\ (0 <= v)%Z.
Proof.
  intros Hne Hs. destruct s as [|c s]; [contradiction|].
  cbn [ResumeTailor.all_digits] in Hs. apply andb_true_iff in Hs.
  destruct Hs as [Hc Hs].
  assert (Hdigits : exists v : Z,
             JobExtractor.digits 10 None (String c s) = Some v /\ (0 <= v)%Z).
  { cbn [JobExtractor.digits].
    unfold JobExtractor.digit_value. rewrite Hc.
    assert (Hc' := Hc). unfold is_digit, between in Hc'.
    apply andb_true_iff in Hc'.
    destruct Hc' as [Hlo Hhi]. apply Nat.leb_le in Hlo, Hhi.
    destruct (Z.ltb_spec (Z.of_nat (code c) - 48) 10); [|lia].
    apply digits_of_numeral; [exact Hs|lia]. }
  destruct Hdigits as [v [Hv Hpos]]. exists v. split; [|exact Hpos].
  unfold JobExtractor.parseInt.
  assert (Htrim : JobExtractor.trimStart (String c s) = String c s).
  { cbn [JobExtractor.trimStart].
    destruct c as [[] [] [] [] [] [] [] []]; try discriminate; reflexivity. }
  rewrite Htrim.
  destruct s as [|c1 s].
  - destruct c as [[] [] [] [] [] [] [] []]; try discriminate Hc;
      cbv beta iota zeta; now rewrite Hv.
  - cbn [ResumeTailor.all_digits] in Hs. apply andb_true_iff in Hs.
    destruct Hs as [Hc1 Hs].
    destruct c as [[] [] [] [] [] [] [] []]; try discriminate Hc;
      try (cbv beta iota zeta; now rewrite Hv).
    destruct c1 as [[] [] [] [] [] [] [] []]; try discriminate Hc1;
      cbv beta iota zeta; now rewrite Hv.
Qed.

End CaptureFacts.

Module KeywordFacts.
Import JS JobExtractor StringFacts TailorSpec TextSpec.

Lemma includes_trans (a b c : string) :
  includes a b = true -> includes b c = true -> includes a c = true.
Proof.
  rewrite !includes_spec.
  intros [pre [post ->]] [pre' [post' ->]].
  exists (pre ++ pre')%string, (post' ++ post)%string.
  now rewrite !append_assoc.
Qed.

Lemma techKeywords_lower :
  Forall (fun keyword => toLowerCase keyword = keyword) techKeywords.
Proof.
  apply Forall_forall. intros keyword Hin.
  assert (H : forallb (fun k => String.eqb (toLowerCase k) k) techKeywords
              = true) by (vm_compute; reflexivity).
  rewrite forallb_forall in H. apply String.eqb_eq. now apply H.
Qed.

Lemma distinct_NoDup (l : list string) : distinct l = true -> NoDup l.
Proof.
  induction l as [|x l IH]; simpl; [constructor|].
  rewrite andb_true_iff, negb_true_iff. intros [Hx Hl].
  constructor; [|now apply IH].
  intros Hin.
  assert (Ht : existsb (String.eqb x) l = true).
  { apply existsb_exists. exists x. split; [exact Hin|apply String.eqb_refl]. }
  congruence.
Qed.

Lemma techKeywords_NoDup : NoDup techKeywords.
Proof. apply distinct_NoDup. vm_compute. reflexivity. Qed.

Lemma NoDup_filter (A : Type) (f : A -> bool) (l : list A) :
  NoDup l -> NoDup (filter f l).
Proof.
  induction 1 as [|x l Hx Hl IH]; simpl; [constructor|].
  destruct (f x); [|exact IH].
  constructor; [|exact IH]. intros H. apply Hx. now apply filter_In in H.
Qed.

End KeywordFacts.

(** The sources of the expressions [cleanDescription] and [stripPhone]
    use are read as the expressions of the model. *)
Lemma literals_read :
  RegExp.compile "\s+" = inl JobExtractor.whitespaceRun
  /\ RegExp.compile "\n\s*\n" = inl JobExtractor.blankLines
  /\ RegExp.compile "\D" = inl Profile.nonDigit.
Proof. repeat split; vm_compute; reflexivity. Qed.

(** X4. [extractYearsOfExperience] returns, and what it returns is
    [null], a whole number that is not negative, or [Infinity] (for a
    numeral beyond the doubles): never [NaN], never a negative number, and
    it never raises. *)
Theorem extractYearsOfExperience_never_NaN_nor_negative
    (description : option string) :
  JobExtractor.extractYearsOfExperience description = Some (Normal None)
  \/ (exists years : Z,
         JobExtractor.extractYearsOfExperience description
         = Some (Normal (Some (Num years)))
         /\ (0 <= years < overflow)%Z)
  \/ JobExtractor.extractYearsOfExperience description
     = Some (Normal (Some (Infinity false))).
Proof.
  unfold JobExtractor.extractYearsOfExperience.
  destruct description as [[|c text]|]; try (now left).
  set (t := String c text).
  assert (Hloop : forall ps : list string,
             Forall (fun source =>
                       exists r, RegExp.compile source = inl r
                                 /\ YearsSpec.capturesYears r = true) ps ->
             JobExtractor.extractYears_loop t ps = Some (Normal None)
             \/ (exists years : Z,
                    JobExtractor.extractYears_loop t ps
                    = Some (Normal (Some (Num years)))
                    /\ (0 <= years < overflow)%Z)
             \/ JobExtractor.extractYears_loop t ps
                = Some (Normal (Some (Infinity false)))).
  { induction 1 as [|source ps [r [Hr Hcap]] _ IH]; [now left|].
    cbn [JobExtractor.extractYears_loop]. rewrite Hr.
    unfold RegExp.exec.
    destruct (RegExp.search true (String.length t) r 0 t)
      as [[[n m] caps]|] eqn:Hsearch; [|exact IH].
    right. destruct (CaptureFacts.search_numeral Hcap Hsearch)
      as [digits [Hd [Hne Hall]]].
    rewrite Hd.
    destruct (CaptureFacts.parseInt_numeral Hne Hall) as [v [Hv Hpos]].
    rewrite Hv.
    destruct (CaptureFacts.nearest_nonneg Hpos) as [[y [Hy Hrange]]|Hinf].
    - left. exists y. now rewrite Hy.
    - right. now rewrite Hinf. }
  apply Hloop.
  repeat constructor; eexists; (split; [vm_compute; reflexivity|reflexivity]).
Qed.

(** Where the numeral is too long for a double the number is rounded,
    and [Infinity] from 2^1024 on. *)
Lemma extractYearsOfExperience_long_numerals :
  JobExtractor.extractYearsOfExperience
    (Some "99999999999999999999 years of experience"%string)
  = Some (Normal (Some (Num 100000000000000000000)))
  /\ JobExtractor.extractYearsOfExperience (Some Demo.astronomicPosting)
     = Some (Normal (Some (Infinity false))).
Proof. vm_compute. split; reflexivity. Qed.

(** X5. The keywords [extractKeywords] of the job extractor finds in a
    description are the entries of its list that occur in the description
    with case ignored, each once; there are none for an empty or a missing
    description. *)
Theorem techKeywords_found_by_substring (text keyword : string) :
  (In keyword (JobExtractor.extractKeywords (Some text))
   <-> text <> EmptyString
       /\ In keyword JobExtractor.techKeywords
       /\ TailorSpec.occurs_ignoring_case keyword text)
  /\ NoDup (JobExtractor.extractKeywords (Some text))
  /\ JobExtractor.extractKeywords None = [].
Proof.
  split; [|split; [|reflexivity]].
  - destruct text as [|c text].
    + simpl. split; [contradiction|]. intros [H _]. now contradiction H.
    + cbn [JobExtractor.extractKeywords]. rewrite filter_In. split.
      * intros [Hin Hinc]. split; [discriminate|]. split; [exact Hin|].
        apply StringFacts.includes_lower.
        assert (Hl := KeywordFacts.techKeywords_lower).
        rewrite Forall_forall in Hl. now rewrite (Hl _ Hin).
      * intros [_ [Hin Hocc]]. split; [exact Hin|].
        apply StringFacts.includes_lower in Hocc.
        assert (Hl := KeywordFacts.techKeywords_lower).
        rewrite Forall_forall in Hl. now rewrite (Hl _ Hin) in Hocc.
  - destruct text as [|c text]; [constructor|].
    apply KeywordFacts.NoDup_filter, KeywordFacts.techKeywords_NoDup.
Qed.

(** X6. A keyword of the list that is part of a keyword found is found
    as well: the search is for the text of the keyword, not for the
    word. *)
Theorem techKeywords_inside_found_keywords
    (description : option string) (found inner : string) :
  In found (JobExtractor.extractKeywords description) ->
  In inner JobExtractor.techKeywords ->
  includes found inner = true ->
  In inner (JobExtractor.extractKeywords description).
Proof.
  destruct description as [[|c text]|];
    cbn [JobExtractor.extractKeywords In]; try contradiction.
  rewrite !filter_In. intros [_ Hfound] Hinner Hinc. split; [exact Hinner|].
  exact (KeywordFacts.includes_trans Hfound Hinc).
Qed.

(** A posting for a JavaScript developer is found to name Java. *)
Lemma javascript_reported_as_java :
  In "java"%string
    (JobExtractor.extractKeywords (Some "Senior JavaScript developer"%string)).
Proof.
  apply (@techKeywords_inside_found_keywords
           (Some "Senior JavaScript developer"%string) "javascript" "java").
  - vm_compute. left. reflexivity.
  - right. right. right. left. reflexivity.
  - reflexivity.
Defined.

(** X7. [cleanDescription] makes one space of every run of white space,
    removes the white space at both ends and keeps the first 10000
    characters: the replacement that was to keep the blank lines finds
    none.  So the result has no line break and no two spaces in a row, it
    does not begin with white space, and it does not end with white space
    unless it was cut. *)
Theorem cleanDescription_single_spaced (text : option string) :
  let out := JobExtractor.cleanDescription text in
  out = substring 0 10000
          (JobExtractor.trim
             (TextSpec.collapse false
                (match text with Some t => t | None => EmptyString end)))
  /\ TextSpec.single_spaced false out = true
  /\ TextSpec.starts_with_space out = false
  /\ String.length out <= 10000
  /\ (String.length out < 10000 -> TextSpec.ends_with_space out = false).
Proof.
  intros out.
  assert (Hout : out = substring 0 10000
                         (JobExtractor.trim
                            (TextSpec.collapse false
                               (match text with
                                | Some t => t
                                | None => EmptyString
                                end)))).
  { subst out. unfold JobExtractor.cleanDescription.
    destruct text as [[|c t]|]; try (symmetry; apply TextFacts.substring_short;
                                     simpl; lia).
    unfold RegExp.replace at 2.
    rewrite (@TextFacts.replace_whitespaceRun false _ (String.length (String c t)))
      by lia.
    unfold RegExp.replace.
    rewrite (@TextFacts.replace_blankLines _ false _ _ false)
      by apply TextFacts.single_spaced_collapse.
    reflexivity. }
  set (u := TextSpec.collapse false
              (match text with Some t => t | None => EmptyString end)) in *.
  assert (Hu : TextSpec.single_spaced false (JobExtractor.trim u) = true).
  { unfold JobExtractor.trim. apply TextFacts.single_spaced_trimEnd.
    apply (@TextFacts.single_spaced_trimStart u false).
    apply TextFacts.single_spaced_collapse. }
  assert (Hs : TextSpec.starts_with_space (JobExtractor.trim u) = false).
  { unfold JobExtractor.trim. apply TextFacts.starts_trimEnd.
    apply TextFacts.starts_trimStart. }
  destruct (TextFacts.length_substring 10000 (JobExtractor.trim u))
    as [Hlen Hfull].
  rewrite Hout. split; [reflexivity|].
  split; [now apply TextFacts.single_spaced_substring|].
  split; [now apply TextFacts.starts_substring|].
  split; [exact Hlen|].
  intros Hshort. rewrite (Hfull Hshort).
  unfold JobExtractor.trim. apply TextFacts.ends_trimEnd.
Qed.

(** ** ResumeTailor *)

Module FrequencyFacts.
Import JS ResumeTailor TailorSpec SortFacts StringFacts TailorFacts.

Lemma set_own_key (o : object) (key : string) (v : tally) (k : string) :
  In k (map fst (set_own o key v)) -> k = key \/ In k (map fst o).
Proof.
  intros H. apply in_map_iff in H. destruct H as [e [<- He]].
  destruct (set_own_In He) as [Hk|Hin]; [now left|right].
  now apply in_map.
Qed.

Lemma set_own_NoDup (o : object) (key : string) (v : tally) :
  NoDup (map fst o) -> NoDup (map fst (set_own o key v)).
Proof.
  induction o as [|[k w] o IH]; simpl; intros Hnd.
  - constructor; [intros []|constructor].
  - inversion Hnd as [|? ? Hfresh Hrest]; subst.
    destruct (String.eqb_spec k key) as [->|Hne]; simpl.
    + now constructor.
    + constructor; [|now apply IH].
      intros Hin. destruct (set_own_key Hin) as [->|Hold]; auto.
Qed.

Lemma bump_key (o : object) (word k : string) :
  In k (map fst (bump o word)) -> k = word \/ In k (map fst o).
Proof.
  unfold bump.
  destruct (own o word) as [[n|s]|]; try apply set_own_key.
  destruct (String.eqb word "__proto__"); [now right|].
  destruct (inherited word); apply set_own_key.
Qed.

Lemma bump_NoDup (o : object) (word : string) :
  NoDup (map fst o) -> NoDup (map fst (bump o word)).
Proof.
  intros Hnd. unfold bump.
  destruct (own o word) as [[n|s]|]; try now apply set_own_NoDup.
  destruct (String.eqb word "__proto__"); [exact Hnd|].
  destruct (inherited word); now apply set_own_NoDup.
Qed.

Lemma count_words_keys (words : list string) :
  forall o : object,
    NoDup (map fst o) ->
    NoDup (map fst (count_words o words))
    /\ forall k, In k (map fst (count_words o words)) ->
                 In k words \/ In k (map fst o).
Proof.
  induction words as [|w ws IH]; intros o Hnd; cbn [count_words].
  - split; [exact Hnd|]. now right.
  - destruct (3 <? String.length w).
    + destruct (IH (bump o w) (bump_NoDup w Hnd)) as [H1 H2].
      split; [exact H1|]. intros k Hk.
      destruct (H2 k Hk) as [Hin|Hin]; [left; now right|].
      destruct (bump_key Hin) as [->|Hold]; [left; now left|now right].
    + destruct (IH o Hnd) as [H1 H2]. split; [exact H1|].
      intros k Hk. destruct (H2 k Hk); [left; now right|now right].
Qed.

Lemma filter_partition (A : Type) (p : A -> bool) (l : list A) :
  Permutation (filter p l ++ filter (fun x => negb (p x)) l) l.
Proof.
  induction l as [|x l IH]; simpl; [constructor|].
  destruct (p x); simpl.
  - now constructor.
  - apply Permutation_sym. apply Permutation_cons_app.
    now apply Permutation_sym.
Qed.

Lemma entries_perm (o : object) : Permutation (entries o) o.
Proof.
  unfold entries.
  eapply Permutation_trans; [|apply (filter_partition (fun e => is_index (fst e)))].
  apply Permutation_app_tail. apply Permutation_sym. apply sort_perm.
Qed.

Lemma filter_keys_distinct (A K : Type) (key : A -> K) (keep : A -> bool)
  (o : list A) (Hkeys : NoDup (map key o)) :
  NoDup (map key (filter keep o)).
Proof.
  induction o as [|e o IH]; cbn [map filter] in *; [constructor|].
  apply NoDup_cons_iff in Hkeys. destruct Hkeys as [Hfresh Hrest].
  destruct (keep e); cbn [map]; [|now apply IH].
  apply NoDup_cons; [|now apply IH].
  intros Hin. apply Hfresh. apply in_map_iff in Hin.
  destruct Hin as [e' [Hkey Hin]]. apply filter_In in Hin.
  apply in_map_iff. exists e'. tauto.
Qed.

Lemma NoDup_firstn (A : Type) (n : nat) (l : list A) :
  NoDup l -> NoDup (firstn n l).
Proof.
  intros H. rewrite <- (firstn_skipn n l) in H.
  now apply NoDup_app_remove_r in H.
Qed.

(** *** The words of a text *)

Lemma split_nonword_parts (s : string) :
  forall (in_sep : bool) (cur : string),
    (in_sep = true -> cur = EmptyString) ->
    forall w, In w (split_nonword in_sep cur s) ->
              exists pre post, (cur ++ s)%string = (pre ++ w ++ post)%string.
Proof.
  induction s as [|c s IH]; intros in_sep cur Hcur w Hw;
    cbn [split_nonword] in Hw.
  - destruct Hw as [<-|[]]. exists EmptyString, EmptyString.
    now rewrite append_nil_r.
  - destruct (is_word c).
    + destruct (IH false _ (fun H => ltac:(discriminate)) w Hw)
        as [pre [post H]].
      exists pre, post. rewrite <- H. now rewrite append_assoc.
    + destruct in_sep.
      * rewrite (Hcur eq_refl) in *.
        destruct (IH true EmptyString (fun _ => eq_refl) w Hw)
          as [pre [post H]].
        exists (String c pre), post. simpl in *. now rewrite H.
      * destruct Hw as [<-|Hw].
        -- exists EmptyString, (String c s). reflexivity.
        -- destruct (IH true EmptyString (fun _ => eq_refl) w Hw)
             as [pre [post H]].
           exists (cur ++ String c pre)%string, post.
           simpl in H. rewrite append_assoc. simpl. now rewrite H.
Qed.

Lemma split_W_includes (text w : string) :
  In w (split_W text) -> includes text w = true.
Proof.
  intros Hw. apply includes_spec.
  apply (@split_nonword_parts text false EmptyString); [discriminate|exact Hw].
Qed.

Lemma extractKeywords_words (description keyword : string) :
  In keyword (extractKeywords description) ->
  In keyword (split_W (toLowerCase description)).
Proof.
  unfold extractKeywords. destruct description as [|c d]; [intros []|].
  set (t := String c d). intros H.
  apply in_map_iff in H. destruct H as [e [<- He]].
  apply In_firstn in He. apply sort_In in He.
  apply filter_In in He. destruct He as [He _].
  apply (Permutation_in _ (entries_perm _)) in He.
  destruct (@count_words_keys (split_W (toLowerCase t)) [])
    as [_ Hkeys]; [constructor|].
  destruct (Hkeys (fst e)) as [Hin|[]]; [now apply in_map|exact Hin].
Qed.

Lemma extractKeywords_NoDup (description : string) :
  NoDup (extractKeywords description).
Proof.
  unfold extractKeywords. destruct description as [|c d]; [constructor|].
  set (t := String c d).
  rewrite <- firstn_map. apply NoDup_firstn.
  eapply Permutation_NoDup.
  { apply Permutation_map. apply sort_perm. }
  apply filter_keys_distinct.
  eapply Permutation_NoDup.
  { apply Permutation_map. apply Permutation_sym. apply entries_perm. }
  now apply count_words_keys; constructor.
Qed.

Lemma scoreRelevance_all (text : string) (keywords : list string) :
  (forall k, In k keywords -> includes text k = true) ->
  scoreRelevance text keywords = Z.of_nat (length keywords).
Proof.
  induction keywords as [|k ks IH]; intros H; [reflexivity|].
  cbn [scoreRelevance length]. rewrite (H k) by now left.
  rewrite IH by (intros k' Hk'; apply H; now right). lia.
Qed.

Lemma scoreRelevance_range (text : string) (keywords : list string) :
  (0 <= scoreRelevance text keywords <= Z.of_nat (length keywords))%Z.
Proof.
  induction keywords as [|k ks IH]; cbn [scoreRelevance length]; [lia|].
  destruct (includes text k); lia.
Qed.

Lemma extractKeywords_length (description : string) :
  length (extractKeywords description) <= 50.
Proof.
  unfold extractKeywords. destruct description; [simpl; lia|].
  rewrite length_map. apply firstn_le_length.
Qed.

End FrequencyFacts.

Module LocationFacts.
Import JS Model TextSpec TextFacts ProfileSpec Profile.

Lemma has_char_app (c : ascii) (a b : string) :
  has_char c (a ++ b) = has_char c a || has_char c b.
Proof.
  induction a as [|d a IH]; simpl; [reflexivity|].
  now rewrite IH, orb_assoc.
Qed.

Lemma split_on_parts (sep : ascii) (s : string) :
  forall cur : string,
    has_char sep cur = false ->
    Forall (fun part => has_char sep part = false)
      (JobExtractor.split_on sep cur s).
Proof.
  induction s as [|c s IH]; intros cur Hcur; cbn [JobExtractor.split_on].
  - now repeat constructor.
  - destruct (Ascii.eqb c sep) eqn:Hc.
    + constructor; [exact Hcur|]. now apply IH.
    + apply IH. rewrite has_char_app, Hcur. simpl. now rewrite Hc.
Qed.

Lemma has_char_trimStart (c : ascii) (s : string) :
  has_char c s = false -> has_char c (JobExtractor.trimStart s) = false.
Proof.
  induction s as [|d s IH]; [auto|].
  cbn [JobExtractor.trimStart]. destruct (is_space d); [|auto].
  simpl. rewrite orb_false_iff. intros [_ H]. now apply IH.
Qed.

Lemma has_char_trimEnd (c : ascii) (s : string) :
  has_char c s = false -> has_char c (JobExtractor.trimEnd s) = false.
Proof.
  induction s as [|d s IH]; [auto|].
  simpl. rewrite orb_false_iff. intros [Hd Hs].
  destruct (JobExtractor.trimEnd s) as [|e t] eqn:Ht.
  - destruct (is_space d); [reflexivity|]. simpl. now rewrite Hd.
  - cbn [has_char]. rewrite Hd. now apply IH.
Qed.

Lemma tidy_trim (s : string) :
  has_char "," s = false -> tidy (JobExtractor.trim s) = true.
Proof.
  intros H. unfold tidy, JobExtractor.trim.
  rewrite has_char_trimEnd by now apply has_char_trimStart.
  rewrite starts_trimEnd by apply starts_trimStart.
  now rewrite ends_trimEnd.
Qed.

Lemma trim_tidy (s : string) :
  tidy s = true -> tidy (JobExtractor.trim s) = true.
Proof.
  unfold tidy at 1. rewrite !andb_true_iff, !negb_true_iff.
  intros [[H _] _]. now apply tidy_trim.
Qed.

Lemma tidy_empty : tidy EmptyString = true.
Proof. reflexivity. Qed.

Lemma upper_plain (a : ascii) :
  is_upper a = true -> Ascii.eqb a "," = false /\ is_space a = false.
Proof.
  destruct a as [[] [] [] [] [] [] [] []]; try discriminate; now split.
Qed.

Lemma stateCode_tidy (s : string) : stateCode s = true -> tidy s = true.
Proof.
  destruct s as [|a [|b [|c s]]]; try discriminate.
  cbn [stateCode]. rewrite andb_true_iff. intros [Ha Hb].
  destruct (upper_plain Ha) as [Ha1 Ha2], (upper_plain Hb) as [Hb1 Hb2].
  unfold tidy. simpl. now rewrite Ha1, Hb1, Ha2, Hb2.
Qed.

Lemma stateMatch_groups (statePart code : string) (zip : option string) :
  stateMatch statePart = Some (code, zip) ->
  stateCode code = true
  /\ match zip with
     | Some digits =>
         String.length digits = 5 /\ ResumeTailor.all_digits digits = true
     | None => True
     end.
Proof.
  unfold stateMatch.
  destruct statePart as [|a [|b rest]]; try discriminate.
  destruct (is_upper a && is_upper b) eqn:Hab; [|discriminate].
  destruct rest as [|c rest].
  - intros H. injection H as <- <-. split; [exact Hab|exact I].
  - match goal with
    | |- (if ?x then _ else _) = _ -> _ => destruct x eqn:Hzip
    end; [|discriminate].
    intros H. injection H as <- <-. split; [exact Hab|].
    rewrite !andb_true_iff in Hzip. destruct Hzip as [[_ Hlen] Hdigits].
    apply Nat.eqb_eq in Hlen. now split.
Qed.

End LocationFacts.

Module RoundTripFacts.
Import JS Model TextSpec TextFacts ProfileSpec LocationFacts Profile StringFacts.
Local Open Scope string_scope.

Lemma split_on_none (sep : ascii) (a : string) :
  forall cur : string,
    has_char sep a = false ->
    JobExtractor.split_on sep cur a = [cur ++ a].
Proof.
  induction a as [|c a IH]; intros cur H; cbn [JobExtractor.split_on].
  - now rewrite append_nil_r.
  - simpl in H. rewrite orb_false_iff in H. destruct H as [Hc Ha].
    rewrite Hc, (IH _ Ha), append_assoc. reflexivity.
Qed.

Lemma split_on_app (sep : ascii) (a b : string) :
  forall cur : string,
    has_char sep a = false ->
    JobExtractor.split_on sep cur (a ++ String sep b)
    = (cur ++ a) :: JobExtractor.split_on sep "" b.
Proof.
  induction a as [|c a IH]; intros cur H; cbn [append JobExtractor.split_on].
  - now rewrite Ascii.eqb_refl, append_nil_r.
  - simpl in H. rewrite orb_false_iff in H. destruct H as [Hc Ha].
    rewrite Hc, (IH _ Ha), append_assoc. reflexivity.
Qed.

Lemma trimStart_id (s : string) :
  starts_with_space s = false -> JobExtractor.trimStart s = s.
Proof. destruct s as [|c s]; simpl; [auto|]. now intros ->. Qed.

Lemma trimEnd_id (s : string) :
  ends_with_space s = false -> JobExtractor.trimEnd s = s.
Proof.
  induction s as [|c s IH]; [auto|].
  cbn [ends_with_space JobExtractor.trimEnd].
  destruct s as [|d s].
  - simpl. now intros ->.
  - intros H. rewrite (IH H). reflexivity.
Qed.

Lemma trim_id (s : string) :
  tidy s = true -> JobExtractor.trim s = s.
Proof.
  unfold tidy. rewrite !andb_true_iff, !negb_true_iff.
  intros [[_ Hs] He]. unfold JobExtractor.trim.
  rewrite (trimStart_id Hs). now apply trimEnd_id.
Qed.

Lemma digit_plain (c : ascii) :
  is_digit c = true -> Ascii.eqb c "," = false /\ is_space c = false.
Proof.
  destruct c as [[] [] [] [] [] [] [] []]; try discriminate; now split.
Qed.

Lemma digits_plain (s : string) :
  ResumeTailor.all_digits s = true ->
  has_char "," s = false
  /\ starts_with_space s = false /\ ends_with_space s = false.
Proof.
  induction s as [|c s IH]; [now repeat split|].
  cbn [ResumeTailor.all_digits]. rewrite andb_true_iff. intros [Hc Hs].
  destruct (digit_plain Hc) as [Hc1 Hc2].
  destruct (IH Hs) as [H1 [H2 H3]].
  cbn [has_char starts_with_space ends_with_space]. rewrite Hc1, Hc2.
  repeat split; auto. now destruct s.
Qed.

Lemma ends_app (a b : string) :
  b <> "" -> ends_with_space (a ++ b) = ends_with_space b.
Proof.
  intros Hb. induction a as [|c a IH]; [reflexivity|].
  cbn [append ends_with_space]. rewrite IH.
  destruct (a ++ b) eqn:Hab; [|reflexivity].
  destruct a; [contradiction|discriminate].
Qed.

End RoundTripFacts.

Module ProfileFacts.
Import JS Model FormFiller PatternMeaning TextSpec TextFacts ReplaceFacts Profile
  ProfileSpec.

Lemma replace_nonDigit (p : string) :
  RegExp.replace false nonDigit EmptyString p = keep is_digit p.
Proof.
  unfold RegExp.replace, nonDigit.
  rewrite replace_class_empty by lia.
  apply keep_ext. intros c. unfold in_class. cbn [RegExp.in_charset].
  now destruct (is_digit c).
Qed.

Lemma keep_digits_id (s : string) :
  ResumeTailor.all_digits s = true -> keep is_digit s = s.
Proof.
  induction s as [|c s IH]; simpl; [reflexivity|].
  rewrite andb_true_iff. intros [Hc Hs]. now rewrite Hc, IH.
Qed.

Lemma stripPhone_string (p : string) :
  stripPhone (JString p) = Normal (keep is_digit p).
Proof.
  unfold stripPhone. destruct p as [|c p]; [reflexivity|].
  cbn [truthy negb]. now rewrite replace_nonDigit.
Qed.

Lemma stripPhone_returns (phone : JSValue) (digits : string) :
  stripPhone phone = Normal digits ->
  ResumeTailor.all_digits digits = true
  /\ forall p, phone = JString p -> digits = keep is_digit p.
Proof.
  destruct phone as [| |b|n|p|o]; unfold stripPhone;
    try (destruct (negb (truthy _)); [|discriminate];
         intros H; injection H as <-; split; [reflexivity|discriminate]).
  fold (stripPhone (JString p)). rewrite stripPhone_string.
  intros H. injection H as <-. split; [apply keep_digits|].
  intros q Hq. now injection Hq as <-.
Qed.

Lemma either_empty (x : JSValue) :
  truthy (either x (JString EmptyString)) = false ->
  either x (JString EmptyString) = JString EmptyString.
Proof. unfold either. destruct (truthy x) eqn:Hx; [congruence|auto]. Qed.

Lemma parseLocation_address (location : JSValue) (l : Location) :
  parseLocation location = Normal l ->
  JString (address l)
  = (if truthy location then location else JString EmptyString).
Proof.
  unfold parseLocation.
  destruct (truthy location) eqn:Htruthy; cbn [negb].
  - destruct location; try discriminate. intros H. now injection H as <-.
  - intros H. now injection H as <-.
Qed.

Lemma parseLocation_own (x : JSValue) (l : Location) :
  parseLocation (either x (JString EmptyString)) = Normal l ->
  JString (address l) = either x (JString EmptyString).
Proof.
  intros H. rewrite (parseLocation_address H).
  destruct (truthy (either x (JString EmptyString))) eqn:Ht; [reflexivity|].
  symmetry. now apply either_empty.
Qed.

Lemma lookup_absent (A : Type) (l : list (string * A)) (key : string) :
  existsb (fun k => String.eqb k key) (map fst l) = false ->
  lookup l key = None.
Proof.
  induction l as [|[k v] l IH]; simpl; [reflexivity|].
  rewrite orb_false_iff. intros [Hk Hl]. rewrite Hk. now apply IH.
Qed.

Lemma get_absent (o : list (string * JSValue)) (key : string) :
  existsb (fun k => String.eqb k key) (map fst o) = false ->
  inherited key = false ->
  get o key = JUndefined.
Proof.
  intros Hkey Hin. unfold get. now rewrite (lookup_absent Hkey), Hin.
Qed.

Lemma getDefaultProfile_keys (profile : option Stored) (data : TailoredData) :
  getDefaultProfile profile = Normal data ->
  map fst data
  = [ "firstName"; "lastName"; "fullName"; "email"; "phone";
      "phoneStripped"; "location"; "linkedin"; "github"; "portfolio";
      "city"; "state"; "country"; "postalCode"; "address"; "summary";
      "experience"; "education"; "skills" ]%string.
Proof.
  unfold getDefaultProfile.
  destruct (stripPhone _) as [digits|e]; [|discriminate].
  destruct (parseLocation _) as [l|e]; [|discriminate].
  intros H. now injection H as <-.
Qed.

End ProfileFacts.

Module TailorDataFacts.
Import JS Model FormFiller TextSpec TextFacts ReplaceFacts Profile ProfileSpec
  ProfileFacts.

Lemma lookup_In (A : Type) (l : list (string * A)) (key : string) (v : A) :
  NoDup (map fst l) -> In (key, v) l -> lookup l key = Some v.
Proof.
  induction l as [|[k x] l IH]; simpl; [contradiction|].
  intros Hnd Hin. inversion Hnd as [|? ? Hfresh Hrest]; subst.
  destruct Hin as [Heq|Hin].
  - injection Heq as -> ->. now rewrite String.eqb_refl.
  - destruct (String.eqb_spec k key) as [->|_]; [|now apply IH].
    exfalso. apply Hfresh. apply in_map_iff. now exists (key, v).
Qed.

Lemma get_In (o : list (string * JSValue)) (key : string) (v : JSValue) :
  NoDup (map fst o) -> In (key, v) o -> get o key = v.
Proof. intros Hnd Hin. unfold get. now rewrite (lookup_In Hnd Hin). Qed.

Lemma either_truthy (a b : JSValue) :
  truthy a = true -> either a b = a.
Proof. unfold either. now intros ->. Qed.

Ltac listed := simpl; repeat (first [left; reflexivity | right]).

(** What the form filler reads from the object [tailor] returns. *)
Lemma tailor_values (resume : option Resume) (profile : option Stored)
    (jobDescription : option ResumeTailor.JobPosting) (data : TailoredData) :
  tailor resume profile jobDescription = Normal data ->
  exists (digits : string) (l : Location) (phone location : JSValue),
    stripPhone phone = Normal digits
    /\ parseLocation location = Normal l
    /\ JString (address l) = location
    /\ get data "phone" = phone
    /\ get data "phoneStripped" = JString digits
    /\ get data "location" = location
    /\ get data "address" = JString (address l)
    /\ get data "city" = JString (city l)
    /\ get data "state" = JString (state l)
    /\ get data "country" = JString (country l)
    /\ get data "postalCode" = JString (postalCode l)
    /\ forall key : string,
         In key contactKeys -> truthy (field profile key) = true ->
         get data key = field profile key.
Proof.
  intros Htailor.
  assert (Hcases :
            getDefaultProfile profile = Normal data
            \/ exists r c, resume = Some r /\ contact r = Some c).
  { destruct resume as [r|]; [|now left].
    destruct (contact r) as [c|] eqn:Hc.
    - right. now exists r, c.
    - left. unfold tailor in Htailor. now rewrite Hc in Htailor. }
  destruct Hcases as [Hdefault|[r [c [-> Hc]]]].
  - clear Htailor. unfold getDefaultProfile in Hdefault.
    destruct (stripPhone _) as [digits|e] eqn:Hphone; [|discriminate].
    destruct (parseLocation _) as [l|e] eqn:Hloc; [|discriminate].
    injection Hdefault as Hdata.
    assert (Hnd : NoDup (map fst data)).
    { rewrite <- Hdata. apply KeywordFacts.distinct_NoDup. reflexivity. }
    exists digits, l, (either (field profile "phone") (JString "")),
      (either (field profile "location") (JString "")).
    split; [exact Hphone|]. split; [exact Hloc|].
    split; [exact (parseLocation_own Hloc)|].
    repeat split;
      try (apply (get_In Hnd); rewrite <- Hdata; listed).
    intros key Hkey Htruthy.
    transitivity (either (field profile key) (JString ""));
      [|now apply either_truthy].
    apply (get_In Hnd). rewrite <- Hdata. simpl in Hkey.
    destruct Hkey as [<-|[<-|[<-|[<-|[<-|[<-|[<-|[<-|[]]]]]]]]]; listed.
  - unfold tailor in Htailor. rewrite Hc in Htailor.
    destruct (stripPhone _) as [digits|e] eqn:Hphone; [|discriminate].
    destruct (parseLocation _) as [l|e] eqn:Hloc; [|discriminate].
    injection Htailor as Hdata.
    assert (Hnd : NoDup (map fst data)).
    { rewrite <- Hdata. apply KeywordFacts.distinct_NoDup. reflexivity. }
    exists digits, l,
      (either (either (field profile "phone") (get c "phone")) (JString "")),
      (either (either (field profile "location") (get c "location"))
         (JString "")).
    split; [exact Hphone|]. split; [exact Hloc|].
    split; [exact (parseLocation_own Hloc)|].
    repeat split;
      try (apply (get_In Hnd); rewrite <- Hdata; listed).
    intros key Hkey Htruthy.
    transitivity (either (either (field profile key) (get c key))
                    (JString "")).
    2:{ rewrite (either_truthy (get c key) Htruthy).
        now apply either_truthy. }
    apply (get_In Hnd). rewrite <- Hdata. simpl in Hkey.
    destruct Hkey as [<-|[<-|[<-|[<-|[<-|[<-|[<-|[<-|[]]]]]]]]]; listed.
Qed.

End TailorDataFacts.

(** X8. The keywords of the resume tailor are distinct words of the
    description in lower case, so each of them occurs in that text, and the
    description itself scores one point for every keyword. *)
Theorem extractKeywords_distinct_words_of_the_text (description : string) :
  NoDup (ResumeTailor.extractKeywords description)
  /\ (forall keyword : string,
         In keyword (ResumeTailor.extractKeywords description) ->
         In keyword (ResumeTailor.split_W (toLowerCase description))
         /\ includes (toLowerCase description) keyword = true)
  /\ ResumeTailor.scoreRelevance (toLowerCase description)
       (ResumeTailor.extractKeywords description)
     = Z.of_nat (length (ResumeTailor.extractKeywords description)).
Proof.
  assert (Hwords : forall keyword : string,
             In keyword (ResumeTailor.extractKeywords description) ->
             In keyword (ResumeTailor.split_W (toLowerCase description))
             /\ includes (toLowerCase description) keyword = true).
  { intros keyword H. apply FrequencyFacts.extractKeywords_words in H.
    split; [exact H|]. now apply FrequencyFacts.split_W_includes. }
  split; [apply FrequencyFacts.extractKeywords_NoDup|].
  split; [exact Hwords|].
  apply FrequencyFacts.scoreRelevance_all. intros k Hk. now apply Hwords.
Qed.

(** X9. For a posting with a description, every entry
    [prioritizeExperience] returns is an entry it was given with its score
    added, and the score is the number of job keywords found, between 0 and
    50; for a posting without a description the entries come back as they
    were given, without a score. *)
Theorem prioritizeExperience_scores_in_range
    (experience : option (list ResumeTailor.Experience))
    (jobDescription : option ResumeTailor.JobPosting) :
  let input := match experience with Some l => l | None => [] end in
  let out :=
    ResumeTailor.prioritizeExperience
      (ResumeTailor.jobKeywords_of jobDescription) experience jobDescription in
  (ResumeTailor.truthy (ResumeTailor.description_of jobDescription) = true ->
   forall e : ResumeTailor.Experience,
     In e out ->
     exists (given : ResumeTailor.Experience) (score : Z),
       In given input
       /\ e = ResumeTailor.with_score
                (ResumeTailor.jobKeywords_of jobDescription) given
       /\ ResumeTailor.exp_score e = Some score
       /\ (0 <= score <= 50)%Z)
  /\ (ResumeTailor.truthy (ResumeTailor.description_of jobDescription) = false ->
      out = input).
Proof.
  intros input out. subst input out.
  unfold ResumeTailor.prioritizeExperience. split.
  - intros Hd e He. rewrite Hd in He.
    destruct experience as [[|x l]|]; try contradiction.
    cbn [negb] in He. apply SortFacts.sort_In in He.
    apply in_map_iff in He. destruct He as [given [<- Hgiven]].
    exists given. eexists. split; [exact Hgiven|]. split; [reflexivity|].
    split; [reflexivity|].
    match goal with
    | |- (0 <= ResumeTailor.scoreRelevance ?t ?k <= 50)%Z =>
        assert (Hr := FrequencyFacts.scoreRelevance_range t k);
        assert (Hl := FrequencyFacts.extractKeywords_length
                        (match ResumeTailor.description_of jobDescription with
                         | Some d => d
                         | None => EmptyString
                         end))
    end.
    unfold ResumeTailor.jobKeywords_of in *. lia.
  - intros Hd. rewrite Hd. now destruct experience as [[|x l]|].
Qed.

(** X10. Prioritizing a list of skills that was prioritized for the same
    posting changes nothing. *)
Theorem prioritizeSkills_twice (skills : option (list string))
    (jobDescription : option ResumeTailor.JobPosting) :
  ResumeTailor.prioritizeSkills
    (Some (ResumeTailor.prioritizeSkills skills jobDescription)) jobDescription
  = ResumeTailor.prioritizeSkills skills jobDescription.
Proof.
  unfold ResumeTailor.prioritizeSkills.
  destruct skills as [[|s l]|]; try reflexivity.
  destruct (ResumeTailor.description_of jobDescription) as [[|c d]|];
    try reflexivity.
  set (jobText := toLowerCase (String c d)).
  rewrite (TailorFacts.prioritizeSkills_sorts (s :: l) jobText).
  set (out := JS.sort (descending (ResumeTailor.skillScore jobText)) (s :: l)).
  assert (Hlen : length out = length (s :: l)) by apply SortFacts.sort_length.
  destruct out as [|x out'] eqn:Hout; [discriminate|].
  rewrite (TailorFacts.prioritizeSkills_sorts (x :: out') jobText).
  rewrite <- Hout.
  apply SortFacts.stable_sorted_unique with
    (key := ResumeTailor.skillScore jobText).
  - apply SortFacts.descending_sorted.
  - subst out. apply SortFacts.descending_sorted.
  - intros v. apply SortFacts.descending_stable.
Qed.

(** X11. [stripPhone] keeps the digits of a text in their order and
    nothing else, so that a result is left as it is by a second call; on a
    value that is truthy and not a text it raises a [TypeError]. *)
Theorem stripPhone_keeps_the_digits (phone : JSValue) :
  (forall p : string,
      phone = JString p ->
      Profile.stripPhone phone = Normal (TextSpec.keep is_digit p))
  /\ (forall digits : string,
         Profile.stripPhone phone = Normal digits ->
         ResumeTailor.all_digits digits = true
         /\ Profile.stripPhone (JString digits) = Normal digits)
  /\ (truthy phone = true -> (forall p : string, phone <> JString p) ->
      Profile.stripPhone phone = Throw TypeError).
Proof.
  split; [|split].
  - intros p ->. apply ProfileFacts.stripPhone_string.
  - intros digits H.
    destruct (ProfileFacts.stripPhone_returns H) as [Hd _].
    split; [exact Hd|].
    rewrite ProfileFacts.stripPhone_string.
    now rewrite (ProfileFacts.keep_digits_id Hd).
  - intros Ht Hn. unfold Profile.stripPhone. rewrite Ht.
    destruct phone; try reflexivity. now contradiction (Hn s).
Qed.

(** X12. Whatever [parseLocation] returns, the address is the location
    it was given (empty for a falsy one); city, state and country hold no
    comma and no white space at either end; and the postal code is empty or
    made of five digits, in which case the state is two capital letters. *)
Theorem parseLocation_components (location : JSValue) (l : Profile.Location) :
  Profile.parseLocation location = Normal l ->
  JString (Profile.address l)
  = (if FormFiller.truthy location then location else JString EmptyString)
  /\ ProfileSpec.tidy (Profile.city l) = true
  /\ ProfileSpec.tidy (Profile.state l) = true
  /\ ProfileSpec.tidy (Profile.country l) = true
  /\ (Profile.postalCode l = EmptyString
      \/ (String.length (Profile.postalCode l) = 5
          /\ ResumeTailor.all_digits (Profile.postalCode l) = true
          /\ ProfileSpec.stateCode (Profile.state l) = true)).
Proof.
  unfold Profile.parseLocation.
  destruct (FormFiller.truthy location) eqn:Htruthy; cbn [negb].
  2:{ intros H. injection H as <-. simpl. repeat split; auto. }
  destruct location as [| | | |text|]; try discriminate.
  intros H. injection H as <-. cbn [Profile.address Profile.city Profile.state
                                     Profile.country Profile.postalCode].
  split; [reflexivity|].
  assert (Hparts : Forall (fun part => ProfileSpec.tidy part = true)
                     (map JobExtractor.trim (JobExtractor.split "," text))).
  { assert (H := @LocationFacts.split_on_parts "," text EmptyString eq_refl).
    unfold JobExtractor.split. induction H; simpl; constructor; auto.
    now apply LocationFacts.tidy_trim. }
  destruct (map JobExtractor.trim (JobExtractor.split "," text))
    as [|first [|second rest]].
  - simpl. repeat split; auto.
  - inversion Hparts; subst. simpl. repeat split; auto.
  - inversion Hparts as [|? ? Hfirst Hrest]; subst.
    inversion Hrest as [|? ? Hsecond Hthird]; subst.
    split; [exact Hfirst|].
    assert (Hcountry : ProfileSpec.tidy
                         match rest with
                         | third :: _ => third
                         | [] => EmptyString
                         end = true).
    { destruct rest; [reflexivity|]. now inversion Hthird. }
    destruct (Profile.stateMatch (JobExtractor.trim second))
      as [[code [zip|]]|] eqn:Hmatch; cbn [fst snd].
    + destruct (LocationFacts.stateMatch_groups Hmatch) as [Hcode [Hlen Hdigits]].
      split; [now apply LocationFacts.stateCode_tidy|].
      split; [exact Hcountry|]. right. auto.
    + destruct (LocationFacts.stateMatch_groups Hmatch) as [Hcode _].
      split; [now apply LocationFacts.stateCode_tidy|].
      split; [exact Hcountry|]. now left.
    + split; [now apply LocationFacts.trim_tidy|].
      split; [exact Hcountry|]. now left.
Qed.

(** The components of a city and a state written out. *)
Lemma parseLocation_austin_texas :
  ProfileSpec.tidy "Austin" = true /\ ProfileSpec.tidy "Texas" = true.
Proof.
  destruct (@parseLocation_components (JString "Austin, Texas")
              {| Profile.city := "Austin";
                 Profile.state := "Texas";
                 Profile.country := EmptyString;
                 Profile.postalCode := EmptyString;
                 Profile.address := "Austin, Texas" |} eq_refl)
    as [_ [Hcity [Hstate _]]].
  now split.
Defined.

(** X13. A location written as a city, a comma, a state code of two
    capital letters, a space and a postal code of five digits is taken
    apart into that city, that state code and that postal code. *)
Theorem parseLocation_city_state_zip (cityName code zip : string) :
  ProfileSpec.tidy cityName = true ->
  ProfileSpec.stateCode code = true ->
  String.length zip = 5 ->
  ResumeTailor.all_digits zip = true ->
  Profile.parseLocation (JString (cityName ++ ", " ++ code ++ " " ++ zip))
  = Normal {| Profile.city := cityName;
              Profile.state := code;
              Profile.country := EmptyString;
              Profile.postalCode := zip;
              Profile.address := (cityName ++ ", " ++ code ++ " " ++ zip)%string |}.
Proof.
  intros Hcity Hcode Hlen Hzip.
  destruct code as [|a [|b [|? ?]]]; try discriminate.
  cbn [ProfileSpec.stateCode] in Hcode. apply andb_true_iff in Hcode.
  destruct Hcode as [Ha Hb].
  destruct (LocationFacts.upper_plain Ha) as [Ha1 Ha2].
  destruct (LocationFacts.upper_plain Hb) as [Hb1 Hb2].
  destruct (RoundTripFacts.digits_plain Hzip) as [Hz1 [Hz2 Hz3]].
  destruct zip as [|z0 zip']; [discriminate|].
  assert (Hcomma : TextSpec.has_char "," cityName = false).
  { unfold ProfileSpec.tidy in Hcity.
    rewrite !andb_true_iff, !negb_true_iff in Hcity. tauto. }
  set (zip := String z0 zip') in *.
  set (second := (" " ++ String a (String b (" " ++ zip)))%string).
  assert (Hsplit : JobExtractor.split ","
                     (cityName ++ ", " ++ String a (String b "") ++ " " ++ zip)
                   = [cityName; second]).
  { unfold JobExtractor.split.
    change (cityName ++ ", " ++ String a (String b "") ++ " " ++ zip)%string
      with (cityName ++ String "," second)%string.
    rewrite RoundTripFacts.split_on_app by exact Hcomma.
    rewrite RoundTripFacts.split_on_none; [reflexivity|].
    subst second. cbn [append TextSpec.has_char].
    rewrite Ha1, Hb1. exact Hz1. }
  assert (Htrim : JobExtractor.trim second = String a (String b (" " ++ zip))).
  { unfold JobExtractor.trim. subst second.
    cbn [append JobExtractor.trimStart]. change (is_space " ") with true.
    cbn iota. rewrite Ha2.
    apply RoundTripFacts.trimEnd_id.
    change (String a (String b (String " " zip)))
      with ((String a (String b " ")) ++ zip)%string.
    rewrite RoundTripFacts.ends_app by discriminate. exact Hz3. }
  assert (Hagain : JobExtractor.trim (String a (String b (" " ++ zip)))
                   = String a (String b (" " ++ zip))).
  { unfold JobExtractor.trim. cbn [JobExtractor.trimStart]. rewrite Ha2.
    apply RoundTripFacts.trimEnd_id.
    change (String a (String b (" " ++ zip)))
      with ((String a (String b " ")) ++ zip)%string.
    rewrite RoundTripFacts.ends_app by discriminate. exact Hz3. }
  assert (Hmatch : Profile.stateMatch (String a (String b (" " ++ zip)))
                   = Some (String a (String b ""), Some zip)).
  { unfold Profile.stateMatch. rewrite Ha, Hb. cbn [andb append].
    cbn [JobExtractor.trimStart]. change (is_space " ") with true. cbn iota.
    rewrite (RoundTripFacts.trimStart_id Hz2).
    cbn [String.length]. fold zip. rewrite Hlen, Hzip. reflexivity. }
  unfold Profile.parseLocation.
  assert (Htruthy : FormFiller.truthy
                      (JString (cityName ++ ", " ++ String a (String b "")
                                ++ " " ++ zip)) = true).
  { destruct cityName; reflexivity. }
  rewrite Htruthy. cbn [negb]. rewrite Hsplit. cbn [map].
  rewrite Htrim, Hagain, Hmatch, (RoundTripFacts.trim_id Hcity).
  reflexivity.
Qed.

(** An address in Austin. *)
Lemma parseLocation_austin :
  Profile.parseLocation (JString "Austin, TX 78701")
  = Normal {| Profile.city := "Austin";
              Profile.state := "TX";
              Profile.country := EmptyString;
              Profile.postalCode := "78701";
              Profile.address := "Austin, TX 78701" |}.
Proof.
  apply (@parseLocation_city_state_zip "Austin" "TX" "78701");
    reflexivity.
Defined.

(** X14. In the data [tailor] returns, the form field [address] holds the
    whole location, as the field [location] does; the field
    [phone_stripped] holds the digits of the field [phone]; and a contact
    property the profile has a truthy value for is taken from the profile,
    whatever the resume says. *)
Theorem tailor_address_is_the_location
    (resume : option Profile.Resume) (profile : option Profile.Stored)
    (jobDescription : option ResumeTailor.JobPosting) (data : TailoredData) :
  Profile.tailor resume profile jobDescription = Normal data ->
  getValueForField "address" data = getValueForField "location" data
  /\ (exists digits : string,
         getValueForField "phone_stripped" data = JString digits
         /\ ResumeTailor.all_digits digits = true
         /\ forall p : string,
              getValueForField "phone" data = JString p ->
              digits = TextSpec.keep is_digit p)
  /\ (forall key : string,
         In key ProfileSpec.contactKeys ->
         truthy (Profile.field profile key) = true ->
         get data key = Profile.field profile key).
Proof.
  intros Htailor.
  destruct (TailorDataFacts.tailor_values Htailor)
    as [digits [l [phone [location
         [Hphone [Hloc [Haddr [H1 [H2 [H3 [H4 [_ [_ [_ [_ H5]]]]]]]]]]]]]]].
  change (getValueForField "address" data) with (get data "address").
  change (getValueForField "location" data) with (get data "location").
  change (getValueForField "phone_stripped" data)
    with (get data "phoneStripped").
  change (getValueForField "phone" data) with (get data "phone").
  split; [now rewrite H4, H3|].
  split; [|exact H5].
  exists digits. split; [exact H2|].
  destruct (ProfileFacts.stripPhone_returns Hphone) as [Hd Hp].
  split; [exact Hd|]. intros p Hpp. apply Hp. now rewrite <- H1.
Qed.

(** The data of the stored resume and profile of the demonstration. *)
Lemma tailored_address_example :
  getValueForField "address" Demo.tailored = JString "London, UK"
  /\ getValueForField "location" Demo.tailored = JString "London, UK".
Proof.
  destruct (@tailor_address_is_the_location (Some Demo.storedResume)
              (Some Demo.storedProfile) None Demo.tailored eq_refl)
    as [Hsame _].
  split; [rewrite Hsame|]; vm_compute; reflexivity.
Defined.

(** X15. When the stored resume has no contact section, [tailor] builds
    the data from the profile alone and leaves out the work authorisation
    and the answers to the equal-opportunity questions: [fillField] skips
    these six fields without looking at the page, whatever the profile
    holds. *)
Theorem tailor_without_contact_drops_screening_answers {D : Dom}
    (resume : option Profile.Resume) (profile : option Profile.Stored)
    (jobDescription : option ResumeTailor.JobPosting) (data : TailoredData)
    (fieldName : string) (selectorConfigs : SelectorConfigs)
    (atsConfig : ATSConfig) (w : World) :
  match resume with
  | Some r => Profile.contact r = None
  | None => True
  end ->
  Profile.tailor resume profile jobDescription = Normal data ->
  In fieldName ProfileSpec.screeningFields ->
  getValueForField fieldName data = JUndefined
  /\ fillField fieldName selectorConfigs data atsConfig w = (Normal false, w).
Proof.
  intros Hcontact Htailor Hfield.
  assert (Hdefault : Profile.getDefaultProfile profile = Normal data).
  { destruct resume as [r|]; [|exact Htailor].
    unfold Profile.tailor in Htailor. now rewrite Hcontact in Htailor. }
  clear Htailor Hcontact.
  assert (Hkeys := ProfileFacts.getDefaultProfile_keys Hdefault).
  assert (Hvalue : getValueForField fieldName data = JUndefined).
  { simpl in Hfield.
    destruct Hfield as [<-|[<-|[<-|[<-|[<-|[<-|[]]]]]]].
    - change (get data "authorizedToWork" = JUndefined).
      apply ProfileFacts.get_absent; [now rewrite Hkeys|reflexivity].
    - change (get data "requiresSponsorship" = JUndefined).
      apply ProfileFacts.get_absent; [now rewrite Hkeys|reflexivity].
    - change (get data "gender" = JUndefined).
      apply ProfileFacts.get_absent; [now rewrite Hkeys|reflexivity].
    - change (get data "ethnicity" = JUndefined).
      apply ProfileFacts.get_absent; [now rewrite Hkeys|reflexivity].
    - change (get data "veteran" = JUndefined).
      apply ProfileFacts.get_absent; [now rewrite Hkeys|reflexivity].
    - change (get data "disability" = JUndefined).
      apply ProfileFacts.get_absent; [now rewrite Hkeys|reflexivity]. }
  split; [exact Hvalue|].
  unfold fillField. rewrite Hvalue.
  simpl in Hfield.
  destruct Hfield as [<-|[<-|[<-|[<-|[<-|[<-|[]]]]]]]; reflexivity.
Qed.

(** The profile of the demonstration states a gender; without a resume the
    field is skipped. *)
Lemma gender_skipped_without_contact :
  fillField (D := Demo.staticDom) "gender" (ConfigSingle (Simple "#gender"))
    Demo.profileAlone Demo.greenhouse Demo.atStart
  = (Normal false, Demo.atStart).
Proof.
  apply (proj2 (@tailor_without_contact_drops_screening_answers
                  Demo.staticDom None (Some Demo.storedProfile) None
                  Demo.profileAlone "gender"
                  (ConfigSingle (Simple "#gender")) Demo.greenhouse
                  Demo.atStart I eq_refl
                  (or_intror (or_intror (or_introl eq_refl))))).
Defined.

(** ** FormFiller *)

Module FieldFacts.
Import JS Model FormFiller FillerSpec FieldSpec ProfileFacts.

Section WithDom.
Context {D : Dom}.

Lemma getValueForField_unknown (fieldName : string) (data : TailoredData) :
  ~ In fieldName fieldNames -> inherited fieldName = false ->
  getValueForField fieldName data = JUndefined.
Proof.
  intros Hno Hin. unfold getValueForField.
  apply get_absent; [|exact Hin].
  change (existsb (fun k => String.eqb k fieldName) fieldNames = false).
  destruct (existsb (fun k => String.eqb k fieldName) fieldNames) eqn:He;
    [|reflexivity].
  apply existsb_exists in He. destruct He as [k [Hk Heq]].
  apply String.eqb_eq in Heq. subst k. contradiction.
Qed.

Lemma fillField_blank (fieldName : string) (selectorConfigs : SelectorConfigs)
    (data : TailoredData) (atsConfig : ATSConfig) (w : World) :
  blank (getValueForField fieldName data) = true ->
  fillField fieldName selectorConfigs data atsConfig w = (Normal false, w).
Proof.
  intros Hblank. unfold fillField.
  destruct (String.eqb fieldName "resume"); [reflexivity|].
  destruct (getValueForField fieldName data) as [| |b|[z| |n]|[|c s]|o];
    try discriminate; reflexivity.
Qed.

(** *** A table name in [values] *)

Lemma tryFill_withoutTableName (fieldName : string)
    (selectorConfig : SelectorConfig) (value : JSValue)
    (atsConfig atsConfig' : ATSConfig) (w : World) :
  defaultMethod atsConfig' = defaultMethod atsConfig ->
  tryFillWithSelector fieldName (withoutTableName selectorConfig) value
    atsConfig' w
  = tryFillWithSelector fieldName selectorConfig value atsConfig w.
Proof.
  intros Hm.
  destruct selectorConfig as [selector|config| |]; cbn [withoutTableName].
  - cbn [tryFillWithSelector]. now rewrite Hm.
  - destruct (c_values config) as [[table|entries]|] eqn:Hv;
      cbn [tryFillWithSelector]; unfold fillComplexSelector, transformed,
        executeActions; cbn [c_path c_method c_values c_actions];
      rewrite ?Hv, Hm; reflexivity.
  - reflexivity.
  - reflexivity.
Qed.

Lemma fillField_loop_withoutTableName (fieldName : string)
    (configList : list SelectorConfig) (value : JSValue)
    (atsConfig atsConfig' : ATSConfig) :
  defaultMethod atsConfig' = defaultMethod atsConfig ->
  forall w : World,
    fillField_loop fieldName (map withoutTableName configList) value
      atsConfig' w
    = fillField_loop fieldName configList value atsConfig w.
Proof.
  intros Hm. induction configList as [|sc rest IH]; intros w; [reflexivity|].
  cbn [map fillField_loop]. unfold bind at 1 2, try_catch.
  rewrite (tryFill_withoutTableName fieldName sc value w Hm).
  destruct (tryFillWithSelector fieldName sc value atsConfig w)
    as [[[|]|e] w1]; cbn [ret]; try reflexivity; apply IH.
Qed.

Lemma fillField_withoutTableNames (fieldName : string)
    (selectorConfigs : SelectorConfigs) (data : TailoredData)
    (atsConfig atsConfig' : ATSConfig) (w : World) :
  defaultMethod atsConfig' = defaultMethod atsConfig ->
  fillField fieldName (withoutTableNames selectorConfigs) data atsConfig' w
  = fillField fieldName selectorConfigs data atsConfig w.
Proof.
  intros Hm. unfold fillField.
  destruct (String.eqb fieldName "resume"); [reflexivity|].
  match goal with |- context [if ?c then _ else _] => destruct c end;
    [reflexivity|].
  destruct selectorConfigs as [l|c]; cbn [withoutTableNames].
  - now apply fillField_loop_withoutTableName.
  - now apply (fillField_loop_withoutTableName fieldName [c]).
Qed.

Lemma fill_loop_withoutTableNames
    (selectors : list (string * SelectorConfigs)) (data : TailoredData)
    (atsConfig atsConfig' : ATSConfig) :
  defaultMethod atsConfig' = defaultMethod atsConfig ->
  forall (filled skipped : nat) (w : World),
    fill_loop
      (map (fun entry => (fst entry, withoutTableNames (snd entry))) selectors)
      data atsConfig' filled skipped w
    = fill_loop selectors data atsConfig filled skipped w.
Proof.
  intros Hm. induction selectors as [|[fieldName cfgs] rest IH];
    intros filled skipped w; [reflexivity|].
  cbn [map fill_loop fst snd]. unfold bind at 1 3.
  rewrite (fillField_withoutTableNames fieldName cfgs data w Hm).
  destruct (fillField fieldName cfgs data atsConfig w) as [[ok|e] w1];
    [|reflexivity].
  unfold bind at 1 2.
  destruct (delay fillDelay w1) as [[[]|e] w2]; [|reflexivity].
  destruct ok; apply IH.
Qed.

(** *** Nothing to fill in *)

Lemma fill_loop_blank (selectors : list (string * SelectorConfigs))
    (data : TailoredData) (config : ATSConfig) :
  Forall (fun entry => blank (getValueForField (fst entry) data) = true)
    selectors ->
  forall (filled skipped : nat) (w : World),
    exists w' : World,
      fill_loop selectors data config filled skipped w
      = (Normal {| filledCount := filled;
                   skipCount := skipped + length selectors |}, w')
      /\ trace w' = repeat (Slept fillDelay) (length selectors) ++ trace w
      /\ page w' = page_after (length selectors) (page w)
      /\ clock w' = (clock w + 100 * Z.of_nat (length selectors))%Z.
Proof.
  induction 1 as [|[fieldName cfgs] rest Hblank _ IH]; intros filled skipped w.
  - exists w. cbn [fill_loop length repeat app page_after ret].
    rewrite Nat.add_0_r. repeat split. simpl. lia.
  - cbn [fst] in Hblank.
    rewrite (FillerFacts.fill_loop_step rest filled skipped
               (fillField_blank cfgs config w Hblank)).
    destruct (IH filled (S skipped) (after_pause w)) as [w' [Hr [Ht [Hp Hc]]]].
    exists w'. cbn [length]. split.
    + rewrite Hr. rewrite <- Nat.add_succ_comm. reflexivity.
    + split; [|split].
      * rewrite Ht. unfold after_pause, delay. cbn [snd trace repeat].
        change (Slept fillDelay :: repeat (Slept fillDelay) (length rest)
                ++ trace w)
          with ((Slept fillDelay :: repeat (Slept fillDelay) (length rest))
                ++ trace w).
        rewrite (repeat_cons (length rest) (Slept fillDelay)).
        now rewrite <- app_assoc.
      * rewrite Hp. reflexivity.
      * rewrite Hc. unfold after_pause, delay. cbn [snd clock].
        unfold fillDelay. lia.
Qed.

End WithDom.
End FieldFacts.

Module ActionFacts.
Import JS Model FormFiller FieldSpec.

Section WithDom.
Context {D : Dom}.

Lemma executeActions_from_false (inputPath : option PathSpec)
    (value : JSValue) (actions : list Action) :
  forall (cur : Elem) (w w' : World),
    executeActions_from cur inputPath actions value w = (Normal false, w') ->
    existsb (requiredWait inputPath) actions = true.
Proof.
  induction actions as [|action rest IH]; intros cur w w';
    cbn [executeActions_from existsb]; [discriminate|].
  unfold requiredWait at 1.
  destruct (method_is (a_method action) "uploadResume"); cbn [negb andb orb].
  { apply IH. }
  unfold bind at 1.
  destruct (executeAction cur action value w) as [[[]|e] w1]; [|discriminate].
  unfold bind at 1.
  destruct (stepDelay action w1) as [[[]|e] w2]; [|discriminate].
  destruct (a_time action) as [time|]; cbn [nonzero].
  2:{ rewrite andb_false_r. cbn [orb].
      destruct (actionPath inputPath action); apply IH. }
  destruct (actionPath inputPath action) as [path|]; cbn [nonempty].
  2:{ rewrite andb_false_r. cbn [orb]. apply IH. }
  destruct (Z.eqb time 0); cbn [negb andb].
  { rewrite andb_false_r. cbn [orb]. apply IH. }
  destruct path as [|c path]; cbn [String.eqb negb].
  { rewrite andb_false_r. cbn [orb]. apply IH. }
  unfold bind at 1.
  destruct (waitForElement (String c path) time w2) as [[[e|]|err] w3];
    [| |discriminate].
  - destruct (a_allowFailure action); cbn [negb andb orb];
      first [apply IH | intros _; reflexivity].
  - destruct (a_allowFailure action); cbn [negb andb orb];
      first [apply IH | intros _; reflexivity].
Qed.

End WithDom.
End ActionFacts.

Module OrderFacts.
Import JS Model FormFiller FillerSpec FillerFacts.

Section WithDom.
Context {D : Dom}.

Lemma findFirstOf_first (paths : list string) :
  forall (w w' : World) (e : Elem),
    findFirstOf paths w = (Normal (Some e), w') ->
    exists (earlier : list string) (path : string) (later : list string),
      paths = earlier ++ path :: later
      /\ Forall (fun p => find (page w) p = Normal None) earlier
      /\ find (page w) path = Normal (Some e)
      /\ page w' = page w
      /\ trace w' = Lookup path :: rev (map Lookup earlier) ++ trace w.
Proof.
  induction paths as [|p rest IH]; intros w w' e; cbn [findFirstOf].
  - discriminate.
  - unfold bind, findElement.
    destruct (find (page w) p) as [[x|]|err] eqn:Hp.
    + cbn [ret]. intros H. injection H as <- <-.
      exists [], p, rest. repeat split; auto.
    + intros H. apply IH in H.
      destruct H as [earlier [path [later [-> [Hall [Hfind [Hpage Htrace]]]]]]].
      cbn [page trace] in *.
      exists (p :: earlier), path, later. split; [reflexivity|].
      split; [now constructor|]. split; [exact Hfind|].
      split; [exact Hpage|].
      rewrite Htrace. cbn [map rev]. now rewrite <- app_assoc.
    + discriminate.
Qed.

Lemma fillField_loop_app (fieldName : string) (value : JSValue)
    (atsConfig : ATSConfig) (pre post : list SelectorConfig) :
  forall (w w1 : World),
    fillField_loop fieldName pre value atsConfig w = (Normal false, w1) ->
    fillField_loop fieldName (pre ++ post) value atsConfig w
    = fillField_loop fieldName post value atsConfig w1.
Proof.
  induction pre as [|c pre IH]; intros w w1.
  - cbn [fillField_loop app ret]. intros H. now injection H as <-.
  - cbn [fillField_loop app]. unfold bind at 1 2, try_catch.
    destruct (tryFillWithSelector fieldName c value atsConfig w)
      as [[[|]|e] w2]; cbn [ret].
    + discriminate.
    + apply IH.
    + apply IH.
Qed.

Lemma fillField_loop_true (fieldName : string) (value : JSValue)
    (atsConfig : ATSConfig) (configList : list SelectorConfig) :
  forall (w w' : World),
    fillField_loop fieldName configList value atsConfig w = (Normal true, w') ->
    exists (pre : list SelectorConfig) (c : SelectorConfig)
           (post : list SelectorConfig) (w1 : World),
      configList = pre ++ c :: post
      /\ fillField_loop fieldName pre value atsConfig w = (Normal false, w1)
      /\ tryFillWithSelector fieldName c value atsConfig w1 = (Normal true, w').
Proof.
  induction configList as [|c rest IH]; intros w w'; cbn [fillField_loop].
  - discriminate.
  - unfold bind at 1, try_catch.
    destruct (tryFillWithSelector fieldName c value atsConfig w)
      as [[[|]|e] w2] eqn:Htry; cbn [ret].
    + intros H. injection H as <-. exists [], c, rest, w. auto.
    + intros H. destruct (IH _ _ H) as [pre [c' [post [w1 [-> [Hpre Hc]]]]]].
      exists (c :: pre), c', post, w1. split; [reflexivity|].
      split; [|exact Hc].
      cbn [fillField_loop]. unfold bind at 1, try_catch. now rewrite Htry.
    + intros H. destruct (IH _ _ H) as [pre [c' [post [w1 [-> [Hpre Hc]]]]]].
      exists (c :: pre), c', post, w1. split; [reflexivity|].
      split; [|exact Hc].
      cbn [fillField_loop]. unfold bind at 1, try_catch. now rewrite Htry.
Qed.

End WithDom.
End OrderFacts.

Module WaitFacts.
Import JS Model FormFiller FillerSpec FillerFacts.

Section WithDom.
Context {D : Dom}.


End WithDom.
End WaitFacts.

(** X16. A field whose name is none of the names [getValueForField] knows
    and none of the names every object inherits has no value, and
    [fillField] skips it in the state it was called in, whatever the data
    and the selectors. *)
Theorem fillField_unknown_field_is_skipped {D : Dom} (fieldName : string)
    (selectorConfigs : SelectorConfigs) (data : TailoredData)
    (atsConfig : ATSConfig) (w : World) :
  ~ In fieldName FieldSpec.fieldNames ->
  inherited fieldName = false ->
  getValueForField fieldName data = JUndefined
  /\ fillField fieldName selectorConfigs data atsConfig w = (Normal false, w).
Proof.
  intros Hno Hin.
  assert (Hv := FieldFacts.getValueForField_unknown data Hno Hin).
  split; [exact Hv|].
  apply FieldFacts.fillField_blank. now rewrite Hv.
Qed.

(** A cover letter is no field the filler knows. *)
Lemma cover_letter_skipped :
  fillField (D := Demo.staticDom) "cover_letter"
    (ConfigSingle (Simple "textarea")) Demo.profile Demo.greenhouse
    Demo.atStart
  = (Normal false, Demo.atStart).
Proof.
  apply (proj2 (@fillField_unknown_field_is_skipped Demo.staticDom
                  "cover_letter" (ConfigSingle (Simple "textarea"))
                  Demo.profile Demo.greenhouse Demo.atStart
                  ltac:(intros H; simpl in H;
                        repeat (destruct H as [H|H]; [discriminate|]);
                        exact H)
                  eq_refl)).
Defined.

(** X17. When the data holds no value for any field of the platform,
    [fill] counts every field as skipped and does nothing but pause 100 ms
    after each: no locator is looked up and no element is touched. *)
Theorem fill_without_values_touches_nothing {D : Dom} (config : ATSConfig)
    (tailoredData : TailoredData) (w : World) :
  Forall (fun entry =>
            FieldSpec.blank (getValueForField (fst entry) tailoredData) = true)
    (inputSelectors config) ->
  exists w' : World,
    fill config tailoredData w
    = (Normal {| filledCount := 0;
                 skipCount := length (inputSelectors config) |}, w')
    /\ trace w'
       = repeat (Slept fillDelay) (length (inputSelectors config)) ++ trace w
    /\ page w'
       = FillerSpec.page_after (length (inputSelectors config)) (page w).
Proof.
  intros Hblank. unfold fill.
  destruct (FieldFacts.fill_loop_blank config Hblank 0 0 w)
    as [w' [Hr [Ht [Hp _]]]].
  exists w'. auto.
Qed.

(** Filling the form of the demonstration from an empty profile. *)
Lemma fill_from_empty_profile :
  exists w' : World (D := Demo.staticDom),
    fill (D := Demo.staticDom) Demo.greenhouse [] Demo.atStart
    = (Normal {| filledCount := 0; skipCount := 4 |}, w')
    /\ trace w' = repeat (Slept fillDelay) 4.
Proof.
  destruct (@fill_without_values_touches_nothing Demo.staticDom
              Demo.greenhouse [] Demo.atStart
              ltac:(repeat constructor))
    as [w' [Hfill [Htrace _]]].
  exists w'. split; [exact Hfill|].
  rewrite Htrace. reflexivity.
Defined.

(** X18. [fill] does not apply a table of values that a configuration
    gives by its name: on every page and for every data it does what it
    does on the platform whose configurations have these [values] taken
    out. *)
Theorem fill_ignores_named_value_tables {D : Dom} (config : ATSConfig)
    (tailoredData : TailoredData) (w : World) :
  fill (FieldSpec.platformWithoutTableNames config) tailoredData w
  = fill config tailoredData w.
Proof.
  unfold fill. cbn [FieldSpec.platformWithoutTableNames inputSelectors].
  now apply FieldFacts.fill_loop_withoutTableNames.
Qed.

(** X19. Of the paths of a configuration the first that resolves gives
    the element: the paths in front of it were looked up and resolved to
    none, the ones behind it were not looked up, and the page is as it
    was. *)
Theorem findByPaths_takes_the_first_match {D : Dom} (paths : list string)
    (w w' : World) (e : Elem) :
  findByPaths (Some (ManyPaths paths)) w = (Normal (Some e), w') ->
  exists (earlier : list string) (path : string) (later : list string),
    paths = earlier ++ path :: later
    /\ Forall (fun p => find (page w) p = Normal None) earlier
    /\ find (page w) path = Normal (Some e)
    /\ page w' = page w
    /\ trace w' = Lookup path :: rev (map Lookup earlier) ++ trace w.
Proof. cbn [findByPaths]. apply OrderFacts.findFirstOf_first. Qed.

(** On the form of the demonstration the second path resolves. *)
Lemma findByPaths_second_path :
  exists (earlier : list string) (path : string) (later : list string),
    [".//input[@id='location']"%string; Demo.locationInput]
    = earlier ++ path :: later
    /\ Forall (fun p => find (D := Demo.staticDom) Demo.formPage p
                        = Normal None) earlier
    /\ find (D := Demo.staticDom) Demo.formPage path
       = Normal (Some Demo.locationInput).
Proof.
  destruct (@findByPaths_takes_the_first_match Demo.staticDom
              [".//input[@id='location']"%string; Demo.locationInput]
              Demo.atStart
              (snd (findByPaths (D := Demo.staticDom)
                      (Some (ManyPaths [".//input[@id='location']"%string;
                                        Demo.locationInput]))
                      Demo.atStart))
              Demo.locationInput eq_refl)
    as [earlier [path [later [Hsplit [Hnone [Hfound _]]]]]].
  now exists earlier, path, later.
Defined.

(** X20. [fillField] fills a field with the first of its configurations
    that succeeds: the loop returns true exactly when the configurations in
    front of one of them all failed or raised and that one returned true,
    and then the state is the one that configuration left; the
    configurations behind it are not tried. *)
Theorem fillField_loop_stops_at_the_first_success {D : Dom}
    (fieldName : string) (configList : list SelectorConfig) (value : JSValue)
    (atsConfig : ATSConfig) (w w' : World) :
  fillField_loop fieldName configList value atsConfig w = (Normal true, w')
  <-> exists (pre : list SelectorConfig) (c : SelectorConfig)
             (post : list SelectorConfig) (w1 : World),
        configList = pre ++ c :: post
        /\ fillField_loop fieldName pre value atsConfig w = (Normal false, w1)
        /\ tryFillWithSelector fieldName c value atsConfig w1
           = (Normal true, w').
Proof.
  split; [apply OrderFacts.fillField_loop_true|].
  intros [pre [c [post [w1 [-> [Hpre Hc]]]]]].
  rewrite (OrderFacts.fillField_loop_app (c :: post) Hpre).
  cbn [fillField_loop]. unfold bind at 1, try_catch. now rewrite Hc.
Qed.

(** X21. [executeActions] returns false only when one of its steps waits
    for an element without allowing the wait to fail: a sequence without
    such a step returns true or raises. *)
Theorem executeActions_fails_only_on_a_required_wait {D : Dom}
    (startElement : Elem) (config : ComplexSelector) (actions : list Action)
    (value : JSValue) (w w' : World) :
  executeActions startElement config actions value w = (Normal false, w') ->
  exists action : Action,
    In action actions
    /\ FieldSpec.requiredWait (c_path config) action = true.
Proof.
  unfold executeActions. intros H.
  apply ActionFacts.executeActions_from_false in H.
  apply existsb_exists in H. exact H.
Qed.

(** The sequence of the location field has such a step. *)
Lemma location_sequence_has_a_required_wait :
  exists action : Action,
    In action [Demo.plain "clearValue"; Demo.typeValue; Demo.awaitSuggestion;
               Demo.plain "blur"]
    /\ FieldSpec.requiredWait (c_path Demo.locationConfig) action = true.
Proof.
  apply (@executeActions_fails_only_on_a_required_wait Demo.staticDom
           Demo.locationInput Demo.locationConfig
           [Demo.plain "clearValue"; Demo.typeValue; Demo.awaitSuggestion;
            Demo.plain "blur"]
           (JString "London") Demo.found
           (snd (executeActions (D := Demo.staticDom) Demo.locationInput
                   Demo.locationConfig
                   [Demo.plain "clearValue"; Demo.typeValue;
                    Demo.awaitSuggestion; Demo.plain "blur"]
                   (JString "London") Demo.found))).
  vm_compute. reflexivity.
Defined.


